(** * AgentChain core: account state, transaction pool, ledger queries and
    PoSA consensus rounds

    A shallow embedding of the TypeScript sources under
    [backend/src/blockchain/core] (StateManager.ts, Transaction.ts,
    TransactionPool.ts, Block.ts, Chain.ts) and of the consensus
    coordinator (PoSAConsensus), followed by the properties established
    about them.

    Conventions of the embedding:
    - a [bigint] is a [Z]; a [number] that only ever holds a count, an index
      or a height is a [nat] or a [Z];
    - a JavaScript [Map] is an association list in insertion order
      (module [JSMap]): [set] on a present key keeps its position;
    - an object that is mutated through several references lives in an
      explicit heap and is named by its index (module [StateManager]);
    - a call that may throw returns a [JS.Completion];
    - [Date.now()] is an argument of the operation that reads it, and so
      is the digest function of a block header, keccak256 of a library;
    - a read of a property that an object does not have yields
      [undefined], here [None];
    - [logger] calls are left out, except where the log is all that a
      function does. *)

From Stdlib Require Import ZArith List String Ascii Bool Lia Permutation Sorted.
From Stdlib Require DecimalString DecimalZ HexadecimalString.
Import ListNotations.

Local Open Scope Z_scope.

(* ================================================================== *)
(** * JavaScript built-ins used by the sources *)
(* ================================================================== *)

Module JS.

Inductive Error : Type :=
| TypeError                     (* property read on null or undefined *)
| NamedError (name : string).   (* [throw new Error(name)] *)

Inductive Completion (A : Type) : Type :=
| Returns (a : A)
| Throws (e : Error).
Arguments Returns {A} a.
Arguments Throws {A} e.

(** [String.prototype.toLowerCase] on the code units below 128. *)
Definition lowerChar (c : ascii) : ascii :=
  let n := N_of_ascii c in
  if ((65 <=? n) && (n <=? 90))%N then ascii_of_N (n + 32) else c.

Fixpoint toLowerCase (s : string) : string :=
  match s with
  | EmptyString => EmptyString
  | String c r => String (lowerChar c) (toLowerCase r)
  end.

(** [x.toLowerCase()] where [x] may be [undefined] or [null] ([None]):
    reading a property of either throws a TypeError. *)
Definition callToLowerCase (x : option string) : Completion string :=
  match x with
  | Some s => Returns (toLowerCase s)
  | None => Throws TypeError
  end.

(** Truthiness of a string: every string but the empty one. *)
Definition truthy (s : string) : bool :=
  match s with EmptyString => false | String _ _ => true end.

Definition startsWith (p s : string) : bool := String.prefix p s.

(** [BigInt.prototype.toString()], also what a template literal does. *)
Definition bigintToString (z : Z) : string :=
  DecimalString.NilZero.string_of_int (Z.to_int z).

(** [Number.prototype.toString(16)] of a non-negative integer. *)
Definition toString16 (n : N) : string :=
  HexadecimalString.NilZero.string_of_uint (N.to_hex_uint n).

Fixpoint repeatChar (c : ascii) (n : nat) : string :=
  match n with O => EmptyString | S k => String c (repeatChar c k) end.

Definition padStart (target : nat) (c : ascii) (s : string) : string :=
  append (repeatChar c (target - String.length s)) s.

(** [Array.prototype.join]. *)
Fixpoint join (sep : string) (l : list string) : string :=
  match l with
  | [] => EmptyString
  | [x] => x
  | x :: rest => append x (append sep (join sep rest))
  end.

(** [a.localeCompare(b)]: negative, zero or positive.  Keys of the account
    map are lower-cased hexadecimal addresses, on which the collation order
    is the order of the code units. *)
Definition localeCompare (a b : string) : Z :=
  match String.compare a b with Lt => -1 | Eq => 0 | Gt => 1 end.

(** [ToInt32]: wrap to a signed 32-bit integer. *)
Definition toInt32 (z : Z) : Z :=
  let m := z mod 2 ^ 32 in
  if m <? 2 ^ 31 then m else m - 2 ^ 32.

(** [Array.prototype.sort(cmp)]: a stable sort; [x] moves behind [y]
    exactly when [cmp x y > 0]. *)
Section Sort.
Context {A : Type} (cmp : A -> A -> Z).

Fixpoint insertBy (x : A) (l : list A) : list A :=
  match l with
  | [] => [x]
  | y :: rest => if 0 <? cmp x y then y :: insertBy x rest else x :: y :: rest
  end.

Definition sortBy (l : list A) : list A := fold_right insertBy [] l.
End Sort.

(** The doubles that arise from integers. *)
Inductive Number : Type :=
| Finite (z : Z)
| PosInfinity
| NegInfinity.

(** Nearest double (ties to even) of a non-negative integer, as an
    integer; exact up to 53 significant bits. *)
Definition roundToDouble (n : Z) : Z :=
  let bits := Z.log2 n + 1 in
  if bits <=? 53 then n
  else
    let e := bits - 53 in
    let q := Z.shiftr n e in
    let rest := n - Z.shiftl q e in
    let half := Z.shiftl 1 (e - 1) in
    let q' := if (half <? rest) || ((rest =? half) && Z.odd q) then q + 1 else q in
    Z.shiftl q' e.

(** [parseFloat(x)] for a bigint [x]: the double nearest to its decimal
    rendering, infinite from 2^1024 on (a magnitude of 1025 bits or more). *)
Definition parseFloat (z : Z) : Number :=
  let m := roundToDouble (Z.abs z) in
  if 1024 <=? Z.log2 m then (if z <? 0 then NegInfinity else PosInfinity)
  else Finite (Z.sgn z * m).

(** Sign of [a - b] as a sort comparator sees it: the difference of two
    equal infinities is NaN, which [sort] reads as 0. *)
Definition subSign (a b : Number) : Z :=
  match a, b with
  | Finite x, Finite y => Z.sgn (x - y)
  | PosInfinity, PosInfinity => 0
  | NegInfinity, NegInfinity => 0
  | PosInfinity, _ => 1
  | _, PosInfinity => -1
  | NegInfinity, _ => -1
  | _, NegInfinity => 1
  end.

(** Order of the doubles, for stating what a sort achieves. *)
Definition leNumber (a b : Number) : Prop := subSign a b <= 0.

(** [a] stands at a lower index than [b] in the array [l]. *)
Definition Before {A : Type} (a b : A) (l : list A) : Prop :=
  exists l1 l2 l3, l = l1 ++ a :: l2 ++ b :: l3.

(** [Number(x)] for a bigint [x]: the nearest double, as [parseFloat]
    finds it from the decimal rendering. *)
Definition toNumber (z : Z) : Number := parseFloat z.

(** Whether [a - b] is NaN: the difference of two equal infinities. *)
Definition diffIsNaN (a b : Number) : bool :=
  match a, b with
  | PosInfinity, PosInfinity | NegInfinity, NegInfinity => true
  | _, _ => false
  end.

(** [Array.prototype.slice(0, limit)] for an integer [limit]; a negative
    one counts from the end of the array. *)
Definition sliceTo {A : Type} (limit : Z) (l : list A) : list A :=
  if limit <? 0 then firstn (Z.to_nat (Z.of_nat (List.length l) + limit)) l
  else firstn (Z.to_nat limit) l.

(** [Buffer.from(s)]: the UTF-8 bytes of a string whose code units are
    below 256 (one byte below 128, two from there on). *)
Definition utf8Char (c : ascii) : list N :=
  let n := N_of_ascii c in
  if (n <? 128)%N then [n] else [192 + n / 64; 128 + n mod 64]%N.

Fixpoint bufferFrom (s : string) : list N :=
  match s with
  | EmptyString => []
  | String c rest => utf8Char c ++ bufferFrom rest
  end.

Definition hexDigit (n : N) : ascii :=
  nth (N.to_nat n)
    ["0"; "1"; "2"; "3"; "4"; "5"; "6"; "7";
     "8"; "9"; "a"; "b"; "c"; "d"; "e"; "f"]%char "0"%char.

(** [buffer.toString('hex')] *)
Fixpoint toHex (bytes : list N) : string :=
  match bytes with
  | [] => EmptyString
  | b :: rest =>
      String (hexDigit (b / 16)) (String (hexDigit (b mod 16)) (toHex rest))
  end.

(** [s.slice(0, n)] *)
Definition sliceString (n : nat) (s : string) : string := String.substring 0 n s.

End JS.

(* ================================================================== *)
(** * [Map]: association lists in insertion order *)
(* ================================================================== *)

Module JSMap.

Definition t (K V : Type) : Type := list (K * V).

Section Ops.
Context {K V : Type} (eqb : K -> K -> bool).

Fixpoint get (k : K) (m : t K V) : option V :=
  match m with
  | [] => None
  | (k', v) :: rest => if eqb k k' then Some v else get k rest
  end.

Definition has (k : K) (m : t K V) : bool :=
  match get k m with Some _ => true | None => false end.

(** A present key keeps its place, a new key goes last. *)
Fixpoint set (k : K) (v : V) (m : t K V) : t K V :=
  match m with
  | [] => [(k, v)]
  | (k', v') :: rest =>
      if eqb k k' then (k, v) :: rest else (k', v') :: set k v rest
  end.

Fixpoint delete (k : K) (m : t K V) : t K V :=
  match m with
  | [] => []
  | (k', v') :: rest =>
      if eqb k k' then rest else (k', v') :: delete k rest
  end.

Definition size (m : t K V) : nat := List.length m.
Definition entries (m : t K V) : list (K * V) := m.
Definition keys (m : t K V) : list K := map fst m.
Definition values (m : t K V) : list V := map snd m.
End Ops.

End JSMap.

(* ================================================================== *)
(** * Transaction.ts *)
(* ================================================================== *)

Module Transaction.

(** The members of [class Transaction].  [hash] is set once by the
    constructor (keccak256 of the JSON rendering) and is kept as data. *)
Record t : Type := {
  nonce : Z;
  gasPrice : Z;
  gasLimit : Z;
  to : option string;
  value : Z;
  data : string;
  v : Z;
  r : string;
  s : string;
  hash : string
}.

(** The property read [transaction.from] of StateManager, TransactionPool
    and Chain.  The class has no member of that name: the constructor,
    [createTransfer], [createContractDeployment] and [fromJSON] set the
    ten members above and nothing else (the [from] passed to the two
    factories is not stored), so the read yields [undefined]. *)
Definition from (tx : t) : option string := None.

Definition isHexDigit (c : ascii) : bool :=
  let n := N_of_ascii c in
  (((48 <=? n) && (n <=? 57)) || ((97 <=? n) && (n <=? 102))
   || ((65 <=? n) && (n <=? 70)))%N.

Fixpoint allHex (str : string) : bool :=
  match str with
  | EmptyString => true
  | String c rest => isHexDigit c && allHex rest
  end.

(** [/^0x[a-fA-F0-9]{40}$/.test(address)] *)
Definition isValidAddress (address : string) : bool :=
  match address with
  | String "0" (String "x" rest) =>
      Nat.eqb (String.length rest) 40 && allHex rest
  | _ => false
  end.

Definition validate (tx : t) : bool :=
  if (gasLimit tx <=? 0) || (gasPrice tx <? 0) || (value tx <? 0) || (nonce tx <? 0)
  then false
  else if negb (JS.truthy (r tx)) || negb (JS.truthy (s tx)) || (v tx <? 0)
  then false
  else if JS.truthy (data tx) && negb (JS.startsWith "0x" (data tx))
  then false
  else if match to tx with
          | Some a => JS.truthy a && negb (isValidAddress a)
          | None => false
          end
  then false
  else true.

Definition isContractCreation (tx : t) : bool :=
  match to tx with
  | None => true
  | Some a => String.eqb a EmptyString
  end.

Definition getCost (tx : t) : Z := gasLimit tx * gasPrice tx + value tx.

End Transaction.

(* ================================================================== *)
(** * StateManager.ts *)
(* ================================================================== *)

Module StateManager.

(** [interface AccountState]; the optional [codeHash] and [storageRoot]
    are never written by this class. *)
Record AccountState : Type := { balance : Z; nonce : Z }.

(** Account objects are mutated in place through whatever variable holds
    them ([fromAccount.balance -= amount]), so the map stores references
    into a heap of account objects. *)
Definition Ref : Type := nat.

Record t : Type := {
  heap : list AccountState;
  accounts : JSMap.t string Ref;
  currentStateRoot : string
}.

Definition emptyAccount : AccountState := {| balance := 0; nonce := 0 |}.

Definition deref (h : list AccountState) (p : Ref) : AccountState :=
  nth p h emptyAccount.

(** [new] of an object literal. *)
Definition alloc (a : AccountState) (h : list AccountState)
  : Ref * list AccountState :=
  (List.length h, h ++ [a]).

Fixpoint modify (p : Ref) (f : AccountState -> AccountState)
  (h : list AccountState) : list AccountState :=
  match h, p with
  | [], _ => []
  | a :: rest, O => f a :: rest
  | a :: rest, S p' => a :: modify p' f rest
  end.

Definition addBalance (d : Z) (a : AccountState) : AccountState :=
  {| balance := balance a + d; nonce := nonce a |}.
Definition putBalance (b : Z) (a : AccountState) : AccountState :=
  {| balance := b; nonce := nonce a |}.
Definition addNonce (d : Z) (a : AccountState) : AccountState :=
  {| balance := balance a; nonce := nonce a + d |}.

Definition mapGet := @JSMap.get string Ref String.eqb.
Definition mapSet := @JSMap.set string Ref String.eqb.

(** [this.accounts.get(address.toLowerCase()) || null], dereferenced. *)
Definition getAccount (address : string) (st : t) : option AccountState :=
  match mapGet (JS.toLowerCase address) (accounts st) with
  | Some p => Some (deref (heap st) p)
  | None => None
  end.

Definition getBalance (address : string) (st : t) : Z :=
  match getAccount address st with Some a => balance a | None => 0 end.

Definition getNonce (address : string) (st : t) : Z :=
  match getAccount address st with Some a => nonce a | None => 0 end.

(** ** The state root *)

(** One iteration of the loop of [simpleHash]:
    [hash = ((hash << 5) - hash) + char; hash = hash & hash]. *)
Definition hashStep (hash : Z) (c : ascii) : Z :=
  JS.toInt32 (JS.toInt32 (Z.shiftl hash 5) - hash + Z.of_N (N_of_ascii c)).

Fixpoint hashLoop (hash : Z) (data : string) : Z :=
  match data with
  | EmptyString => hash
  | String c rest => hashLoop (hashStep hash c) rest
  end.

Definition simpleHash (data : string) : string :=
  JS.padStart 64 "0" (JS.toString16 (Z.to_N (Z.abs (hashLoop 0 data)))).

(** The template literal [`${address}:${account.balance}:${account.nonce}`]. *)
Definition renderAccount (h : list AccountState) (e : string * Ref) : string :=
  let account := deref h (snd e) in
  append (fst e)
    (append ":" (append (JS.bigintToString (balance account))
       (append ":" (JS.bigintToString (nonce account))))).

Definition compareEntries (a b : string * Ref) : Z :=
  JS.localeCompare (fst a) (fst b).

(** The string that [updateStateRoot] stores. *)
Definition stateRootOf (h : list AccountState) (m : JSMap.t string Ref) : string :=
  let accountData :=
    JS.join "|" (map (renderAccount h) (JS.sortBy compareEntries (JSMap.entries m))) in
  append "0x" (simpleHash accountData).

Definition updateStateRoot (st : t) : t :=
  {| heap := heap st;
     accounts := accounts st;
     currentStateRoot := stateRootOf (heap st) (accounts st) |}.

(** ** Construction *)

Definition genesisAccounts : list (string * AccountState) :=
  [ ("0x1234567890123456789012345678901234567890"%string,
     {| balance := 1000000000000000000000000000; nonce := 0 |});
    ("0x2345678901234567890123456789012345678901"%string,
     {| balance := 500000000000000000000000000; nonce := 0 |});
    ("0x3456789012345678901234567890123456789012"%string,
     {| balance := 100000000000000000000000000; nonce := 0 |}) ].

(** [initializeGenesisState]: a fresh object per genesis account. *)
Definition initializeGenesisState (st : t) : t :=
  fold_left
    (fun acc account =>
       let '(p, h) := alloc (snd account) (heap acc) in
       {| heap := h;
          accounts := mapSet (JS.toLowerCase (fst account)) p (accounts acc);
          currentStateRoot := currentStateRoot acc |})
    genesisAccounts st.

(** [new StateManager()] *)
Definition create : t :=
  initializeGenesisState
    {| heap := []; accounts := []; currentStateRoot := EmptyString |}.

Definition initialize (st : t) : t :=
  updateStateRoot (initializeGenesisState st).

(** ** Mutators *)

(** The object bound by [this.accounts.get(k) || { balance: 0n, nonce: 0n }]:
    the stored one, or a newly allocated one. *)
Definition getOrFresh (k : string) (h : list AccountState)
  (m : JSMap.t string Ref) : Ref * list AccountState :=
  match mapGet k m with
  | Some p => (p, h)
  | None => alloc emptyAccount h
  end.

Definition setBalance (address : string) (b : Z) (st : t) : t :=
  let normalizedAddress := JS.toLowerCase address in
  let '(account, h0) := getOrFresh normalizedAddress (heap st) (accounts st) in
  let h1 := modify account (putBalance b) h0 in
  updateStateRoot
    {| heap := h1;
       accounts := mapSet normalizedAddress account (accounts st);
       currentStateRoot := currentStateRoot st |}.

Definition incrementNonce (address : string) (st : t) : t :=
  let normalizedAddress := JS.toLowerCase address in
  let '(account, h0) := getOrFresh normalizedAddress (heap st) (accounts st) in
  let h1 := modify account (addNonce 1) h0 in
  updateStateRoot
    {| heap := h1;
       accounts := mapSet normalizedAddress account (accounts st);
       currentStateRoot := currentStateRoot st |}.

Definition transfer (from to : string) (amount : Z) (st : t) : t * bool :=
  let fromAddress := JS.toLowerCase from in
  let toAddress := JS.toLowerCase to in
  match mapGet fromAddress (accounts st) with
  | None => (st, false)
  | Some fromAccount =>
      if balance (deref (heap st) fromAccount) <? amount then (st, false)
      else
        let '(toAccount, h0) := getOrFresh toAddress (heap st) (accounts st) in
        (* fromAccount.balance -= amount; toAccount.balance += amount *)
        let h1 := modify fromAccount (addBalance (- amount)) h0 in
        let h2 := modify toAccount (addBalance amount) h1 in
        (* this.accounts.set(fromAddress, ...); this.accounts.set(toAddress, ...) *)
        let m1 := mapSet fromAddress fromAccount (accounts st) in
        let m2 := mapSet toAddress toAccount m1 in
        (updateStateRoot
           {| heap := h2; accounts := m2;
              currentStateRoot := currentStateRoot st |},
         true)
  end.

(** Which [return] of [processTransaction] was taken. *)
Inductive Exit : Type :=
| ExitCatch           (* [catch (error) { return false; }] *)
| ExitNoSender        (* [if (!fromAccount) return false] *)
| ExitNonce           (* under "Check nonce" *)
| ExitBalance         (* under "Check balance" *)
| ExitTransfer        (* [if (!success) return false] *)
| ExitDone.           (* [return true] *)

Definition exitValue (e : Exit) : bool :=
  match e with ExitDone => true | _ => false end.

(** [processTransaction], with the exit taken in place of the boolean.
    The first statement of the [try] block calls [toLowerCase] on
    [transaction.from]; when that call throws, the [catch] returns [false]
    and nothing has been written yet. *)
Definition processTransactionExit (transaction : Transaction.t) (st : t)
  : t * Exit :=
  match JS.callToLowerCase (Transaction.from transaction) with
  | JS.Throws _ => (st, ExitCatch)
  | JS.Returns from =>
      let to := option_map JS.toLowerCase (Transaction.to transaction) in
      match mapGet from (accounts st) with
      | None => (st, ExitNoSender)
      | Some fromAccount =>
          if negb (nonce (deref (heap st) fromAccount) =? Transaction.nonce transaction)
          then (st, ExitNonce)
          else
            let gasPrice := Transaction.gasPrice transaction in
            let gasLimit := Transaction.gasLimit transaction in
            let gasCost := gasPrice * gasLimit in
            let totalCost := Transaction.value transaction + gasCost in
            if balance (deref (heap st) fromAccount) <? totalCost
            then (st, ExitBalance)
            else
              (* if (to && transaction.value > 0n) *)
              let afterTransfer :=
                match to with
                | Some toAddr =>
                    if JS.truthy toAddr && (0 <? Transaction.value transaction)
                    then transfer from toAddr (Transaction.value transaction) st
                    else (st, true)
                | None => (st, true)
                end in
              let '(st1, success) := afterTransfer in
              if negb success then (st1, ExitTransfer)
              else
                (* fromAccount.balance -= gasCost; fromAccount.nonce += 1n *)
                let h1 := modify fromAccount (addBalance (- gasCost)) (heap st1) in
                let h2 := modify fromAccount (addNonce 1) h1 in
                (updateStateRoot
                   {| heap := h2;
                      accounts := mapSet from fromAccount (accounts st1);
                      currentStateRoot := currentStateRoot st1 |},
                 ExitDone)
      end
  end.

Definition processTransaction (transaction : Transaction.t) (st : t)
  : t * bool :=
  let '(st', e) := processTransactionExit transaction st in
  (st', exitValue e).

Definition getTotalSupply (st : t) : Z :=
  fold_left (fun total p => total + balance (deref (heap st) p))
    (JSMap.values (accounts st)) 0.

(** The account mutations of the public interface, to speak of sequences
    of them. *)
Inductive Mutation : Type :=
| SetBalance (address : string) (b : Z)
| IncrementNonce (address : string)
| Transfer (from to : string) (amount : Z)
| ProcessTransaction (transaction : Transaction.t).

Definition apply (m : Mutation) (st : t) : t :=
  match m with
  | SetBalance a b => setBalance a b st
  | IncrementNonce a => incrementNonce a st
  | Transfer f d amount => fst (transfer f d amount st)
  | ProcessTransaction tx => fst (processTransaction tx st)
  end.

Definition run (ms : list Mutation) (st : t) : t :=
  fold_left (fun acc m => apply m acc) ms st.

(** Every reference held by the map names an allocated object, and no
    object is held under two addresses. *)
Definition wfHM (h : list AccountState) (m : JSMap.t string Ref) : Prop :=
  NoDup (JSMap.keys m)
  /\ NoDup (JSMap.values m)
  /\ Forall (fun p => (p < List.length h)%nat) (JSMap.values m).

Definition wf (st : t) : Prop := wfHM (heap st) (accounts st).

(** The account stored under a key of the map, if any. *)
Definition viewHM (h : list AccountState) (m : JSMap.t string Ref)
  (k : string) : option AccountState :=
  match mapGet k m with
  | Some p => Some (deref h p)
  | None => None
  end.

Definition view (st : t) (k : string) : option AccountState :=
  viewHM (heap st) (accounts st) k.

Definition orEmpty (o : option AccountState) : AccountState :=
  match o with Some a => a | None => emptyAccount end.

(** The stored root is the commitment of the stored accounts. *)
Definition rootFresh (st : t) : Prop :=
  currentStateRoot st = stateRootOf (heap st) (accounts st).





(** ** Snapshots and the remaining getters *)

Module Snapshot.
(** [interface StateSnapshot].  [accounts] is [new Map(this.accounts)]: a
    new map that holds the same account objects; [contracts] is a copy of
    a map that nothing writes to and is left out. *)
Record t : Type := {
  accounts : JSMap.t string Ref;
  stateRoot : string;
  timestamp : Z
}.
End Snapshot.

(** [push] followed by [if (length > 100) shift()]. *)
Definition pushSnapshot (s : Snapshot.t) (l : list Snapshot.t) : list Snapshot.t :=
  let l' := l ++ [s] in
  if (100 <? List.length l')%nat then tl l' else l'.

(** [createSnapshot], given the clock and the array [this.snapshots]; the
    accounts are left as they are. *)
Definition createSnapshot (now : Z) (st : t) (snapshots : list Snapshot.t)
  : Snapshot.t * list Snapshot.t :=
  let snapshot :=
    {| Snapshot.accounts := accounts st;
       Snapshot.stateRoot := currentStateRoot st;
       Snapshot.timestamp := now |} in
  (snapshot, pushSnapshot snapshot snapshots).

(** [restoreSnapshot]: the map and the root are replaced, the account
    objects are the ones the snapshot shares with the live state. *)
Definition restoreSnapshot (snapshot : Snapshot.t) (st : t) : t :=
  {| heap := heap st;
     accounts := Snapshot.accounts snapshot;
     currentStateRoot := Snapshot.stateRoot snapshot |}.

Definition getStateRoot (st : t) : string := currentStateRoot st.

Definition getAccountCount (st : t) : nat := JSMap.size (accounts st).

(** The state manager with its array [this.snapshots], and what a caller
    can do with the two: mutate the accounts, take a snapshot, restore one
    of the snapshots that are kept. *)
Record Store : Type := { live : t; snapshots : list Snapshot.t }.

Inductive Command : Type :=
| Mutate (m : Mutation)
| TakeSnapshot (now : Z)
| Restore (i : nat).

Definition exec (c : Command) (s : Store) : Store :=
  match c with
  | Mutate m => {| live := apply m (live s); snapshots := snapshots s |}
  | TakeSnapshot now =>
      {| live := live s;
         snapshots := snd (createSnapshot now (live s) (snapshots s)) |}
  | Restore i =>
      match nth_error (snapshots s) i with
      | Some snapshot =>
          {| live := restoreSnapshot snapshot (live s);
             snapshots := snapshots s |}
      | None => s
      end
  end.

Definition execAll (cs : list Command) (s : Store) : Store :=
  fold_left (fun acc c => exec c acc) cs s.

(** A mutation that names no negative amount. *)
Definition nonneg (m : Mutation) : Prop :=
  match m with
  | SetBalance _ b => 0 <= b
  | IncrementNonce _ => True
  | Transfer _ _ amount => 0 <= amount
  | ProcessTransaction transaction => 0 <= Transaction.value transaction
  end.

(** No stored account holds a negative balance. *)
Definition solvent (st : t) : Prop :=
  forall k a, view st k = Some a -> 0 <= balance a.

(** Every snapshot that is kept refers to account objects that exist. *)
Definition anchored (s : Store) : Prop :=
  wf (live s)
  /\ Forall (fun snapshot => wfHM (heap (live s)) (Snapshot.accounts snapshot))
       (snapshots s).

(** The sum of the balances behind a list of references. *)
Definition sumBalances (h : list AccountState) (refs : list Ref) : Z :=
  fold_left (fun total p => total + balance (deref h p)) refs 0.

End StateManager.

(* ================================================================== *)
(** * TransactionPool.ts *)
(* ================================================================== *)

Module TransactionPool.

(** [pendingTransactions]; [queuedTransactions] is only ever cleared. *)
Record t : Type := { pendingTransactions : JSMap.t string Transaction.t }.

Definition MAX_POOL_SIZE : Z := 10000.

Definition create : t := {| pendingTransactions := [] |}.

Definition mapGet := @JSMap.get string Transaction.t String.eqb.
Definition mapHas := @JSMap.has string Transaction.t String.eqb.
Definition mapSet := @JSMap.set string Transaction.t String.eqb.
Definition mapDelete := @JSMap.delete string Transaction.t String.eqb.

(** The comparator of [evictLowestFeeTransactions]:
    [parseFloat(a.gasPrice) - parseFloat(b.gasPrice)]. *)
Definition feeCompare (a b : string * Transaction.t) : Z :=
  JS.subSign (JS.parseFloat (Transaction.gasPrice (snd a)))
             (JS.parseFloat (Transaction.gasPrice (snd b))).

(** [Math.floor(transactions.length * 0.1)]: the product in double
    precision exceeds the tenth of the length by less than half a unit in
    the last place, so the floor is the integer quotient by ten. *)
Definition removeCount (len : nat) : nat := (len / 10)%nat.

Definition evictLowestFeeTransactions (p : t) : t :=
  let transactions := JSMap.entries (pendingTransactions p) in
  let sorted := JS.sortBy feeCompare transactions in
  {| pendingTransactions :=
       fold_left (fun m e => mapDelete (fst e) m)
         (firstn (removeCount (List.length transactions)) sorted)
         (pendingTransactions p) |}.

Definition addTransaction (transaction : Transaction.t) (p : t) : t * bool :=
  if negb (Transaction.validate transaction) then (p, false)
  else if mapHas (Transaction.hash transaction) (pendingTransactions p)
  then (p, false)
  else
    let p1 :=
      if MAX_POOL_SIZE <=? Z.of_nat (JSMap.size (pendingTransactions p))
      then evictLowestFeeTransactions p
      else p in
    ({| pendingTransactions :=
          mapSet (Transaction.hash transaction) transaction
            (pendingTransactions p1) |},
     true).

(** Admitting a list of transactions one after the other. *)
Definition admitAll (l : list Transaction.t) (p : t) : t :=
  fold_left (fun acc tx => fst (addTransaction tx acc)) l p.

(** The gas price of an entry as the eviction compares it. *)
Definition entryPrice (e : string * Transaction.t) : JS.Number :=
  JS.parseFloat (Transaction.gasPrice (snd e)).

(** An entry of [p] that is gone from [p'], and one that is still there. *)
Definition evicted (e : string * Transaction.t) (p p' : t) : Prop :=
  In e (JSMap.entries (pendingTransactions p))
  /\ mapHas (fst e) (pendingTransactions p') = false.

Definition kept (e : string * Transaction.t) (p p' : t) : Prop :=
  In e (JSMap.entries (pendingTransactions p))
  /\ mapHas (fst e) (pendingTransactions p') = true.

Definition entryOf (tx : Transaction.t) : string * Transaction.t :=
  (Transaction.hash tx, tx).

Definition removeTransaction (hash : string) (p : t) : t * bool :=
  ({| pendingTransactions := mapDelete hash (pendingTransactions p) |},
   mapHas hash (pendingTransactions p)).

Definition getTransaction (hash : string) (p : t) : option Transaction.t :=
  mapGet hash (pendingTransactions p).

Definition hasTransaction (hash : string) (p : t) : bool :=
  mapHas hash (pendingTransactions p).

Definition getSize (p : t) : nat := JSMap.size (pendingTransactions p).

(** The condition of the loop of [getTransactionsByAddress]:
    [tx.from.toLowerCase() === address.toLowerCase() ||
     (tx.to && tx.to.toLowerCase() === address.toLowerCase())].
    The left operand is evaluated first. *)
Definition concerns (address : string) (tx : Transaction.t) : JS.Completion bool :=
  match JS.callToLowerCase (Transaction.from tx) with
  | JS.Throws e => JS.Throws e
  | JS.Returns sender =>
      JS.Returns
        (String.eqb sender (JS.toLowerCase address)
         || match Transaction.to tx with
            | Some a =>
                JS.truthy a && String.eqb (JS.toLowerCase a) (JS.toLowerCase address)
            | None => false
            end)
  end.

(** The loop over [this.pendingTransactions.values()]; nothing catches
    what the condition throws. *)
Fixpoint collect (address : string) (txs transactions : list Transaction.t)
  : JS.Completion (list Transaction.t) :=
  match txs with
  | [] => JS.Returns transactions
  | tx :: rest =>
      match concerns address tx with
      | JS.Throws e => JS.Throws e
      | JS.Returns true => collect address rest (transactions ++ [tx])
      | JS.Returns false => collect address rest transactions
      end
  end.

Definition getTransactionsByAddress (address : string) (p : t)
  : JS.Completion (list Transaction.t) :=
  collect address (JSMap.values (pendingTransactions p)) [].

Definition getPendingNonce (address : string) (p : t) : JS.Completion Z :=
  match getTransactionsByAddress address p with
  | JS.Throws e => JS.Throws e
  | JS.Returns transactions =>
      match transactions with
      | [] => JS.Returns 0
      | _ =>
          let maxNonce :=
            fold_left
              (fun max tx =>
                 if max <? Transaction.nonce tx then Transaction.nonce tx else max)
              transactions 0 in
          JS.Returns (maxNonce + 1)
      end
  end.

(** The comparator of [getPendingTransactions].  When both gas prices are
    the same infinity, [gasPriceDiff] is NaN: [NaN !== 0] holds, NaN is
    returned and [sort] reads it as 0. *)
Definition pendingCompare (a b : Transaction.t) : Z :=
  let pb := JS.parseFloat (Transaction.gasPrice b) in
  let pa := JS.parseFloat (Transaction.gasPrice a) in
  if JS.diffIsNaN pb pa then 0
  else if negb (JS.subSign pb pa =? 0) then JS.subSign pb pa
  else JS.subSign (JS.toNumber (Transaction.nonce a))
                  (JS.toNumber (Transaction.nonce b)).

(** [getPendingTransactions(limit)], for an integer [limit]. *)
Definition getPendingTransactions (limit : Z) (p : t) : list Transaction.t :=
  JS.sliceTo limit
    (JS.sortBy pendingCompare (JSMap.values (pendingTransactions p))).

(** The default value of [limit]. *)
Definition defaultPendingLimit : Z := 100.

Definition clear (p : t) : t := {| pendingTransactions := [] |}.

(** The gas price of a transaction as the comparators read it. *)
Definition priceOf (tx : Transaction.t) : JS.Number :=
  JS.parseFloat (Transaction.gasPrice tx).

(** [a] may stand before [b] in the result of [getPendingTransactions]:
    its gas price is not the lower one and, at the same finite gas price,
    its nonce is not the higher one (all as doubles). *)
Definition mayPrecede (a b : Transaction.t) : Prop :=
  JS.leNumber (priceOf b) (priceOf a)
  /\ (forall x, priceOf a = JS.Finite x -> priceOf b = JS.Finite x ->
        JS.leNumber (JS.toNumber (Transaction.nonce a))
                    (JS.toNumber (Transaction.nonce b))).

(** What a caller can do to a pool, to speak of sequences of calls. *)
Inductive Op : Type :=
| Add (transaction : Transaction.t)
| Remove (hash : string)
| Clear.

Definition step (o : Op) (p : t) : t :=
  match o with
  | Add transaction => fst (addTransaction transaction p)
  | Remove hash => fst (removeTransaction hash p)
  | Clear => clear p
  end.

Definition steps (l : list Op) (p : t) : t :=
  fold_left (fun acc o => step o acc) l p.

(** Every entry is a valid transaction filed under its own hash, and no
    hash is filed twice. *)
Definition orderly (p : t) : Prop :=
  NoDup (JSMap.keys (pendingTransactions p))
  /\ Forall (fun e => fst e = Transaction.hash (snd e)
                      /\ Transaction.validate (snd e) = true)
       (JSMap.entries (pendingTransactions p)).

End TransactionPool.

(* ================================================================== *)
(** * Block.ts and Chain.ts *)
(* ================================================================== *)

Module Block.

(** [interface BlockHeader] *)
Record BlockHeader : Type := {
  parentHash : string;
  ommersHash : string;
  beneficiary : string;
  stateRoot : string;
  transactionsRoot : string;
  receiptsRoot : string;
  logsBloom : string;
  difficulty : Z;
  number : Z;
  gasLimit : Z;
  gasUsed : Z;
  timestamp : Z;
  extraData : string;
  mixHash : string;
  nonce : string
}.

(** The members of [class Block] that the ledger reads.  Of [ommers] the
    code only asks that it is there; the array [validatorSignatures] is
    filled in place and is passed beside the block (see
    [addValidatorSignature]). *)
Record t : Type := {
  header : BlockHeader;
  transactions : list Transaction.t;
  hash : string
}.

(** [calculateHash] is keccak256, a function of a library, of the JSON
    rendering of the fifteen header fields.  The embedding takes it as an
    argument [calculateHash] of every function that builds or validates a
    block, so that what is proved holds for every digest function. *)
Definition Digest : Type := BlockHeader -> string.

(** [new Block({ header, transactions, ommers })]: the constructor stores
    the digest of the header. *)
Definition make (calculateHash : Digest) (header : BlockHeader)
  (transactions : list Transaction.t) : t :=
  {| header := header;
     transactions := transactions;
     hash := calculateHash header |}.

(** [Block.createGenesis()], given the clock. *)
Definition createGenesis (calculateHash : Digest) (now : Z) : t :=
  let genesisHeader :=
    {| parentHash :=
         "0x0000000000000000000000000000000000000000000000000000000000000000";
       ommersHash :=
         "0x1dcc4de8dec75d7aab85b567b6ccd41ad312451b948a7413f0a142fd40d49347";
       beneficiary := "0x0000000000000000000000000000000000000000";
       stateRoot :=
         "0x56e81f171bcc55a6ff8345e692c0f86e5b48e01b996cadc001622fb5e363b421";
       transactionsRoot :=
         "0x56e81f171bcc55a6ff8345e692c0f86e5b48e01b996cadc001622fb5e363b421";
       receiptsRoot :=
         "0x56e81f171bcc55a6ff8345e692c0f86e5b48e01b996cadc001622fb5e363b421";
       logsBloom := append "0x" (JS.repeatChar "0" 512);
       difficulty := 1000000;
       number := 0;
       gasLimit := 100000000;
       gasUsed := 0;
       timestamp := now;
       extraData := "0x41726e61436861696e2047656e6573697320426c6f636b";
       mixHash :=
         "0x0000000000000000000000000000000000000000000000000000000000000000";
       nonce := "0x0000000000000042" |} in
  make calculateHash genesisHeader [].

(** [validate].  The header, the transactions and the ommers are always
    there; the last check recomputes the digest of the header as it is now
    and compares it with the one the constructor stored. *)
Definition validate (calculateHash : Digest) (b : t) : bool :=
  if number (header b) <? 0 then false
  else if timestamp (header b) <=? 0 then false
  else if (gasLimit (header b) <=? 0) || (gasLimit (header b) <? gasUsed (header b))
  then false
  else if negb (forallb Transaction.validate (transactions b)) then false
  else if negb (String.eqb (calculateHash (header b)) (hash b)) then false
  else true.

Module Signature.
(** [interface ValidatorSignature] *)
Record t : Type := {
  validator : string;
  signature : string;
  reasoning : string;
  timestamp : Z
}.
End Signature.

(** What a block emits to its listeners. *)
Inductive Event : Type :=
| validatorSigned (s : Signature.t)
| consensus.

(** [hasConsensus(requiredValidators)], on the array [validatorSignatures]
    of the block.  The array is filled in place after the block is built
    and is passed beside the block. *)
Definition hasConsensus (requiredValidators : Z) (signatures : list Signature.t)
  : bool :=
  requiredValidators <=? Z.of_nat (List.length signatures).

(** The default value of [requiredValidators]. *)
Definition defaultRequiredValidators : Z := 4.

Definition alreadySigned (s : Signature.t) (signatures : list Signature.t)
  : bool :=
  existsb (fun sig => String.eqb (Signature.validator sig) (Signature.validator s))
    signatures.

(** [addValidatorSignature], on the signatures and the events emitted so
    far. *)
Definition addValidatorSignature (s : Signature.t)
  (signatures : list Signature.t) (emitted : list Event)
  : JS.Completion (list Signature.t * list Event) :=
  if alreadySigned s signatures
  then JS.Throws
         (JS.NamedError
            (append "Validator "
               (append (Signature.validator s) " has already signed this block")))
  else
    let signatures' := signatures ++ [s] in
    let emitted' := emitted ++ [validatorSigned s] in
    JS.Returns
      (signatures',
       if hasConsensus defaultRequiredValidators signatures'
       then emitted' ++ [consensus]
       else emitted').

(** A caller that goes on after a refused signature: the throw comes
    before anything is written. *)
Definition signOrKeep (s : Signature.t) (st : list Signature.t * list Event)
  : list Signature.t * list Event :=
  match addValidatorSignature s (fst st) (snd st) with
  | JS.Returns st' => st'
  | JS.Throws _ => st
  end.

Definition signAll (l : list Signature.t) (st : list Signature.t * list Event)
  : list Signature.t * list Event :=
  fold_left (fun acc s => signOrKeep s acc) l st.

Definition isConsensus (e : Event) : bool :=
  match e with consensus => true | validatorSigned _ => false end.

End Block.

Module Chain.

Record t : Type := {
  blocks : JSMap.t string Block.t;
  blocksByNumber : JSMap.t nat Block.t;
  currentHeight : nat;
  genesisBlock : Block.t;
  stateManager : StateManager.t;
  transactionPool : TransactionPool.t
}.

(** [new Chain()] *)
Definition create (calculateHash : Block.Digest) (now : Z) : t :=
  let g := Block.createGenesis calculateHash now in
  {| blocks := [(Block.hash g, g)];
     blocksByNumber := [(0%nat, g)];
     currentHeight := 0;
     genesisBlock := g;
     stateManager := StateManager.create;
     transactionPool := TransactionPool.create |}.

Definition byNumber := @JSMap.get nat Block.t Nat.eqb.

(** The loop of [addBlock] over the transactions of the block: the result
    of [processTransaction] is not looked at. *)
Definition applyBlockTransactions (txs : list Transaction.t)
  (sm : StateManager.t) (pool : TransactionPool.t)
  : StateManager.t * TransactionPool.t :=
  fold_left
    (fun acc tx =>
       (fst (StateManager.processTransaction tx (fst acc)),
        fst (TransactionPool.removeTransaction (Transaction.hash tx) (snd acc))))
    txs (sm, pool).

Definition addBlock (calculateHash : Block.Digest) (block : Block.t) (c : t)
  : t * bool :=
  if negb (Block.validate calculateHash block) then (c, false)
  else if JSMap.has String.eqb (Block.hash block) (blocks c) then (c, false)
  else if negb (JSMap.has String.eqb (Block.parentHash (Block.header block)) (blocks c))
          && (0 <? Block.number (Block.header block))
  then (c, false)
  else
    let expectedNumber := S (currentHeight c) in
    if negb (Block.number (Block.header block) =? Z.of_nat expectedNumber)
    then (c, false)
    else
      let '(sm, pool) :=
        applyBlockTransactions (Block.transactions block)
          (stateManager c) (transactionPool c) in
      ({| blocks := JSMap.set String.eqb (Block.hash block) block (blocks c);
          blocksByNumber :=
            JSMap.set Nat.eqb expectedNumber block (blocksByNumber c);
          currentHeight := expectedNumber;
          genesisBlock := genesisBlock c;
          stateManager := sm;
          transactionPool := pool |},
       true).

(** [transactions.push(tx); if (transactions.length >= limit) break;]
    The result says whether the loop over the block goes on. *)
Definition pushTx (limit : Z) (tx : Transaction.t) (found : list Transaction.t)
  : list Transaction.t * bool :=
  let found' := found ++ [tx] in
  (found', negb (limit <=? Z.of_nat (List.length found'))).

(** The loop over [block.transactions] of [getTransactionsByAddress], with
    the condition [tx.from.toLowerCase() === address.toLowerCase() ||
    tx.to.toLowerCase() === address.toLowerCase()]: the left operand is
    evaluated first, the right one only when the left one is false, and
    neither read is guarded. *)
Fixpoint scanBlock (address : string) (limit : Z) (txs : list Transaction.t)
  (found : list Transaction.t) : JS.Completion (list Transaction.t) :=
  match txs with
  | [] => JS.Returns found
  | tx :: rest =>
      match JS.callToLowerCase (Transaction.from tx) with
      | JS.Throws e => JS.Throws e
      | JS.Returns sender =>
          if String.eqb sender (JS.toLowerCase address)
          then
            let '(found', goOn) := pushTx limit tx found in
            if goOn then scanBlock address limit rest found' else JS.Returns found'
          else
            match JS.callToLowerCase (Transaction.to tx) with
            | JS.Throws e => JS.Throws e
            | JS.Returns recipient =>
                if String.eqb recipient (JS.toLowerCase address)
                then
                  let '(found', goOn) := pushTx limit tx found in
                  if goOn then scanBlock address limit rest found'
                  else JS.Returns found'
                else scanBlock address limit rest found
            end
      end
  end.

(** The loop [for (let i = currentHeight; i >= 0 && transactions.length < limit; i--)]. *)
Fixpoint scanChain (c : t) (address : string) (limit : Z) (i : nat)
  (found : list Transaction.t) : JS.Completion (list Transaction.t) :=
  if Z.of_nat (List.length found) <? limit then
    let here :=
      match byNumber i (blocksByNumber c) with
      | Some block => scanBlock address limit (Block.transactions block) found
      | None => JS.Returns found
      end in
    match here with
    | JS.Throws e => JS.Throws e
    | JS.Returns found' =>
        match i with
        | O => JS.Returns found'
        | S j => scanChain c address limit j found'
        end
    end
  else JS.Returns found.

Definition getTransactionsByAddress (address : string) (limit : Z) (c : t)
  : JS.Completion (list Transaction.t) :=
  scanChain c address limit (currentHeight c) [].

(** The default value of [limit]. *)
Definition defaultLimit : Z := 50.

Inductive LogLevel : Type := Info | Warn | LogError.

Record LogRecord : Type := {
  level : LogLevel;
  message : string;
  meta : string
}.

(** [reorg]: one warning is logged and [false] is returned. *)
Definition reorg (targetHash : string) (c : t)
  : t * list LogRecord * JS.Completion bool :=
  (c,
   [ {| level := Warn;
        message := "Blockchain reorganization requested";
        meta := targetHash |} ],
   JS.Returns false).

(** ** Lookups *)

Definition getBlock (hash : string) (c : t) : option Block.t :=
  JSMap.get String.eqb hash (blocks c).

Definition getBlockByNumber (number : nat) (c : t) : option Block.t :=
  byNumber number (blocksByNumber c).

Definition getLatestBlock (c : t) : Block.t :=
  match byNumber (currentHeight c) (blocksByNumber c) with
  | Some block => block
  | None => genesisBlock c
  end.

Definition getHeight (c : t) : nat := currentHeight c.

(** [addTransaction] hands the transaction to the pool. *)
Definition addTransaction (transaction : Transaction.t) (c : t) : t * bool :=
  let '(pool, ok) :=
    TransactionPool.addTransaction transaction (transactionPool c) in
  ({| blocks := blocks c;
      blocksByNumber := blocksByNumber c;
      currentHeight := currentHeight c;
      genesisBlock := genesisBlock c;
      stateManager := stateManager c;
      transactionPool := pool |},
   ok).

(** [block.transactions.find(t => t.hash === hash)] *)
Definition findInBlock (hash : string) (block : Block.t) : option Transaction.t :=
  find (fun t => String.eqb (Transaction.hash t) hash) (Block.transactions block).

(** The loop of [getTransaction] over [this.blocks.values()]. *)
Fixpoint searchBlocks (hash : string) (bs : list Block.t) : option Transaction.t :=
  match bs with
  | [] => None
  | block :: rest =>
      match findInBlock hash block with
      | Some tx => Some tx
      | None => searchBlocks hash rest
      end
  end.

Definition getTransaction (hash : string) (c : t) : option Transaction.t :=
  match searchBlocks hash (JSMap.values (blocks c)) with
  | Some tx => Some tx
  | None => TransactionPool.getTransaction hash (transactionPool c)
  end.

(** The values taken by [i] in [for (let i = start; ...; i++)] over
    [count] rounds. *)
Fixpoint countFrom (start : Z) (count : nat) : list Z :=
  match count with
  | O => []
  | S k => start :: countFrom (start + 1) k
  end.

(** [getBlockRange], for integer bounds. *)
Definition getBlockRange (fromBlock toBlock : Z) (c : t) : list Block.t :=
  let start := Z.max 0 fromBlock in
  let end_ := Z.min (Z.of_nat (currentHeight c)) toBlock in
  flat_map
    (fun i =>
       match byNumber (Z.to_nat i) (blocksByNumber c) with
       | Some block => [block]
       | None => []
       end)
    (countFrom start (Z.to_nat (end_ - start + 1))).

(** ** The transactions root *)

(** ['0x' + Buffer.from(left + right).toString('hex').slice(0, 64)] *)
Definition merkleNode (left right : string) : string :=
  append "0x" (JS.sliceString 64 (JS.toHex (JS.bufferFrom (append left right)))).

(** The loop of [buildMerkleTree] over the pairs of one level;
    [hashes[i + 1] || left] also falls back on an empty right hash. *)
Fixpoint nextLevel (hashes : list string) : list string :=
  match hashes with
  | [] => []
  | [l] => [merkleNode l l]
  | l :: r :: rest =>
      merkleNode l (if JS.truthy r then r else l) :: nextLevel rest
  end.

(** [buildMerkleTree] with a bound on the depth of the recursion; [None]
    when the bound is used up.  On an empty array the recursion of the
    source never comes to an end. *)
Fixpoint buildMerkleTreeWithin (depth : nat) (hashes : list string)
  : option string :=
  match depth with
  | O => None
  | S depth' =>
      match hashes with
      | [root] => Some root
      | _ => buildMerkleTreeWithin depth' (nextLevel hashes)
      end
  end.

Definition buildMerkleTree (hashes : list string) : option string :=
  buildMerkleTreeWithin (List.length hashes) hashes.

Definition calculateTransactionsRoot (transactions : list Transaction.t)
  : option string :=
  match transactions with
  | [] =>
      Some "0x56e81f171bcc55a6ff8345e692c0f86e5b48e01b996cadc001622fb5e363b421"%string
  | _ => buildMerkleTree (map Transaction.hash transactions)
  end.

(** ** Histories of a chain *)

Inductive Op : Type :=
| AddBlock (block : Block.t)
| AddTransaction (transaction : Transaction.t).

Definition step (calculateHash : Block.Digest) (o : Op) (c : t) : t :=
  match o with
  | AddBlock block => fst (addBlock calculateHash block c)
  | AddTransaction transaction => fst (addTransaction transaction c)
  end.

Definition steps (calculateHash : Block.Digest) (l : list Op) (c : t) : t :=
  fold_left (fun acc o => step calculateHash o acc) l c.

(** Every height up to the current one holds a block of that number that
    is also filed under its hash, and nothing is filed above. *)
Definition consistent (c : t) : Prop :=
  (forall n, (n <= currentHeight c)%nat ->
     exists block,
       byNumber n (blocksByNumber c) = Some block
       /\ Block.number (Block.header block) = Z.of_nat n
       /\ JSMap.get String.eqb (Block.hash block) (blocks c) = Some block)
  /\ (forall n, (currentHeight c < n)%nat ->
        byNumber n (blocksByNumber c) = None)
  /\ (forall h block,
        JSMap.get String.eqb h (blocks c) = Some block -> Block.hash block = h).

(** Whether one of the blocks filed under the heights [0] to [i] holds a
    transaction. *)
Fixpoint holdsTransaction (c : t) (i : nat) : bool :=
  match byNumber i (blocksByNumber c) with
  | Some block =>
      match Block.transactions block with [] => false | _ :: _ => true end
  | None => false
  end
  || match i with
     | O => false
     | S j => holdsTransaction c j
     end.

End Chain.

(* ================================================================== *)
(** * PoSAConsensus *)
(* ================================================================== *)

Module PoSAConsensus.

Inductive VoteKind : Type := approve | reject.

Definition isApprove (k : VoteKind) : bool :=
  match k with approve => true | reject => false end.
Definition isReject (k : VoteKind) : bool :=
  match k with reject => true | approve => false end.

Module Vote.
(** [interface ConsensusVote] *)
Record t : Type := {
  blockHash : string;
  validator : string;
  vote : VoteKind;
  reasoning : string;
  timestamp : Z;
  signature : string
}.
End Vote.

Inductive Status : Type := pending | approved | rejected | timeout.

Definition statusEqb (a b : Status) : bool :=
  match a, b with
  | pending, pending | approved, approved
  | rejected, rejected | timeout, timeout => true
  | _, _ => false
  end.

Module Round.
(** [interface ConsensusRound] *)
Record t : Type := {
  blockHash : string;
  proposer : string;
  startTime : Z;
  votes : list Vote.t;
  status : Status;
  finalizedAt : option Z
}.
End Round.

Record PoSAConfig : Type := {
  validatorCount : Z;
  requiredVotes : Z;
  roundTimeout : Z;
  blockTime : Z
}.

(** What the coordinator emits to its listeners. *)
Inductive Event : Type :=
| roundStarted (round : option Round.t)
| voteReceived (v : Vote.t)
| consensusReached (round : Round.t) (isApproved : bool).

(** A callback registered with [setTimeout] and not yet run.  The callback
    is [() => this.handleRoundTimeout()] and carries no round; [armedFor]
    only records the proposal whose [proposeBlock] registered it. *)
Record Timer : Type := { armedFor : string; delay : Z }.

Record t : Type := {
  currentRound : option Round.t;
  consensusHistory : list Round.t;
  config : PoSAConfig;
  isActive : bool;
  timers : list Timer;
  emitted : list Event
}.

(** [new PoSAConsensus(validatorManager, config)] *)
Definition create (cfg : PoSAConfig) : t :=
  {| currentRound := None; consensusHistory := []; config := cfg;
     isActive := false; timers := []; emitted := [] |}.

Definition initialize (c : t) : t :=
  {| currentRound := currentRound c; consensusHistory := consensusHistory c;
     config := config c; isActive := true; timers := timers c;
     emitted := emitted c |}.

Definition withRound (r : option Round.t) (c : t) : t :=
  {| currentRound := r; consensusHistory := consensusHistory c;
     config := config c; isActive := isActive c; timers := timers c;
     emitted := emitted c |}.

Definition emit (e : Event) (c : t) : t :=
  {| currentRound := currentRound c; consensusHistory := consensusHistory c;
     config := config c; isActive := isActive c; timers := timers c;
     emitted := emitted c ++ [e] |}.

(** [push] followed by [if (length > 100) shift()]. *)
Definition pushHistory (r : Round.t) (h : list Round.t) : list Round.t :=
  let h' := h ++ [r] in
  if (100 <? List.length h')%nat then tl h' else h'.

(** [this.currentRound.status = status; this.currentRound.finalizedAt = Date.now()] *)
Definition settle (st : Status) (now : Z) (r : Round.t) : Round.t :=
  {| Round.blockHash := Round.blockHash r;
     Round.proposer := Round.proposer r;
     Round.startTime := Round.startTime r;
     Round.votes := Round.votes r;
     Round.status := st;
     Round.finalizedAt := Some now |}.

Definition finalizeRound (st : Status) (now : Z) (c : t) : t :=
  match currentRound c with
  | None => c
  | Some r =>
      let r' := settle st now r in
      {| currentRound := None;
         consensusHistory := pushHistory r' (consensusHistory c);
         config := config c;
         isActive := isActive c;
         timers := timers c;
         emitted := emitted c ++ [consensusReached r' (statusEqb st approved)] |}
  end.

Definition approvalVotes (vs : list Vote.t) : Z :=
  Z.of_nat (List.length (filter (fun v => isApprove (Vote.vote v)) vs)).
Definition rejectionVotes (vs : list Vote.t) : Z :=
  Z.of_nat (List.length (filter (fun v => isReject (Vote.vote v)) vs)).
Definition totalVotes (vs : list Vote.t) : Z := Z.of_nat (List.length vs).

Definition checkConsensusStatus (now : Z) (c : t) : t :=
  match currentRound c with
  | None => c
  | Some r =>
      let a := approvalVotes (Round.votes r) in
      let rj := rejectionVotes (Round.votes r) in
      let total := totalVotes (Round.votes r) in
      if requiredVotes (config c) <=? a then finalizeRound approved now c
      else if requiredVotes (config c) <=? rj then finalizeRound rejected now c
      else if validatorCount (config c) <=? total then
        if rj <? a then finalizeRound approved now c
        else finalizeRound rejected now c
      else c
  end.

Definition validateVoteSignature (v : Vote.t) : bool :=
  (0 <? String.length (Vote.signature v))%nat
  && (0 <? String.length (Vote.validator v))%nat.

Definition alreadyVoted (v : Vote.t) (r : Round.t) : bool :=
  existsb (fun w => String.eqb (Vote.validator w) (Vote.validator v))
    (Round.votes r).

Definition pushVote (v : Vote.t) (r : Round.t) : Round.t :=
  {| Round.blockHash := Round.blockHash r;
     Round.proposer := Round.proposer r;
     Round.startTime := Round.startTime r;
     Round.votes := Round.votes r ++ [v];
     Round.status := Round.status r;
     Round.finalizedAt := Round.finalizedAt r |}.

Definition handleValidatorVote (v : Vote.t) (now : Z) (c : t) : t :=
  match currentRound c with
  | None => c
  | Some r =>
      if negb (String.eqb (Vote.blockHash v) (Round.blockHash r)) then c
      else if alreadyVoted v r then c
      else if negb (validateVoteSignature v) then c
      else
        let c1 := withRound (Some (pushVote v r)) c in
        let c2 := emit (voteReceived v) c1 in
        checkConsensusStatus now c2
  end.

Definition handleRoundTimeout (now : Z) (c : t) : t :=
  match currentRound c with
  | None => c
  | Some r =>
      if negb (statusEqb (Round.status r) pending) then c
      else finalizeRound rejected now c
  end.

(** [proposeBlock].  [incoming] lists the votes that the validators raise
    while [requestValidatorVotes] is awaited, each with the clock at its
    arrival; the timer is registered only after that. *)
Definition proposeBlock (block : Block.t) (proposer : string) (now : Z)
  (incoming : list (Vote.t * Z)) (c : t) : t * bool :=
  if negb (isActive c) then (c, false)
  else
    match currentRound c with
    | Some _ => (c, false)
    | None =>
        let c1 :=
          withRound
            (Some {| Round.blockHash := Block.hash block;
                     Round.proposer := proposer;
                     Round.startTime := now;
                     Round.votes := [];
                     Round.status := pending;
                     Round.finalizedAt := None |}) c in
        let c2 :=
          fold_left (fun acc vt => handleValidatorVote (fst vt) (snd vt) acc)
            incoming c1 in
        let c3 :=
          {| currentRound := currentRound c2;
             consensusHistory := consensusHistory c2;
             config := config c2;
             isActive := isActive c2;
             timers :=
               timers c2
               ++ [ {| armedFor := Block.hash block;
                       delay := roundTimeout (config c2) |} ];
             emitted := emitted c2 |} in
        (emit (roundStarted (currentRound c3)) c3, true)
    end.

Fixpoint removeNth {A : Type} (i : nat) (l : list A) : list A :=
  match l, i with
  | [], _ => []
  | _ :: rest, O => rest
  | x :: rest, S j => x :: removeNth j rest
  end.

(** The [i]-th registered timer comes due: its callback runs. *)
Definition fireTimer (i : nat) (now : Z) (c : t) : t :=
  match nth_error (timers c) i with
  | None => c
  | Some _ =>
      handleRoundTimeout now
        {| currentRound := currentRound c;
           consensusHistory := consensusHistory c;
           config := config c;
           isActive := isActive c;
           timers := removeNth i (timers c);
           emitted := emitted c |}
  end.

(** [stop] *)
Definition stop (now : Z) (c : t) : t :=
  let c1 :=
    {| currentRound := currentRound c; consensusHistory := consensusHistory c;
       config := config c; isActive := false; timers := timers c;
       emitted := emitted c |} in
  match currentRound c1 with
  | Some _ => handleRoundTimeout now c1
  | None => c1
  end.

(** [recentRounds.filter(r => r.status === 'timeout').length] of
    [getConsensusStats], over the last fifty rounds. *)
Definition timeoutRounds (c : t) : nat :=
  let h := consensusHistory c in
  let recentRounds := skipn (List.length h - 50) h in
  List.length (filter (fun r => statusEqb (Round.status r) timeout) recentRounds).

(** An archived round that carries one of the two statuses that
    [finalizeRound] accepts. *)
Definition decided (r : Round.t) : Prop :=
  Round.status r = approved \/ Round.status r = rejected.

(** What can happen to a coordinator, to speak of its histories. *)
Inductive Action : Type :=
| Propose (block : Block.t) (proposer : string) (now : Z)
    (incoming : list (Vote.t * Z))
| Cast (v : Vote.t) (now : Z)
| Fire (i : nat) (now : Z)
| Stop (now : Z).

Definition act (a : Action) (c : t) : t :=
  match a with
  | Propose block proposer now incoming =>
      fst (proposeBlock block proposer now incoming c)
  | Cast v now => handleValidatorVote v now c
  | Fire i now => fireTimer i now c
  | Stop now => stop now c
  end.

Definition runActions (l : list Action) (c : t) : t :=
  fold_left (fun acc a => act a acc) l c.

(** The tally rule in the words of the specification: with [a] approvals,
    [r] rejections, quorum [q] and [n] validators of which [total] have
    voted, the status the round moves to, if any. *)
Definition specTally (a r q n total : Z) : option Status :=
  if q <=? a then Some approved
  else if q <=? r then Some rejected
  else if n <=? total then (if r <? a then Some approved else Some rejected)
  else None.

Definition getCurrentRound (c : t) : option Round.t := currentRound c.

Definition isRoundActive (c : t) : bool :=
  match currentRound c with
  | Some r => statusEqb (Round.status r) pending
  | None => false
  end.

(** The condition under which [handleValidatorVote] returns before the
    vote is pushed. *)
Definition ignores (v : Vote.t) (c : t) : Prop :=
  match currentRound c with
  | None => True
  | Some r =>
      Vote.blockHash v <> Round.blockHash r
      \/ alreadyVoted v r = true
      \/ validateVoteSignature v = false
  end.

(** The votes of a round are signed votes on its block by validators that
    differ from one another. *)
Definition sound (r : Round.t) : Prop :=
  NoDup (map Vote.validator (Round.votes r))
  /\ Forall (fun v => Vote.blockHash v = Round.blockHash r
                      /\ validateVoteSignature v = true)
       (Round.votes r).

(** An approved round has the quorum of approvals, or the votes of all
    validators with more approvals than rejections. *)
Definition justified (cfg : PoSAConfig) (r : Round.t) : Prop :=
  Round.status r = approved ->
  requiredVotes cfg <= approvalVotes (Round.votes r)
  \/ (validatorCount cfg <= totalVotes (Round.votes r)
      /\ rejectionVotes (Round.votes r) < approvalVotes (Round.votes r)).

(** What holds of a coordinator at any time: an open round is pending and
    not yet finalized, every round is sound, and the archived ones are
    decided, finalized and justified. *)
Definition orderly (c : t) : Prop :=
  (forall r, currentRound c = Some r ->
     Round.status r = pending /\ Round.finalizedAt r = None /\ sound r)
  /\ Forall (fun r => decided r /\ sound r /\ Round.finalizedAt r <> None
                      /\ justified (config c) r)
       (consensusHistory c)
  /\ (List.length (consensusHistory c) <= 100)%nat.

Definition isFire (a : Action) : bool :=
  match a with Fire _ _ => true | _ => false end.

End PoSAConsensus.

(* ================================================================== *)
(** * Sample data *)
(* ================================================================== *)

Module Samples.

Definition addr1 : string := "0x1234567890123456789012345678901234567890".
Definition addr2 : string := "0x2345678901234567890123456789012345678901".
Definition addr3 : string := "0x3456789012345678901234567890123456789012".
Definition addr4 : string := "0x4567890123456789012345678901234567890123".

(** [Transaction.createTransfer(from, to, value, nonce, gasPrice, gasLimit)],
    with the digest given.  The factory passes [nonce], [gasPrice],
    [gasLimit], [to], [value] and the data ['0x'] to the constructor; its
    argument [from] goes nowhere. *)
Definition createTransfer (from to : string) (value nonce gasPrice gasLimit : Z)
  (digest : string) : Transaction.t :=
  {| Transaction.nonce := nonce;
     Transaction.gasPrice := gasPrice;
     Transaction.gasLimit := gasLimit;
     Transaction.to := Some to;
     Transaction.value := value;
     Transaction.data := "0x";
     Transaction.v := 27;
     Transaction.r := "0x0000000000000000000000000000000000000000000000000000000000000000";
     Transaction.s := "0x0000000000000000000000000000000000000000000000000000000000000000";
     Transaction.hash := digest |}.

(** [Transaction.createContractDeployment(from, bytecode, value, nonce,
    gasPrice, gasLimit)], likewise. *)
Definition createContractDeployment (from bytecode : string)
  (value nonce gasPrice gasLimit : Z) (digest : string) : Transaction.t :=
  {| Transaction.nonce := nonce;
     Transaction.gasPrice := gasPrice;
     Transaction.gasLimit := gasLimit;
     Transaction.to := None;
     Transaction.value := value;
     Transaction.data := bytecode;
     Transaction.v := 27;
     Transaction.r := "0x0000000000000000000000000000000000000000000000000000000000000000";
     Transaction.s := "0x0000000000000000000000000000000000000000000000000000000000000000";
     Transaction.hash := digest |}.

(** The state manager of a chain after [initialize]. *)
Definition genesisState : StateManager.t :=
  StateManager.initialize StateManager.create.

Definition payment : Transaction.t :=
  createTransfer addr1 addr2 5 0 5000000000 21000 "a1".

Definition deployment : Transaction.t :=
  createContractDeployment addr1 "0x6080" 5 0 5000000000 2000000 "d1".

(** A pool holding the payment and a transfer of 1 to [addr1] with
    nonce 7. *)
Definition received : Transaction.t :=
  createTransfer addr3 addr1 1 7 5000000000 21000 "a2".

Definition poolOfTwo : TransactionPool.t :=
  fst (TransactionPool.addTransaction received
         (fst (TransactionPool.addTransaction payment TransactionPool.create))).

(** Pools at capacity.  [priced i] offers the gas price [i]; [uniform i]
    offers 5 Gwei like every other. *)
Fixpoint range (start : Z) (count : nat) : list Z :=
  match count with
  | O => []
  | S k => start :: range (start + 1) k
  end.

Definition digestOf (i : Z) : string :=
  append "tx" (JS.bigintToString i).

Definition priced (i : Z) : Transaction.t :=
  createTransfer addr1 addr2 1 i i 21000 (digestOf i).

Definition uniform (i : Z) : Transaction.t :=
  createTransfer addr1 addr2 1 i 5000000000 21000 (digestOf i).

Definition capacity : nat := Z.to_nat TransactionPool.MAX_POOL_SIZE.

Definition risingPool : TransactionPool.t :=
  TransactionPool.admitAll (map priced (range 1 capacity)) TransactionPool.create.

Definition forwardPool : TransactionPool.t :=
  TransactionPool.admitAll (map uniform (range 1 capacity)) TransactionPool.create.

Fixpoint rangeDown (start : Z) (count : nat) : list Z :=
  match count with
  | O => []
  | S k => start :: rangeDown (start - 1) k
  end.

Definition backwardPool : TransactionPool.t :=
  TransactionPool.admitAll (map uniform (rangeDown 10000 capacity))
    TransactionPool.create.

Definition newcomer : Transaction.t := priced 10001.

(** Three offers, admitted in the order 3, 7, 5 of their gas prices. *)
Definition auction : TransactionPool.t :=
  TransactionPool.admitAll (map priced [3; 7; 5]) TransactionPool.create.

(** A digest function for the samples: the fifteen header fields joined
    by colons, which keeps any two headers of the samples apart. *)
Definition calculateHash : Block.Digest :=
  fun h =>
    JS.join ":"
      [ Block.parentHash h; Block.ommersHash h; Block.beneficiary h;
        Block.stateRoot h; Block.transactionsRoot h; Block.receiptsRoot h;
        Block.logsBloom h; JS.bigintToString (Block.difficulty h);
        JS.bigintToString (Block.number h); JS.bigintToString (Block.gasLimit h);
        JS.bigintToString (Block.gasUsed h); JS.bigintToString (Block.timestamp h);
        Block.extraData h; Block.mixHash h; Block.nonce h ].

(** A header on top of [parentHash]. *)
Definition headerOf (parentHash : string) (number gasUsed timestamp : Z)
  : Block.BlockHeader :=
  {| Block.parentHash := parentHash;
     Block.ommersHash :=
       "0x1dcc4de8dec75d7aab85b567b6ccd41ad312451b948a7413f0a142fd40d49347";
     Block.beneficiary := addr3;
     Block.stateRoot :=
       "0x56e81f171bcc55a6ff8345e692c0f86e5b48e01b996cadc001622fb5e363b421";
     Block.transactionsRoot :=
       "0x56e81f171bcc55a6ff8345e692c0f86e5b48e01b996cadc001622fb5e363b421";
     Block.receiptsRoot :=
       "0x56e81f171bcc55a6ff8345e692c0f86e5b48e01b996cadc001622fb5e363b421";
     Block.logsBloom := "0x";
     Block.difficulty := 1000000;
     Block.number := number;
     Block.gasLimit := 100000000;
     Block.gasUsed := gasUsed;
     Block.timestamp := timestamp;
     Block.extraData := "0x";
     Block.mixHash :=
       "0x0000000000000000000000000000000000000000000000000000000000000000";
     Block.nonce := "0x0000000000000042" |}.

Definition genesisChain : Chain.t := Chain.create calculateHash 1700000000000.

(** A chain whose first block after genesis holds one contract creation. *)
Definition blockOne : Block.t :=
  Block.make calculateHash
    (headerOf (Block.hash (Chain.genesisBlock genesisChain)) 1 0 1700000010000)
    [deployment].

Definition chainOfOne : Chain.t :=
  fst (Chain.addBlock calculateHash blockOne genesisChain).

(** A chain whose first block after genesis holds one payment. *)
Definition paidBlock : Block.t :=
  Block.make calculateHash
    (headerOf (Block.hash (Chain.genesisBlock genesisChain)) 1 21000 1700000010000)
    [payment].

Definition chainOfPayment : Chain.t :=
  fst (Chain.addBlock calculateHash paidBlock genesisChain).

(** [paidBlock] after [header.gasUsed] has been overwritten: the stored
    digest is the one of the header as it was. *)
Definition alteredBlock : Block.t :=
  {| Block.header :=
       headerOf (Block.hash (Chain.genesisBlock genesisChain)) 1 42000 1700000010000;
     Block.transactions := Block.transactions paidBlock;
     Block.hash := Block.hash paidBlock |}.

(** A transaction whose hash has the length of a keccak256 digest. *)
Definition anchor : Transaction.t :=
  createTransfer addr1 addr2 1 0 5000000000 21000
    "0x9f86d081884c7d659a2feaa0c55ad015a3bf4f1b2b0b822cd15d6c15b0f00a08".

(** Six validators, a quorum of four, thirty seconds to vote. *)
Definition sixOfFour : PoSAConsensus.PoSAConfig :=
  {| PoSAConsensus.validatorCount := 6;
     PoSAConsensus.requiredVotes := 4;
     PoSAConsensus.roundTimeout := 30000;
     PoSAConsensus.blockTime := 10000 |}.

Definition coordinator : PoSAConsensus.t :=
  PoSAConsensus.initialize (PoSAConsensus.create sixOfFour).

Definition ballot (blockHash validator : string) (k : PoSAConsensus.VoteKind)
  (now : Z) : PoSAConsensus.Vote.t :=
  {| PoSAConsensus.Vote.blockHash := blockHash;
     PoSAConsensus.Vote.validator := validator;
     PoSAConsensus.Vote.vote := k;
     PoSAConsensus.Vote.reasoning := "sound";
     PoSAConsensus.Vote.timestamp := now;
     PoSAConsensus.Vote.signature := "sig" |}.

(** Two blocks put to the vote, their digests written [b1] and [b2] for
    short. *)
Definition proposalOne : Block.t :=
  {| Block.header := headerOf "g0" 1 0 1700000010000;
     Block.transactions := [deployment];
     Block.hash := "b1" |}.

Definition proposalTwo : Block.t :=
  {| Block.header := headerOf "b1" 2 0 1700000020000;
     Block.transactions := [];
     Block.hash := "b2" |}.

(** A round on [proposalOne] that three validators have approved. *)
Definition threeApprovals : PoSAConsensus.t :=
  PoSAConsensus.runActions
    [ PoSAConsensus.Propose proposalOne "claude" 0 [];
      PoSAConsensus.Cast (ballot "b1" "claude" PoSAConsensus.approve 100) 100;
      PoSAConsensus.Cast (ballot "b1" "gpt" PoSAConsensus.approve 200) 200;
      PoSAConsensus.Cast (ballot "b1" "grok" PoSAConsensus.approve 300) 300 ]
    coordinator.

(** A round on [proposalOne] with a single vote and its timer running. *)
Definition oneVote : PoSAConsensus.t :=
  PoSAConsensus.runActions
    [ PoSAConsensus.Propose proposalOne "claude" 0 [];
      PoSAConsensus.Cast (ballot "b1" "claude" PoSAConsensus.approve 100) 100 ]
    coordinator.

(** The round on [proposalOne] is approved after 400 ms; ten seconds after
    the first proposal a round on [proposalTwo] is opened and gets two votes. *)
Definition secondRound : PoSAConsensus.t :=
  PoSAConsensus.runActions
    [ PoSAConsensus.Cast (ballot "b1" "stable" PoSAConsensus.approve 400) 400;
      PoSAConsensus.Propose proposalTwo "gpt" 10000 [];
      PoSAConsensus.Cast (ballot "b2" "claude" PoSAConsensus.approve 10100) 10100;
      PoSAConsensus.Cast (ballot "b2" "gpt" PoSAConsensus.approve 10200) 10200 ]
    threeApprovals.



End Samples.

(* ================================================================== *)
(** * The built-ins on small inputs *)
(* ================================================================== *)

Example toLowerCase_mixed :
  JS.toLowerCase "0xABCdef0123" = "0xabcdef0123"%string.
Proof. reflexivity. Qed.

Example localeCompare_signs :
  JS.localeCompare "0x12" "0x1a" = -1
  /\ JS.localeCompare "0x1a" "0x1a" = 0
  /\ JS.localeCompare "0x2" "0x1a" = 1.
Proof. repeat split; reflexivity. Qed.

Example toInt32_wraps :
  JS.toInt32 2147483647 = 2147483647
  /\ JS.toInt32 2147483648 = -2147483648
  /\ JS.toInt32 (-2147483649) = 2147483647.
Proof. repeat split; reflexivity. Qed.

Example simpleHash_abc :
  StateManager.simpleHash "abc"
  = "0000000000000000000000000000000000000000000000000000000000017862"%string.
Proof. reflexivity. Qed.

Example bigintToString_signed :
  JS.bigintToString 0 = "0"%string
  /\ JS.bigintToString 1000000000000000000000000000
     = "1000000000000000000000000000"%string
  /\ JS.bigintToString (-5) = "-5"%string.
Proof. repeat split; reflexivity. Qed.

(** Integers are exact doubles up to 2^53; above, they round to the nearest
    representable one, ties to even. *)
Example parseFloat_rounds :
  JS.parseFloat 5000000000 = JS.Finite 5000000000
  /\ JS.parseFloat (2 ^ 53 + 1) = JS.Finite (2 ^ 53)
  /\ JS.parseFloat (2 ^ 53 + 3) = JS.Finite (2 ^ 53 + 4)
  /\ JS.parseFloat (- (2 ^ 53 + 1)) = JS.Finite (- 2 ^ 53)
  /\ JS.parseFloat (2 ^ 1024) = JS.PosInfinity.
Proof. vm_compute. repeat split; reflexivity. Qed.

(** Equal keys keep their order. *)
Example sortBy_is_stable :
  JS.sortBy (fun a b : Z * string => fst a - fst b)
    [(2, "a"); (1, "b"); (2, "c"); (1, "d")]%string
  = [(1, "b"); (1, "d"); (2, "a"); (2, "c")]%string.
Proof. reflexivity. Qed.

Example isValidAddress_cases :
  Transaction.isValidAddress Samples.addr1 = true
  /\ Transaction.isValidAddress "0x12" = false
  /\ Transaction.isValidAddress "1234567890123456789012345678901234567890" = false.
Proof. repeat split; reflexivity. Qed.

Example removeCount_tenth :
  TransactionPool.removeCount (Z.to_nat 10000) = Z.to_nat 1000
  /\ TransactionPool.removeCount 9 = 0%nat.
Proof. vm_compute. split; reflexivity. Qed.

(* ================================================================== *)
(** * Facts about [JSMap] *)
(* ================================================================== *)

Lemma nodup_snoc {A : Type} (l : list A) (x : A) :
  NoDup l -> ~ In x l -> NoDup (l ++ [x]).
Proof.
  intros Hnd Hni.
  apply (Permutation_NoDup (l := x :: l)).
  - apply Permutation_cons_append.
  - now constructor.
Qed.

Section JSMapFacts.
Context {K V : Type} (eqb : K -> K -> bool).
Hypothesis eqb_spec : forall a b, reflect (a = b) (eqb a b).

Local Abbreviation get := (JSMap.get eqb).
Local Abbreviation set := (JSMap.set eqb).
Local Abbreviation delete := (JSMap.delete eqb).
Local Abbreviation keys := (@JSMap.keys K V).
Local Abbreviation values := (@JSMap.values K V).

Lemma jsmap_get_set_same (k : K) (v : V) (m : JSMap.t K V) :
  get k (set k v m) = Some v.
Proof.
  induction m as [|[k' v'] m IH]; simpl.
  - destruct (eqb_spec k k); congruence.
  - destruct (eqb_spec k k') as [->|Hne]; simpl.
    + destruct (eqb_spec k' k'); congruence.
    + destruct (eqb_spec k k'); [contradiction | exact IH].
Qed.

Lemma jsmap_get_set_other (k k' : K) (v : V) (m : JSMap.t K V) :
  k' <> k -> get k' (set k v m) = get k' m.
Proof.
  intros Hne. induction m as [|[k0 v0] m IH]; simpl.
  - destruct (eqb_spec k' k); [contradiction | reflexivity].
  - destruct (eqb_spec k k0) as [->|Hk]; simpl.
    + destruct (eqb_spec k' k0); [contradiction | reflexivity].
    + destruct (eqb_spec k' k0); [reflexivity | exact IH].
Qed.

Lemma jsmap_get_none_notin (k : K) (m : JSMap.t K V) :
  get k m = None <-> ~ In k (keys m).
Proof.
  induction m as [|[k' v'] m IH]; simpl.
  - tauto.
  - destruct (eqb_spec k k') as [->|Hne].
    + split; [discriminate | intros H; exfalso; apply H; now left].
    + rewrite IH. split.
      * intros H [E|E]; [congruence | contradiction].
      * intros H E. apply H. now right.
Qed.

Lemma jsmap_get_some_in (k : K) (v : V) (m : JSMap.t K V) :
  get k m = Some v -> In (k, v) m.
Proof.
  induction m as [|[k' v'] m IH]; simpl; [discriminate|].
  destruct (eqb_spec k k') as [->|Hne].
  - intros [= ->]. now left.
  - intros H. right. now apply IH.
Qed.

Lemma jsmap_in_get (k : K) (v : V) (m : JSMap.t K V) :
  NoDup (keys m) -> In (k, v) m -> get k m = Some v.
Proof.
  induction m as [|[k' v'] m IH]; simpl; [tauto|].
  intros Hnd [E|Hin].
  - inversion E; subst. destruct (eqb_spec k k); congruence.
  - inversion Hnd as [|? ? Hni Hnd']; subst.
    destruct (eqb_spec k k') as [->|Hne].
    + exfalso. apply Hni. change k' with (fst (k', v)). now apply in_map.
    + now apply IH.
Qed.

(** Writing back what a key already holds changes nothing. *)
Lemma jsmap_set_same_value (k : K) (v : V) (m : JSMap.t K V) :
  get k m = Some v -> set k v m = m.
Proof.
  induction m as [|[k' v'] m IH]; simpl; [discriminate|].
  destruct (eqb_spec k k') as [->|Hne].
  - now intros [= ->].
  - intros H. now rewrite IH.
Qed.

Lemma jsmap_set_absent (k : K) (v : V) (m : JSMap.t K V) :
  get k m = None -> set k v m = m ++ [(k, v)].
Proof.
  induction m as [|[k' v'] m IH]; simpl; [reflexivity|].
  destruct (eqb_spec k k') as [->|Hne]; [discriminate|].
  intros H. now rewrite IH.
Qed.

Lemma jsmap_keys_set_present (k : K) (v v0 : V) (m : JSMap.t K V) :
  get k m = Some v0 -> keys (set k v m) = keys m.
Proof.
  induction m as [|[k' v'] m IH]; simpl; [discriminate|].
  destruct (eqb_spec k k') as [->|Hne]; simpl.
  - reflexivity.
  - intros H. now rewrite IH.
Qed.

Lemma jsmap_delete_absent (k : K) (m : JSMap.t K V) :
  ~ In k (keys m) -> delete k m = m.
Proof.
  induction m as [|[k' v'] m IH]; simpl; [reflexivity|].
  intros H. destruct (eqb_spec k k') as [->|Hne].
  - exfalso. apply H. now left.
  - rewrite IH; [reflexivity | tauto].
Qed.

Lemma jsmap_in_delete (k : K) (e : K * V) (m : JSMap.t K V) :
  NoDup (keys m) -> (In e (delete k m) <-> In e m /\ fst e <> k).
Proof.
  induction m as [|[k' v'] m IH]; simpl; [tauto|].
  intros Hnd. inversion Hnd as [|? ? Hni Hnd']; subst.
  destruct (eqb_spec k k') as [->|Hne].
  - split.
    + intros Hin. split; [now right|].
      intros E. apply Hni. rewrite <- E. now apply in_map.
    + intros [[E|Hin] Hk]; [subst e; simpl in Hk; congruence | exact Hin].
  - simpl. rewrite (IH Hnd'). split.
    + intros [E|[Hin Hk]]; [subst e; simpl; split; [now left | congruence] | tauto].
    + intros [[E|Hin] Hk]; [now left | right; tauto].
Qed.

Lemma jsmap_keys_delete_nodup (k : K) (m : JSMap.t K V) :
  NoDup (keys m) -> NoDup (keys (delete k m)).
Proof.
  induction m as [|[k' v'] m IH]; simpl; [constructor|].
  intros Hnd. inversion Hnd as [|? ? Hni Hnd']; subst.
  destruct (eqb_spec k k') as [->|Hne]; [exact Hnd'|].
  simpl. constructor; [|now apply IH].
  intros Hin. apply Hni.
  apply in_map_iff in Hin. destruct Hin as [[k0 v0] [E Hin]]. simpl in E. subst k0.
  apply (jsmap_in_delete k (k', v0) m Hnd') in Hin. destruct Hin as [Hin _].
  change k' with (fst (k', v0)). now apply in_map.
Qed.

Lemma jsmap_length_delete_present (k : K) (m : JSMap.t K V) :
  In k (keys m) -> S (List.length (delete k m)) = List.length m.
Proof.
  induction m as [|[k' v'] m IH]; simpl; [tauto|].
  intros [E|Hin]; destruct (eqb_spec k k') as [->|Hne]; try reflexivity; try congruence.
  simpl. now rewrite IH.
Qed.

Lemma jsmap_keys_set_nodup (k : K) (v : V) (m : JSMap.t K V) :
  NoDup (keys m) -> NoDup (keys (set k v m)).
Proof.
  intros Hnd. destruct (get k m) as [v0|] eqn:E.
  - now rewrite (jsmap_keys_set_present k v v0 m E).
  - rewrite (jsmap_set_absent k v m E). unfold JSMap.keys. rewrite map_app. simpl.
    apply nodup_snoc; [exact Hnd | now apply jsmap_get_none_notin].
Qed.

End JSMapFacts.

(* ================================================================== *)
(** * Facts about the account heap *)
(* ================================================================== *)

Section HeapFacts.
Import StateManager.

Lemma toLowerCase_idempotent (s : string) :
  JS.toLowerCase (JS.toLowerCase s) = JS.toLowerCase s.
Proof.
  induction s as [|c s IH]; simpl; [reflexivity|].
  rewrite IH. f_equal.
  unfold JS.lowerChar.
  destruct ((65 <=? N_of_ascii c) && (N_of_ascii c <=? 90))%N eqn:E.
  - apply andb_true_iff in E. destruct E as [E1 E2].
    apply N.leb_le in E1, E2.
    rewrite N_ascii_embedding by lia.
    replace ((N_of_ascii c + 32 <=? 90)%N) with false
      by (symmetry; apply N.leb_gt; lia).
    now rewrite andb_false_r.
  - now rewrite E.
Qed.

Lemma length_modify (p : Ref) f (h : list AccountState) :
  List.length (modify p f h) = List.length h.
Proof.
  revert p. induction h as [|a h IH]; intros [|p]; simpl; auto.
Qed.

Lemma deref_modify_same (p : Ref) f (h : list AccountState) :
  (p < List.length h)%nat -> deref (modify p f h) p = f (deref h p).
Proof.
  unfold deref. revert p.
  induction h as [|a h IH]; intros [|p]; simpl; intros Hlt; try lia; auto.
  apply IH. lia.
Qed.

Lemma deref_modify_other (p q : Ref) f (h : list AccountState) :
  p <> q -> deref (modify p f h) q = deref h q.
Proof.
  unfold deref. revert p q.
  induction h as [|a h IH]; intros [|p] [|q]; simpl; intros Hne;
    try reflexivity; try congruence.
  apply IH. congruence.
Qed.

Lemma deref_alloc_new (a : AccountState) (h : list AccountState) :
  deref (h ++ [a]) (List.length h) = a.
Proof. unfold deref. rewrite app_nth2, Nat.sub_diag; [reflexivity | lia]. Qed.

Lemma deref_alloc_old (a : AccountState) (h : list AccountState) (p : Ref) :
  (p < List.length h)%nat -> deref (h ++ [a]) p = deref h p.
Proof. intros H. unfold deref. now rewrite app_nth1. Qed.

Lemma values_injective (m : JSMap.t string Ref) (k k' : string) (p : Ref) :
  NoDup (JSMap.values m) -> In (k, p) m -> In (k', p) m -> k = k'.
Proof.
  unfold JSMap.values.
  induction m as [|[k0 p0] m IH]; simpl; [tauto|].
  intros Hnd H1 H2. inversion Hnd as [|? ? Hni Hnd']; subst.
  destruct H1 as [E1|H1], H2 as [E2|H2].
  - congruence.
  - inversion E1; subst. exfalso. apply Hni.
    change p with (snd (k', p)). now apply in_map.
  - inversion E2; subst. exfalso. apply Hni.
    change p with (snd (k, p)). now apply in_map.
  - now apply IH.
Qed.

Lemma wfHM_ref_bound h m k p :
  wfHM h m -> mapGet k m = Some p -> (p < List.length h)%nat.
Proof.
  intros (_ & _ & Hb) Hg.
  apply (jsmap_get_some_in String.eqb String.eqb_spec) in Hg.
  rewrite Forall_forall in Hb. apply Hb.
  change p with (snd (k, p)). now apply in_map.
Qed.

Lemma wfHM_modify h m p f : wfHM h m -> wfHM (modify p f h) m.
Proof.
  intros (H1 & H2 & H3). repeat split; auto. now rewrite length_modify.
Qed.

(** Mutating the object stored under [k] is seen under [k] and nowhere else. *)
Lemma viewHM_modify h m k p f k' :
  wfHM h m -> mapGet k m = Some p ->
  viewHM (modify p f h) m k'
  = if String.eqb k' k then Some (f (deref h p)) else viewHM h m k'.
Proof.
  intros Hwf Hg. unfold viewHM.
  destruct (String.eqb_spec k' k) as [->|Hne].
  - rewrite Hg. f_equal. apply deref_modify_same. eapply wfHM_ref_bound; eauto.
  - destruct (mapGet k' m) as [q|] eqn:Hq; [|reflexivity].
    f_equal. apply deref_modify_other. intros ->.
    apply Hne. destruct Hwf as (_ & Hinj & _).
    apply (values_injective m k' k q Hinj);
      now apply (jsmap_get_some_in String.eqb String.eqb_spec).
Qed.

(** What [this.accounts.get(k) || {...}] followed by [this.accounts.set(k, _)]
    amounts to. *)
Lemma getOrFresh_spec h m k :
  wfHM h m ->
  let '(q, h0) := getOrFresh k h m in
  let m0 := mapSet k q m in
  wfHM h0 m0
  /\ mapGet k m0 = Some q
  /\ (forall k', viewHM h0 m0 k'
                 = if String.eqb k' k then Some (orEmpty (viewHM h m k))
                   else viewHM h m k')
  /\ (forall k' p, mapGet k' m = Some p -> mapGet k' m0 = Some p)
  /\ (forall p, (p < List.length h)%nat -> deref h0 p = deref h p).
Proof.
  intros Hwf. unfold getOrFresh.
  destruct (mapGet k m) as [q|] eqn:Hq.
  - unfold mapSet, mapGet in *.
    rewrite (jsmap_set_same_value String.eqb String.eqb_spec k q m Hq).
    repeat split; try apply Hwf; auto.
    intros k'. unfold viewHM, mapGet.
    destruct (String.eqb_spec k' k) as [->|Hne]; [now rewrite Hq | reflexivity].
  - unfold alloc. cbv zeta. cbv beta iota.
    destruct Hwf as (Hk & Hv & Hb).
    assert (Hset : mapSet k (List.length h) m = m ++ [(k, List.length h)])
      by (apply (jsmap_set_absent String.eqb String.eqb_spec); exact Hq).
    rewrite Hset. repeat split.
    + unfold JSMap.keys. rewrite map_app. simpl. apply nodup_snoc; [exact Hk|].
      now apply (jsmap_get_none_notin String.eqb String.eqb_spec).
    + unfold JSMap.values. rewrite map_app. simpl. apply nodup_snoc; [exact Hv|].
      intros Hin. rewrite Forall_forall in Hb. apply Hb in Hin. lia.
    + unfold JSMap.values. rewrite map_app. simpl. apply Forall_app. split.
      * eapply Forall_impl; [|exact Hb]. intros a Ha. simpl in Ha.
        rewrite length_app. simpl. lia.
      * constructor; [|constructor]. rewrite length_app. simpl. lia.
    + rewrite <- Hset. apply (jsmap_get_set_same String.eqb String.eqb_spec).
    + intros k'. unfold viewHM. rewrite <- Hset.
      destruct (String.eqb_spec k' k) as [->|Hne].
      * rewrite Hq. unfold mapGet, mapSet.
        rewrite (jsmap_get_set_same String.eqb String.eqb_spec).
        simpl. f_equal. apply deref_alloc_new.
      * unfold mapGet, mapSet.
        rewrite (jsmap_get_set_other String.eqb String.eqb_spec) by exact Hne.
        destruct (JSMap.get String.eqb k' m) as [p|] eqn:Hp; [|reflexivity].
        f_equal. apply deref_alloc_old.
        rewrite Forall_forall in Hb. apply Hb.
        apply (jsmap_get_some_in String.eqb String.eqb_spec) in Hp.
        change p with (snd (k', p)). now apply in_map.
    + intros k' p Hp. rewrite <- Hset.
      destruct (String.eqb_spec k' k) as [->|Hne]; [congruence|].
      unfold mapGet, mapSet.
      now rewrite (jsmap_get_set_other String.eqb String.eqb_spec).
    + intros p Hp. now apply deref_alloc_old.
Qed.

End HeapFacts.

(* ================================================================== *)
(** * Facts about [StateManager] *)
(* ================================================================== *)

Section StateManagerFacts.
Import StateManager.

Lemma getAccount_view (address : string) (st : t) :
  getAccount address st = view st (JS.toLowerCase address).
Proof. reflexivity. Qed.

Lemma view_updateStateRoot (st : t) (k : string) :
  view (updateStateRoot st) k = view st k.
Proof. reflexivity. Qed.

(** A transfer that passes its guard. *)
Lemma transfer_success (from to : string) (amount : Z) (st : t) (p : Ref) :
  wf st ->
  mapGet (JS.toLowerCase from) (accounts st) = Some p ->
  amount <= balance (deref (heap st) p) ->
  exists st1,
    transfer from to amount st = (st1, true)
    /\ wf st1
    /\ mapGet (JS.toLowerCase from) (accounts st1) = Some p
    /\ currentStateRoot st1 = stateRootOf (heap st1) (accounts st1)
    /\ forall k',
        view st1 k'
        = if String.eqb k' (JS.toLowerCase to)
          then Some (addBalance amount
                       (if String.eqb (JS.toLowerCase to) (JS.toLowerCase from)
                        then addBalance (- amount) (deref (heap st) p)
                        else orEmpty (view st (JS.toLowerCase to))))
          else if String.eqb k' (JS.toLowerCase from)
          then Some (addBalance (- amount) (deref (heap st) p))
          else view st k'.
Proof.
  intros Hwf Hp Hbal. unfold transfer. rewrite Hp.
  replace (balance (deref (heap st) p) <? amount) with false
    by (symmetry; apply Z.ltb_ge; exact Hbal).
  pose proof (getOrFresh_spec (heap st) (accounts st) (JS.toLowerCase to) Hwf) as Hspec.
  destruct (getOrFresh (JS.toLowerCase to) (heap st) (accounts st)) as [q h0].
  cbv zeta in Hspec. destruct Hspec as (Hwf0 & Hq & Hview0 & Hkeep & Hold).
  assert (Hself : mapSet (JS.toLowerCase from) p (accounts st) = accounts st)
    by (apply (jsmap_set_same_value String.eqb String.eqb_spec); exact Hp).
  rewrite Hself.
  set (m0 := mapSet (JS.toLowerCase to) q (accounts st)) in *.
  assert (Hp0 : mapGet (JS.toLowerCase from) m0 = Some p) by (apply Hkeep; exact Hp).
  set (h1 := modify p (addBalance (- amount)) h0).
  assert (Hwf1 : wfHM h1 m0) by (apply wfHM_modify; exact Hwf0).
  assert (Hderef0 : deref h0 p = deref (heap st) p)
    by (apply Hold; eapply wfHM_ref_bound; eauto).
  eexists. split; [reflexivity|].
  split; [apply wfHM_modify; exact Hwf1|].
  split; [exact Hp0|].
  split; [reflexivity|].
  intros k'. unfold view. simpl.
  rewrite (viewHM_modify h1 m0 (JS.toLowerCase to) q _ k' Hwf1 Hq).
  destruct (String.eqb_spec k' (JS.toLowerCase to)) as [Hk|Hk].
  - f_equal. f_equal.
    assert (Hq1 : viewHM h1 m0 (JS.toLowerCase to) = Some (deref h1 q))
      by (unfold viewHM; now rewrite Hq).
    unfold h1 in Hq1 at 1.
    rewrite (viewHM_modify h0 m0 (JS.toLowerCase from) p _ _ Hwf0 Hp0) in Hq1.
    rewrite Hview0, String.eqb_refl, Hderef0 in Hq1.
    destruct (String.eqb (JS.toLowerCase to) (JS.toLowerCase from)); congruence.
  - unfold h1.
    rewrite (viewHM_modify h0 m0 (JS.toLowerCase from) p _ k' Hwf0 Hp0).
    rewrite Hderef0, Hview0.
    destruct (String.eqb_spec k' (JS.toLowerCase to)); [contradiction|reflexivity].
Qed.

(** A transfer that is refused leaves the state as it was. *)
Lemma transfer_refused (from to : string) (amount : Z) (st st1 : t) :
  transfer from to amount st = (st1, false) -> st1 = st.
Proof.
  unfold transfer.
  destruct (mapGet (JS.toLowerCase from) (accounts st)) as [p|]; [|congruence].
  destruct (balance (deref (heap st) p) <? amount); [congruence|].
  destruct (getOrFresh _ _ _). discriminate.
Qed.

(** The read of [transaction.from] throws on every transaction, so every
    call of [processTransaction] leaves through the [catch]: it returns
    [false] and the state it was given. *)
Lemma processTransactionExit_catch (tx : Transaction.t) (st : t) :
  processTransactionExit tx st = (st, ExitCatch).
Proof. reflexivity. Qed.

Lemma processTransaction_rejects (tx : Transaction.t) (st : t) :
  processTransaction tx st = (st, false).
Proof. reflexivity. Qed.

Lemma getBalance_view (address : string) (st : t) :
  getBalance address st = balance (orEmpty (view st (JS.toLowerCase address))).
Proof.
  unfold getBalance. rewrite getAccount_view.
  destruct (view st (JS.toLowerCase address)); reflexivity.
Qed.

Lemma getNonce_view (address : string) (st : t) :
  getNonce address st = nonce (orEmpty (view st (JS.toLowerCase address))).
Proof.
  unfold getNonce. rewrite getAccount_view.
  destruct (view st (JS.toLowerCase address)); reflexivity.
Qed.

End StateManagerFacts.

(* ================================================================== *)
(** * Applying a transaction *)
(* ================================================================== *)


Section ApplyTransaction.
Import StateManager.

Ltac solve_nodup :=
  repeat (constructor; [simpl; intuition (try discriminate; try lia)|]);
  try constructor.

Lemma wf_genesisState : wf Samples.genesisState.
Proof.
  unfold wf, wfHM. vm_compute. repeat split.
  - solve_nodup.
  - solve_nodup.
  - repeat (constructor; [lia|]). constructor.
Qed.

(** C1.  The claim fails in the code.  Take the state after [initialize]
    and the transfer that [Transaction.createTransfer(addr1, addr2, 5n, 0n)]
    builds: the transaction is valid, the account [addr1] named as its
    sender exists with the nonce 0 of the transaction and holds more than
    value + gasLimit * gasPrice.  The claim has the transfer applied; in the
    code the read of [transaction.from] yields [undefined], the first
    statement of [processTransaction] throws, the [catch] returns [false],
    and no nonce or balance has changed. *)
Theorem processTransaction_rejects_funded_transfer :
  let tx := Samples.payment in
  let st := Samples.genesisState in
  let st' := fst (processTransaction tx st) in
  Transaction.validate tx = true
  /\ getAccount Samples.addr1 st
     = Some {| balance := 1000000000000000000000000000; nonce := 0 |}
  /\ Transaction.nonce tx = 0
  /\ Transaction.value tx + Transaction.gasLimit tx * Transaction.gasPrice tx
     <= 1000000000000000000000000000
  /\ Transaction.from tx = None
  /\ processTransactionExit tx st = (st, ExitCatch)
  /\ snd (processTransaction tx st) = false
  /\ getNonce Samples.addr1 st' = 0
  /\ getBalance Samples.addr1 st' = 1000000000000000000000000000
  /\ getBalance Samples.addr2 st' = 500000000000000000000000000.
Proof.
  vm_compute. repeat split; try reflexivity; discriminate.
Qed.

End ApplyTransaction.

(* ================================================================== *)
(** * Rejected transactions *)
(* ================================================================== *)

Section RejectTransaction.
Import StateManager.


End RejectTransaction.

(* ================================================================== *)
(** * Facts about [sort] *)
(* ================================================================== *)

Section SortFacts.
Context {A : Type} (cmp : A -> A -> Z).

Lemma insertBy_perm (x : A) (l : list A) :
  Permutation (JS.insertBy cmp x l) (x :: l).
Proof.
  induction l as [|y l IH]; simpl; [reflexivity|].
  destruct (0 <? cmp x y); [|reflexivity].
  rewrite IH. apply perm_swap.
Qed.

Lemma sortBy_perm (l : list A) : Permutation (JS.sortBy cmp l) l.
Proof.
  induction l as [|x l IH]; simpl; [reflexivity|].
  rewrite insertBy_perm. now constructor.
Qed.

Lemma sortBy_length (l : list A) : List.length (JS.sortBy cmp l) = List.length l.
Proof. apply Permutation_length, sortBy_perm. Qed.

Lemma sortBy_in (l : list A) (x : A) : In x (JS.sortBy cmp l) <-> In x l.
Proof.
  split; apply Permutation_in; [|symmetry]; apply sortBy_perm.
Qed.

(** A comparator that is consistent: reversing the arguments reverses the
    sign, and "not after" is transitive. *)
Hypothesis cmp_flip : forall x y, 0 < cmp x y -> cmp y x <= 0.
Hypothesis cmp_trans : forall x y z, cmp x y <= 0 -> cmp y z <= 0 -> cmp x z <= 0.

Lemma insertBy_sorted (x : A) (l : list A) :
  StronglySorted (fun x y => cmp x y <= 0) l -> StronglySorted (fun x y => cmp x y <= 0) (JS.insertBy cmp x l).
Proof.
  induction 1 as [|y l Hs IH Hall]; simpl.
  - constructor; constructor.
  - destruct (0 <? cmp x y) eqn:E.
    + apply Z.ltb_lt in E. constructor; [exact IH|].
      rewrite Forall_forall in *. intros z Hz.
      apply (Permutation_in _ (insertBy_perm x l)) in Hz.
      destruct Hz as [<-|Hz]; [now apply cmp_flip | now apply Hall].
    + apply Z.ltb_ge in E. constructor; [now constructor|].
      constructor; [exact E|].
      rewrite Forall_forall in *. intros z Hz.
      apply (cmp_trans x y z); [exact E | now apply Hall].
Qed.

Lemma sortBy_sorted (l : list A) : StronglySorted (fun x y => cmp x y <= 0) (JS.sortBy cmp l).
Proof.
  induction l as [|x l IH]; simpl; [constructor | now apply insertBy_sorted].
Qed.

End SortFacts.



Section CollationFacts.







End CollationFacts.

(* ================================================================== *)
(** * The state root *)
(* ================================================================== *)

Section StateRootFacts.
Import StateManager.









(** ** What every mutation preserves *)

Lemma setBalance_wf (address : string) (b : Z) (st : t) :
  wf st -> wf (setBalance address b st).
Proof.
  intros Hwf. unfold setBalance, wf.
  pose proof (getOrFresh_spec (heap st) (accounts st) (JS.toLowerCase address) Hwf) as H.
  destruct (getOrFresh (JS.toLowerCase address) (heap st) (accounts st)) as [q h0].
  simpl. apply wfHM_modify. apply H.
Qed.

Lemma incrementNonce_wf (address : string) (st : t) :
  wf st -> wf (incrementNonce address st).
Proof.
  intros Hwf. unfold incrementNonce, wf.
  pose proof (getOrFresh_spec (heap st) (accounts st) (JS.toLowerCase address) Hwf) as H.
  destruct (getOrFresh (JS.toLowerCase address) (heap st) (accounts st)) as [q h0].
  simpl. apply wfHM_modify. apply H.
Qed.

Lemma setBalance_fresh (address : string) (b : Z) (st : t) :
  rootFresh (setBalance address b st).
Proof.
  unfold setBalance.
  destruct (getOrFresh (JS.toLowerCase address) (heap st) (accounts st)).
  reflexivity.
Qed.

Lemma incrementNonce_fresh (address : string) (st : t) :
  rootFresh (incrementNonce address st).
Proof.
  unfold incrementNonce.
  destruct (getOrFresh (JS.toLowerCase address) (heap st) (accounts st)).
  reflexivity.
Qed.

Lemma transfer_inv (from to : string) (amount : Z) (st st1 : t) :
  wf st -> transfer from to amount st = (st1, true) ->
  wf st1 /\ rootFresh st1.
Proof.
  intros Hwf Heq.
  assert (exists p, mapGet (JS.toLowerCase from) (accounts st) = Some p
                    /\ amount <= balance (deref (heap st) p)) as (p & Hp & Hb).
  { unfold transfer in Heq.
    destruct (mapGet (JS.toLowerCase from) (accounts st)) as [p|]; [|discriminate].
    destruct (balance (deref (heap st) p) <? amount) eqn:E; [discriminate|].
    exists p. split; [reflexivity|]. now apply Z.ltb_ge in E. }
  destruct (transfer_success from to amount st p Hwf Hp Hb)
    as (st1' & Heq' & Hwf1 & _ & Hroot & _).
  rewrite Heq in Heq'. inversion Heq'; subst. split; assumption.
Qed.

Lemma apply_preserves (m : Mutation) (st : t) :
  wf st ->
  wf (apply m st) /\ (apply m st = st \/ rootFresh (apply m st)).
Proof.
  intros Hwf. destruct m as [a b|a|f d amount|tx]; simpl.
  - split; [now apply setBalance_wf | right; apply setBalance_fresh].
  - split; [now apply incrementNonce_wf | right; apply incrementNonce_fresh].
  - destruct (transfer f d amount st) as [st1 ok] eqn:E. simpl.
    destruct ok.
    + destruct (transfer_inv f d amount st st1 Hwf E). split; auto.
    + apply transfer_refused in E. subst. split; auto.
  - split; auto.
Qed.

Lemma run_preserves (ms : list Mutation) (st : t) :
  wf st -> rootFresh st -> wf (run ms st) /\ rootFresh (run ms st).
Proof.
  revert st. induction ms as [|m ms IH]; intros st Hwf Hfresh; simpl.
  - split; assumption.
  - destruct (apply_preserves m st Hwf) as [Hwf' [E|F]].
    + rewrite E. now apply IH.
    + now apply IH.
Qed.

Lemma fresh_genesisState : rootFresh Samples.genesisState.
Proof. reflexivity. Qed.

(** Every state reached from the genesis state by the mutators satisfies
    the heap invariant. *)
Lemma wf_reachable (ms : list Mutation) : wf (run ms Samples.genesisState).
Proof. apply (run_preserves ms _ wf_genesisState fresh_genesisState). Qed.




End StateRootFacts.

(* ================================================================== *)
(** * Pending nonces *)
(* ================================================================== *)

Section PendingNonce.
Import TransactionPool.

(** C8.  The claim fails in the code.  Take the pool that has admitted two
    transfers: the one that [createTransfer(addr1, addr2, 5n, 0n)] builds,
    with nonce 0, and one to [addr1] with nonce 7.  The claim gives
    [addr1] the pending nonce 0 + 1.  In the code the loop of
    [getTransactionsByAddress] reads [tx.from] of the first pending
    transaction, which is [undefined], and the call of [toLowerCase] throws
    a TypeError that nothing catches: [getPendingNonce] returns no nonce. *)
Theorem getPendingNonce_throws :
  snd (addTransaction Samples.payment create) = true
  /\ JSMap.values (pendingTransactions Samples.poolOfTwo)
     = [Samples.payment; Samples.received]
  /\ Transaction.nonce Samples.payment = 0
  /\ Transaction.from Samples.payment = None
  /\ getTransactionsByAddress Samples.addr1 Samples.poolOfTwo
     = JS.Throws JS.TypeError
  /\ getPendingNonce Samples.addr1 Samples.poolOfTwo = JS.Throws JS.TypeError
  /\ getPendingNonce Samples.addr1 Samples.poolOfTwo <> JS.Returns 1.
Proof. vm_compute. repeat split; try reflexivity; discriminate. Qed.

End PendingNonce.

(* ================================================================== *)
(** * Ledger queries *)
(* ================================================================== *)

Section LedgerQueries.
Import Chain.

(** C9 (as amended). Every reorganization request, for every target hash
    and every chain, logs one warning, returns [false] as an ordinary
    result and leaves the chain as it was; no error is raised. *)
Theorem reorg_returns_false (targetHash : string) (c : t) :
  reorg targetHash c
  = (c,
     [ {| level := Warn;
          message := "Blockchain reorganization requested";
          meta := targetHash |} ],
     JS.Returns false).
Proof. reflexivity. Qed.

(** C9 as the specification states it, at the genesis chain: the request completes
    normally with [false]; it raises no error, NotSupported or other. *)
Lemma reorg_raises_nothing :
  snd (reorg "0xabc" Samples.genesisChain) = JS.Returns false
  /\ snd (reorg "0xabc" Samples.genesisChain)
     <> JS.Throws (JS.NamedError "NotSupported")
  /\ ~ (exists e, snd (reorg "0xabc" Samples.genesisChain) = JS.Throws e).
Proof.
  repeat split; try reflexivity; try discriminate.
  intros [e He]. discriminate.
Qed.

(** C10, at a chain that has accepted one block holding a contract
    creation: asking for the transactions of an address raises a TypeError.
    The scan calls [toLowerCase] on [tx.from], which is [undefined], and it
    calls it on [tx.to] without a guard, which is [null] for a contract
    creation.  The pool's method of the same name guards the recipient and
    throws on the same transaction all the same, at [tx.from]. *)
Theorem getTransactionsByAddress_throws :
  snd (addBlock Samples.calculateHash Samples.blockOne Samples.genesisChain) = true
  /\ Transaction.validate Samples.deployment = true
  /\ Transaction.to Samples.deployment = None
  /\ getTransactionsByAddress Samples.addr2 defaultLimit Samples.chainOfOne
     = JS.Throws JS.TypeError
  /\ JS.callToLowerCase (Transaction.from Samples.deployment)
     = JS.Throws JS.TypeError
  /\ JS.callToLowerCase (Transaction.to Samples.deployment)
     = JS.Throws JS.TypeError
  /\ TransactionPool.getTransactionsByAddress Samples.addr2
       (fst (TransactionPool.addTransaction Samples.deployment
               TransactionPool.create))
     = JS.Throws JS.TypeError.
Proof. vm_compute. repeat split; reflexivity. Qed.

End LedgerQueries.

(* ================================================================== *)
(** * Consensus rounds *)
(* ================================================================== *)

Section ConsensusRounds.
Import PoSAConsensus.

Lemma last_pushHistory (x d : Round.t) (h : list Round.t) :
  last (pushHistory x h) d = x.
Proof.
  unfold pushHistory.
  destruct (100 <? List.length (h ++ [x]))%nat eqn:E.
  - destruct h as [|a h]; simpl; [discriminate|]. apply last_last.
  - apply last_last.
Qed.

Lemma finalizeRound_open (st : Status) (now : Z) (c : t) (r : Round.t) :
  currentRound c = Some r ->
  currentRound (finalizeRound st now c) = None
  /\ consensusHistory (finalizeRound st now c)
     = pushHistory (settle st now r) (consensusHistory c)
  /\ emitted (finalizeRound st now c)
     = emitted c ++ [consensusReached (settle st now r) (statusEqb st approved)].
Proof.
  intros Hr. unfold finalizeRound. rewrite Hr. repeat split; reflexivity.
Qed.

(** C2. After every accepted vote (a round is open, the vote is for its
    block, the validator has not voted in it, the signature passes) the
    tally over the votes including the new one decides: with A approvals,
    R rejections, quorum Q and N validators, if A >= Q the round is archived
    as approved; else if R >= Q as rejected; else if all N have voted, as
    approved when A > R and as rejected otherwise; else the round stays
    open with the vote recorded.  An archived round leaves no round open
    and is announced by [consensusReached]. *)
Theorem handleValidatorVote_tally (c : t) (r : Round.t) (v : Vote.t) (now : Z) :
  currentRound c = Some r ->
  Vote.blockHash v = Round.blockHash r ->
  alreadyVoted v r = false ->
  validateVoteSignature v = true ->
  let r1 := pushVote v r in
  let c' := handleValidatorVote v now c in
  match specTally (approvalVotes (Round.votes r1)) (rejectionVotes (Round.votes r1))
          (requiredVotes (config c)) (validatorCount (config c))
          (totalVotes (Round.votes r1)) with
  | Some st =>
      currentRound c' = None
      /\ last (consensusHistory c') r = settle st now r1
      /\ consensusHistory c' = pushHistory (settle st now r1) (consensusHistory c)
      /\ emitted c'
         = emitted c ++ [voteReceived v;
                         consensusReached (settle st now r1) (statusEqb st approved)]
  | None =>
      currentRound c' = Some r1
      /\ consensusHistory c' = consensusHistory c
      /\ emitted c' = emitted c ++ [voteReceived v]
  end.
Proof.
  intros Hr Hh Hdup Hsig r1 c'.
  unfold c', handleValidatorVote. rewrite Hr, Hh, String.eqb_refl, Hdup, Hsig.
  simpl negb. cbv iota.
  set (c2 := emit (voteReceived v) (withRound (Some (pushVote v r)) c)).
  assert (Hopen : forall st,
             currentRound (finalizeRound st now c2) = None
             /\ last (consensusHistory (finalizeRound st now c2)) r = settle st now r1
             /\ consensusHistory (finalizeRound st now c2)
                = pushHistory (settle st now r1) (consensusHistory c)
             /\ emitted (finalizeRound st now c2)
                = emitted c ++ [voteReceived v;
                     consensusReached (settle st now r1) (statusEqb st approved)]).
  { intros st.
    destruct (finalizeRound_open st now c2 r1 eq_refl) as (H1 & H2 & H3).
    rewrite H1, H2, H3, last_pushHistory. unfold c2. simpl emitted.
    rewrite <- app_assoc. repeat split; reflexivity. }
  unfold checkConsensusStatus, specTally.
  change (currentRound c2) with (Some r1). change (config c2) with (config c).
  cbv iota. cbv zeta.
  destruct (requiredVotes (config c) <=? approvalVotes (Round.votes r1));
    [apply Hopen|].
  destruct (requiredVotes (config c) <=? rejectionVotes (Round.votes r1));
    [apply Hopen|].
  destruct (validatorCount (config c) <=? totalVotes (Round.votes r1)).
  - destruct (rejectionVotes (Round.votes r1) <? approvalVotes (Round.votes r1));
      apply Hopen.
  - repeat split; reflexivity.
Qed.

(** The theorem for six validators and a quorum of four: a round holding
    three approvals receives a fourth and is archived as approved. *)
Lemma handleValidatorVote_tally_witness :
  let v := Samples.ballot "b1" "stable" approve 400 in
  let c' := handleValidatorVote v 400 Samples.threeApprovals in
  requiredVotes (config Samples.threeApprovals) = 4
  /\ validatorCount (config Samples.threeApprovals) = 6
  /\ currentRound c' = None
  /\ map Round.status (consensusHistory c') = [approved]
  /\ map (fun r => approvalVotes (Round.votes r)) (consensusHistory c') = [4].
Proof.
  intros v c'.
  destruct (currentRound Samples.threeApprovals) as [r|] eqn:Hr;
    [|vm_compute in Hr; discriminate].
  pose proof (handleValidatorVote_tally Samples.threeApprovals r v 400 Hr) as H.
  vm_compute in Hr. inversion Hr as [Hr']. rewrite <- Hr' in H.
  specialize (H eq_refl eq_refl eq_refl).
  vm_compute in H. destruct H as (H1 & _ & H3 & _).
  repeat split; try reflexivity.
Defined.

(** Three approvals and three rejections: all six have voted, neither side
    has the quorum, and the tie falls to rejection. *)
Example tie_is_rejected :
  specTally 3 3 4 6 6 = Some rejected
  /\ map Round.status
       (consensusHistory
          (runActions
             [ Cast (Samples.ballot "b1" "stable" reject 400) 400;
               Cast (Samples.ballot "b1" "perplex" reject 500) 500;
               Cast (Samples.ballot "b1" "cohere" reject 600) 600 ]
             Samples.threeApprovals))
     = [rejected].
Proof. split; reflexivity. Qed.

(** ** Timeouts *)

(** Archiving a round leaves every registered timer in place. *)
Lemma finalizeRound_keeps_timers (st : Status) (now : Z) (c : t) :
  timers (finalizeRound st now c) = timers c.
Proof. unfold finalizeRound. destruct (currentRound c); reflexivity. Qed.

Lemma handleValidatorVote_keeps_timers (v : Vote.t) (now : Z) (c : t) :
  timers (handleValidatorVote v now c) = timers c.
Proof.
  unfold handleValidatorVote.
  destruct (currentRound c) as [r|]; [|reflexivity].
  destruct (negb _); [reflexivity|].
  destruct (alreadyVoted v r); [reflexivity|].
  destruct (negb _); [reflexivity|].
  unfold checkConsensusStatus. simpl currentRound. cbv iota. cbv zeta.
  repeat match goal with
         | |- context [if ?b then _ else _] => destruct b
         end; try apply finalizeRound_keeps_timers; reflexivity.
Qed.

(** A timeout on an open round archives it as rejected. *)
Lemma handleRoundTimeout_rejects (c : t) (r : Round.t) (now : Z) :
  currentRound c = Some r ->
  Round.status r = pending ->
  currentRound (handleRoundTimeout now c) = None
  /\ last (consensusHistory (handleRoundTimeout now c)) r = settle rejected now r
  /\ emitted (handleRoundTimeout now c)
     = emitted c ++ [consensusReached (settle rejected now r) false].
Proof.
  intros Hr Hs. unfold handleRoundTimeout. rewrite Hr, Hs. simpl negb. cbv iota.
  destruct (finalizeRound_open rejected now c r Hr) as (H1 & H2 & H3).
  rewrite H1, H2, H3, last_pushHistory. repeat split; reflexivity.
Qed.

(** A timer that comes due closes whatever round is open at that moment,
    whichever proposal registered it. *)
Lemma fireTimer_closes_open_round (c : t) (i : nat) (tm : Timer) (r : Round.t)
  (now : Z) :
  nth_error (timers c) i = Some tm ->
  currentRound c = Some r ->
  Round.status r = pending ->
  currentRound (fireTimer i now c) = None
  /\ last (consensusHistory (fireTimer i now c)) r = settle rejected now r.
Proof.
  intros Ht Hr Hs. unfold fireTimer. rewrite Ht.
  destruct (handleRoundTimeout_rejects
              {| currentRound := currentRound c;
                 consensusHistory := consensusHistory c;
                 config := config c;
                 isActive := isActive c;
                 timers := removeNth i (timers c);
                 emitted := emitted c |} r now Hr Hs) as (H1 & H2 & _).
  split; assumption.
Qed.

(** ** The status [timeout] is never recorded *)

Lemma pushHistory_decided (x : Round.t) (h : list Round.t) :
  decided x -> Forall decided h -> Forall decided (pushHistory x h).
Proof.
  intros Hx Hh. unfold pushHistory.
  assert (F : Forall decided (h ++ [x]))
    by (apply Forall_app; split; [exact Hh | now constructor]).
  destruct (100 <? List.length (h ++ [x]))%nat; [|exact F].
  destruct (h ++ [x]); [constructor|]. now inversion F.
Qed.

Lemma finalizeRound_decided (st : Status) (now : Z) (c : t) :
  st = approved \/ st = rejected ->
  Forall decided (consensusHistory c) ->
  Forall decided (consensusHistory (finalizeRound st now c)).
Proof.
  intros Hst Hh. unfold finalizeRound.
  destruct (currentRound c) as [r|]; [|exact Hh].
  simpl. apply pushHistory_decided; [exact Hst | exact Hh].
Qed.

Lemma handleValidatorVote_decided (v : Vote.t) (now : Z) (c : t) :
  Forall decided (consensusHistory c) ->
  Forall decided (consensusHistory (handleValidatorVote v now c)).
Proof.
  intros Hh. unfold handleValidatorVote.
  destruct (currentRound c) as [r|]; [|exact Hh].
  destruct (negb _); [exact Hh|].
  destruct (alreadyVoted v r); [exact Hh|].
  destruct (negb _); [exact Hh|].
  unfold checkConsensusStatus. simpl currentRound. cbv iota. cbv zeta.
  repeat match goal with
         | |- context [if ?b then _ else _] => destruct b
         end;
    try (apply finalizeRound_decided; [auto | exact Hh]); exact Hh.
Qed.

Lemma handleRoundTimeout_decided (now : Z) (c : t) :
  Forall decided (consensusHistory c) ->
  Forall decided (consensusHistory (handleRoundTimeout now c)).
Proof.
  intros Hh. unfold handleRoundTimeout.
  destruct (currentRound c) as [r|]; [|exact Hh].
  destruct (negb _); [exact Hh|].
  apply finalizeRound_decided; [now right | exact Hh].
Qed.

Lemma act_decided (a : Action) (c : t) :
  Forall decided (consensusHistory c) ->
  Forall decided (consensusHistory (act a c)).
Proof.
  intros Hh. destruct a as [block proposer now incoming|v now|i now|now]; simpl.
  - unfold proposeBlock.
    destruct (negb (isActive c)); [exact Hh|].
    destruct (currentRound c); [exact Hh|]. simpl.
    match goal with
    | |- context [fold_left ?f incoming ?c0] =>
        assert (F : Forall decided (consensusHistory c0)) by exact Hh;
        generalize dependent c0
    end.
    induction incoming as [|vt incoming IH]; intros c0 F; simpl; [exact F|].
    apply IH. now apply handleValidatorVote_decided.
  - now apply handleValidatorVote_decided.
  - unfold fireTimer. destruct (nth_error (timers c) i); [|exact Hh].
    now apply handleRoundTimeout_decided.
  - unfold stop. simpl. destruct (currentRound c); [|exact Hh].
    now apply handleRoundTimeout_decided.
Qed.

Lemma history_decided (l : list Action) (cfg : PoSAConfig) :
  Forall decided (consensusHistory (runActions l (create cfg))).
Proof.
  unfold runActions.
  assert (G : forall c, Forall decided (consensusHistory c) ->
              Forall decided (consensusHistory (fold_left (fun acc a => act a acc) l c))).
  { induction l as [|a l IH]; intros c Hc; simpl; [exact Hc|].
    apply IH. now apply act_decided. }
  apply G. constructor.
Qed.

(** Whatever happens to a coordinator, the count of timed-out rounds that
    [getConsensusStats] reports on is zero. *)
Lemma timeoutRounds_zero (l : list Action) (cfg : PoSAConfig) :
  timeoutRounds (runActions l (create cfg)) = 0%nat.
Proof.
  unfold timeoutRounds.
  pose proof (history_decided l cfg) as H.
  set (h := consensusHistory (runActions l (create cfg))) in *.
  assert (F : Forall decided (skipn (List.length h - 50) h)).
  { rewrite Forall_forall in *. intros x Hx. apply H.
    rewrite <- (firstn_skipn (List.length h - 50) h). apply in_or_app. now right. }
  induction (skipn (List.length h - 50) h) as [|x s IH]; [reflexivity|].
  inversion F as [|? ? Hx Hs]; subst. simpl.
  destruct Hx as [E|E]; rewrite E; simpl; now apply IH.
Qed.

(** C3, at a round with one vote out of a quorum of four when its timer
    comes due: the round is archived with status [rejected], not [timeout],
    and the statistics count no timed-out round. *)
Theorem timeout_records_rejected :
  let c' := fireTimer 0 30000 Samples.oneVote in
  option_map Round.status (currentRound Samples.oneVote) = Some pending
  /\ option_map (fun r => totalVotes (Round.votes r)) (currentRound Samples.oneVote)
     = Some 1
  /\ requiredVotes (config Samples.oneVote) = 4
  /\ currentRound c' = None
  /\ map Round.status (consensusHistory c') = [rejected]
  /\ map Round.status (consensusHistory c') <> [timeout]
  /\ timeoutRounds c' = 0%nat.
Proof. vm_compute. repeat split; try reflexivity; discriminate. Qed.

(** C4, at a coordinator whose first round was approved after 400 ms and
    whose second round was opened at 10000 ms: the timer registered for the
    first round is still pending, and when it comes due at 30000 ms it closes
    the second round, ten seconds before that round's own timer. *)
Theorem stale_timer_closes_later_round :
  let c := Samples.secondRound in
  let c' := fireTimer 0 30000 c in
  map armedFor (timers c) = ["b1"; "b2"]%string
  /\ map Round.blockHash (consensusHistory c) = ["b1"]%string
  /\ map Round.status (consensusHistory c) = [approved]
  /\ option_map Round.blockHash (currentRound c) = Some "b2"%string
  /\ option_map Round.startTime (currentRound c) = Some 10000
  /\ roundTimeout (config c) = 30000
  /\ currentRound c' = None
  /\ map Round.blockHash (consensusHistory c') = ["b1"; "b2"]%string
  /\ map Round.status (consensusHistory c') = [approved; rejected]
  /\ map Round.finalizedAt (consensusHistory c') = [Some 400; Some 30000]
  /\ map armedFor (timers c') = ["b2"]%string.
Proof. vm_compute. repeat split; reflexivity. Qed.

End ConsensusRounds.

(* ================================================================== *)
(** * Stability of [sort], and deleting a batch of keys *)
(* ================================================================== *)

Section StableSort.
Context {A : Type} (cmp : A -> A -> Z).

Lemma before_cons (a b x : A) (l : list A) :
  JS.Before a b l -> JS.Before a b (x :: l).
Proof.
  intros (l1 & l2 & l3 & ->). now exists (x :: l1), l2, l3.
Qed.

Lemma before_head (a b : A) (l : list A) : In b l -> JS.Before a b (a :: l).
Proof.
  intros Hin. apply in_split in Hin. destruct Hin as (l2 & l3 & ->).
  now exists [], l2, l3.
Qed.

Lemma before_inv (a b x : A) (l : list A) :
  JS.Before a b (x :: l) -> (a = x /\ In b l) \/ JS.Before a b l.
Proof.
  intros (l1 & l2 & l3 & E). destruct l1 as [|y l1]; simpl in E.
  - inversion E; subst. left. split; [reflexivity|].
    apply in_or_app. right. now left.
  - inversion E; subst. right. now exists l1, l2, l3.
Qed.

Lemma before_in (a b : A) (l : list A) : JS.Before a b l -> In a l /\ In b l.
Proof.
  intros (l1 & l2 & l3 & ->). split.
  - apply in_or_app. right. now left.
  - apply in_or_app. right. right. apply in_or_app. right. now left.
Qed.

Lemma insertBy_keeps_before (x a b : A) (l : list A) :
  JS.Before a b l -> JS.Before a b (JS.insertBy cmp x l).
Proof.
  induction l as [|y l IH]; intros H.
  - destruct H as (l1 & l2 & l3 & E). destruct l1; discriminate.
  - simpl. destruct (0 <? cmp x y).
    + apply before_inv in H. destruct H as [[-> Hb]|H].
      * apply before_head. apply (Permutation_in _ (Permutation_sym (insertBy_perm cmp x l))).
        now right.
      * apply before_cons. now apply IH.
    + now apply before_cons.
Qed.

Lemma insertBy_before_later (x b : A) (l : list A) :
  In b l -> cmp x b <= 0 -> JS.Before x b (JS.insertBy cmp x l).
Proof.
  induction l as [|y l IH]; intros Hin Hle; [contradiction|].
  simpl. destruct (0 <? cmp x y) eqn:E.
  - destruct Hin as [->|Hin].
    + apply Z.ltb_lt in E. lia.
    + apply before_cons. now apply IH.
  - now apply before_head.
Qed.

(** [sort] is stable: an element that stands before another and does not
    compare as greater still stands before it afterwards. *)
Lemma sortBy_stable (a b : A) (l : list A) :
  JS.Before a b l -> cmp a b <= 0 -> JS.Before a b (JS.sortBy cmp l).
Proof.
  induction l as [|x l IH]; intros H Hle.
  - destruct H as (l1 & l2 & l3 & E). destruct l1; discriminate.
  - simpl. apply before_inv in H. destruct H as [[-> Hb]|H].
    + apply insertBy_before_later; [|exact Hle]. now apply sortBy_in.
    + apply insertBy_keeps_before. now apply IH.
Qed.

Lemma in_firstn_in (x : A) (n : nat) (l : list A) :
  In x (firstn n l) -> In x l.
Proof.
  intros H. rewrite <- (firstn_skipn n l). apply in_or_app. now left.
Qed.

Lemma before_firstn (a b : A) (l : list A) (n : nat) :
  NoDup l -> JS.Before a b l -> In b (firstn n l) -> In a (firstn n l).
Proof.
  intros Hnd (l1 & l2 & l3 & ->) Hb.
  assert (E : l1 ++ a :: l2 ++ b :: l3 = (l1 ++ a :: l2) ++ b :: l3)
    by (rewrite <- app_assoc; reflexivity).
  rewrite E in *. clear E.
  set (L := l1 ++ a :: l2) in *.
  rewrite firstn_app in *.
  destruct (Nat.le_gt_cases n (List.length L)) as [Hle|Hgt].
  - exfalso.
    replace (n - List.length L)%nat with 0%nat in Hb by lia.
    simpl in Hb. rewrite app_nil_r in Hb.
    apply NoDup_remove_2 in Hnd. apply Hnd.
    apply in_or_app. left. now apply (in_firstn_in b n L).
  - rewrite firstn_all2 by lia.
    apply in_or_app. left. unfold L. apply in_or_app. right. now left.
Qed.

End StableSort.

Lemma sorted_app_le {A : Type} (R : A -> A -> Prop) (l1 l2 : list A) :
  StronglySorted R (l1 ++ l2) ->
  forall a b, In a l1 -> In b l2 -> R a b.
Proof.
  induction l1 as [|x l1 IH]; simpl; intros Hs a b Ha Hb; [contradiction|].
  inversion Hs as [|? ? Hs' Hall]; subst.
  destruct Ha as [->|Ha].
  - rewrite Forall_forall in Hall. apply Hall. apply in_or_app. now right.
  - now apply IH.
Qed.

Lemma nodup_firstn {A : Type} (n : nat) (l : list A) :
  NoDup l -> NoDup (firstn n l).
Proof.
  intros H. rewrite <- (firstn_skipn n l) in H. now apply NoDup_app_remove_r in H.
Qed.

Section DeleteBatch.
Context {K V : Type} (eqb : K -> K -> bool).
Hypothesis eqb_spec : forall a b, reflect (a = b) (eqb a b).

Local Abbreviation deleteBatch :=
  (fold_left (fun (m : JSMap.t K V) (e : K * V) => JSMap.delete eqb (fst e) m)).

Lemma in_keys_delete (k k0 : K) (m : JSMap.t K V) :
  NoDup (JSMap.keys m) ->
  (In k (JSMap.keys (JSMap.delete eqb k0 m)) <-> In k (JSMap.keys m) /\ k <> k0).
Proof.
  intros Hnd. unfold JSMap.keys. rewrite !in_map_iff. split.
  - intros ([k' v] & E & Hin). simpl in E. subst k'.
    apply (jsmap_in_delete eqb eqb_spec k0 (k, v) m Hnd) in Hin.
    destruct Hin as [Hin Hne]. split; [|exact Hne]. now exists (k, v).
  - intros (([k' v] & E & Hin) & Hne). simpl in E. subst k'.
    exists (k, v). split; [reflexivity|].
    now apply (jsmap_in_delete eqb eqb_spec k0 (k, v) m Hnd).
Qed.

Lemma deleteBatch_nodup (batch : list (K * V)) (m : JSMap.t K V) :
  NoDup (JSMap.keys m) -> NoDup (JSMap.keys (deleteBatch batch m)).
Proof.
  revert m. induction batch as [|e batch IH]; intros m Hnd; simpl; [exact Hnd|].
  apply IH. now apply (jsmap_keys_delete_nodup eqb eqb_spec).
Qed.

Lemma in_deleteBatch (batch : list (K * V)) (m : JSMap.t K V) (e : K * V) :
  NoDup (JSMap.keys m) ->
  (In e (deleteBatch batch m) <-> In e m /\ ~ In (fst e) (map fst batch)).
Proof.
  revert m. induction batch as [|e0 batch IH]; intros m Hnd; simpl.
  - tauto.
  - rewrite IH by now apply (jsmap_keys_delete_nodup eqb eqb_spec).
    rewrite (jsmap_in_delete eqb eqb_spec (fst e0) e m Hnd).
    split.
    + intros [[H1 H2] H3]. split; [exact H1|]. intros [E|H]; [congruence | contradiction].
    + intros [H1 H2]. repeat split; auto.
Qed.

Lemma length_deleteBatch (batch : list (K * V)) (m : JSMap.t K V) :
  NoDup (JSMap.keys m) ->
  NoDup (map fst batch) ->
  (forall k, In k (map fst batch) -> In k (JSMap.keys m)) ->
  (List.length (deleteBatch batch m) + List.length batch = List.length m)%nat.
Proof.
  revert m. induction batch as [|e0 batch IH]; intros m Hnd Hb Hincl; simpl.
  - lia.
  - inversion Hb as [|? ? Hni Hb']; subst.
    rewrite <- (jsmap_length_delete_present eqb eqb_spec (fst e0) m)
      by (apply Hincl; now left).
    rewrite <- (IH (JSMap.delete eqb (fst e0) m)).
    + lia.
    + now apply (jsmap_keys_delete_nodup eqb eqb_spec).
    + exact Hb'.
    + intros k Hk. apply in_keys_delete; [exact Hnd|]. split.
      * apply Hincl. now right.
      * intros ->. contradiction.
Qed.

End DeleteBatch.

Section FeeOrder.

Lemma subSign_flip (a b : JS.Number) : 0 < JS.subSign a b -> JS.subSign b a <= 0.
Proof.
  destruct a as [x| |], b as [y| |]; simpl; lia.
Qed.

Lemma subSign_le_finite (x y : Z) : JS.subSign (JS.Finite x) (JS.Finite y) <= 0 <-> x <= y.
Proof.
  simpl. destruct (Z.sgn_spec (x - y)) as [[? ->]|[[? ->]|[? ->]]]; lia.
Qed.

Lemma subSign_trans (a b c : JS.Number) :
  JS.subSign a b <= 0 -> JS.subSign b c <= 0 -> JS.subSign a c <= 0.
Proof.
  destruct a as [x| |], b as [y| |], c as [z| |];
    rewrite ?subSign_le_finite; simpl; lia.
Qed.

Lemma feeCompare_flip (a b : string * Transaction.t) :
  0 < TransactionPool.feeCompare a b -> TransactionPool.feeCompare b a <= 0.
Proof. apply subSign_flip. Qed.

Lemma feeCompare_trans (a b c : string * Transaction.t) :
  TransactionPool.feeCompare a b <= 0 -> TransactionPool.feeCompare b c <= 0 ->
  TransactionPool.feeCompare a c <= 0.
Proof. apply subSign_trans. Qed.

End FeeOrder.

(* ================================================================== *)
(** * Admission at capacity *)
(* ================================================================== *)

Section PoolAdmission.
Import TransactionPool.

Lemma mapHas_false_iff (h : string) (m : JSMap.t string Transaction.t) :
  mapHas h m = false <-> ~ In h (JSMap.keys m).
Proof.
  unfold mapHas, JSMap.has.
  rewrite <- (jsmap_get_none_notin String.eqb String.eqb_spec).
  destruct (JSMap.get String.eqb h m); split; congruence.
Qed.

Lemma mapHas_true_iff (h : string) (m : JSMap.t string Transaction.t) :
  mapHas h m = true <-> In h (JSMap.keys m).
Proof.
  destruct (mapHas h m) eqn:E.
  - split; [intros _|reflexivity].
    destruct (in_dec string_dec h (JSMap.keys m)) as [H|H]; [exact H|].
    apply mapHas_false_iff in H. congruence.
  - apply mapHas_false_iff in E. split; [discriminate | contradiction].
Qed.

Lemma evict_spec (p : t) :
  NoDup (JSMap.keys (pendingTransactions p)) ->
  let m := pendingTransactions p in
  let s := JS.sortBy feeCompare m in
  let c := removeCount (List.length m) in
  let m' := pendingTransactions (evictLowestFeeTransactions p) in
  NoDup (JSMap.keys m')
  /\ (List.length m' + c = List.length m)%nat
  /\ (forall e, In e m' <-> In e (skipn c s))
  /\ (forall e, In e m -> ~ In e m' -> In e (firstn c s))
  /\ (forall e, In e (firstn c s) -> ~ In e m')
  /\ NoDup s.
Proof.
  intros Hnd m s c m'.
  assert (Hperm : Permutation s m) by apply sortBy_perm.
  assert (Hnds : NoDup (JSMap.keys s)).
  { apply (Permutation_NoDup (l := JSMap.keys m)); [|exact Hnd].
    unfold JSMap.keys. apply Permutation_map. now symmetry. }
  assert (Hnde : NoDup s).
  { unfold JSMap.keys in Hnds. now apply NoDup_map_inv in Hnds. }
  assert (Hm' : m' = fold_left (fun m0 e => JSMap.delete String.eqb (fst e) m0)
                        (firstn c s) m)
    by reflexivity.
  assert (Hc : (c <= List.length s)%nat).
  { unfold c, removeCount. rewrite (Permutation_length Hperm).
    apply Nat.Div0.div_le_upper_bound. lia. }
  assert (Hsplit : s = firstn c s ++ skipn c s) by (symmetry; apply firstn_skipn).
  assert (Hkf : NoDup (map fst (firstn c s))).
  { rewrite <- firstn_map. apply nodup_firstn. exact Hnds. }
  assert (Hin_m' : forall e, In e m' <-> In e m /\ ~ In (fst e) (map fst (firstn c s))).
  { intros e. rewrite Hm'.
    apply (in_deleteBatch String.eqb String.eqb_spec). exact Hnd. }
  assert (Hdisj : forall e, In e (skipn c s) -> ~ In (fst e) (map fst (firstn c s))).
  { intros e He Hk. rewrite Hsplit in Hnds. unfold JSMap.keys in Hnds.
    rewrite map_app in Hnds.
    apply in_split in Hk. destruct Hk as (k1 & k2 & Ek). rewrite Ek in Hnds.
    rewrite <- app_assoc in Hnds. simpl in Hnds.
    apply NoDup_remove_2 in Hnds. apply Hnds.
    apply in_or_app. right. apply in_or_app. right. now apply in_map. }
  split; [|split; [|split; [|split; [|split]]]]; [| | | | |exact Hnde].
  - rewrite Hm'. apply (deleteBatch_nodup String.eqb String.eqb_spec). exact Hnd.
  - rewrite Hm'.
    rewrite <- (length_deleteBatch String.eqb String.eqb_spec (firstn c s) m Hnd Hkf).
    + rewrite length_firstn. lia.
    + intros k Hk. apply in_map_iff in Hk. destruct Hk as (e & <- & He).
      apply in_map. apply (Permutation_in _ Hperm). now apply (in_firstn_in e c s).
  - intros e. rewrite Hin_m'. split.
    + intros [Hm Hk].
      apply (Permutation_in _ (Permutation_sym Hperm)) in Hm.
      rewrite Hsplit in Hm. apply in_app_or in Hm. destruct Hm as [Hf|Hs]; [|exact Hs].
      exfalso. apply Hk. now apply in_map.
    + intros He. split.
      * apply (Permutation_in _ Hperm). rewrite Hsplit. apply in_or_app. now right.
      * now apply Hdisj.
  - intros e Hm Hnot.
    apply (Permutation_in _ (Permutation_sym Hperm)) in Hm.
    rewrite Hsplit in Hm. apply in_app_or in Hm. destruct Hm as [Hf|Hs]; [exact Hf|].
    exfalso. apply Hnot. apply Hin_m'. split.
    + apply (Permutation_in _ Hperm). rewrite Hsplit. apply in_or_app. now right.
    + now apply Hdisj.
  - intros e Hf Hm. apply Hin_m' in Hm. destruct Hm as [_ Hk]. apply Hk.
    now apply in_map.
Qed.

Lemma subSign_refl (a : JS.Number) : JS.subSign a a = 0.
Proof. destruct a as [x| |]; simpl; [|reflexivity|reflexivity]. now rewrite Z.sub_diag. Qed.

Lemma same_key_same_entry (m : JSMap.t string Transaction.t)
  (e e' : string * Transaction.t) :
  NoDup (JSMap.keys m) -> In e m -> In e' m -> fst e = fst e' -> e = e'.
Proof.
  intros Hnd He He' Hk. destruct e as [k v], e' as [k' v']. simpl in Hk. subst k'.
  apply (jsmap_in_get String.eqb String.eqb_spec _ _ _ Hnd) in He, He'.
  congruence.
Qed.

(** C6 (as amended). When the pool holds at least [MAX_POOL_SIZE] entries,
    admitting a valid transaction that is not yet pending evicts the tenth
    part (rounded down) of the current entries and then admits the new
    transaction, so that a pool at capacity ends with at most
    [MAX_POOL_SIZE] entries.  The evicted entries are lowest in gas price as
    the comparator reads it (in double precision): none of them is dearer
    than an entry that stays.  Ties are broken by the order of admission,
    not by the transaction hash: of two entries of equal price, the one
    admitted earlier is evicted whenever the later one is. *)
Theorem addTransaction_at_capacity (tx : Transaction.t) (p : t) :
  NoDup (JSMap.keys (pendingTransactions p)) ->
  Transaction.validate tx = true ->
  hasTransaction (Transaction.hash tx) p = false ->
  MAX_POOL_SIZE <= Z.of_nat (getSize p) ->
  exists p',
    addTransaction tx p = (p', true)
    /\ getTransaction (Transaction.hash tx) p' = Some tx
    /\ getSize p' = (getSize p - getSize p / 10 + 1)%nat
    /\ (Z.of_nat (getSize p) = MAX_POOL_SIZE ->
        Z.of_nat (getSize p') <= MAX_POOL_SIZE)
    /\ (forall e k, evicted e p p' -> kept k p p' ->
                    JS.leNumber (entryPrice e) (entryPrice k))
    /\ (forall e k,
          JS.Before e k (JSMap.entries (pendingTransactions p)) ->
          entryPrice e = entryPrice k ->
          evicted k p p' -> evicted e p p').
Proof.
  intros Hnd Hval Hhas Hfull.
  unfold addTransaction. rewrite Hval. simpl negb. cbv iota.
  unfold hasTransaction in Hhas. rewrite Hhas.
  replace (MAX_POOL_SIZE <=? Z.of_nat (JSMap.size (pendingTransactions p))) with true
    by (symmetry; apply Z.leb_le; exact Hfull).
  destruct (evict_spec p Hnd) as (Hnd' & Hlen & Hkept & Hgone & Hfirst & Hnds).
  set (m := pendingTransactions p) in *.
  set (s := JS.sortBy feeCompare m) in *.
  set (c := removeCount (List.length m)) in *.
  set (m' := pendingTransactions (evictLowestFeeTransactions p)) in *.
  assert (Hperm : Permutation s m) by apply sortBy_perm.
  assert (Hsub : forall e, In e m' -> In e m).
  { intros e He. apply Hkept in He. apply (Permutation_in _ Hperm).
    rewrite <- (firstn_skipn c s). apply in_or_app. now right. }
  assert (Hh : ~ In (Transaction.hash tx) (JSMap.keys m))
    by (now apply mapHas_false_iff).
  assert (Hh' : ~ In (Transaction.hash tx) (JSMap.keys m')).
  { intros Hin. apply Hh. unfold JSMap.keys in *. apply in_map_iff in Hin.
    destruct Hin as (e & E & He). rewrite <- E. apply in_map. now apply Hsub. }
  assert (Hset : mapSet (Transaction.hash tx) tx m' = m' ++ [(Transaction.hash tx, tx)]).
  { apply (jsmap_set_absent String.eqb String.eqb_spec).
    now apply (jsmap_get_none_notin String.eqb String.eqb_spec). }
  assert (Hkeys : forall k, In k (JSMap.keys (m' ++ [(Transaction.hash tx, tx)]))
                            <-> In k (JSMap.keys m') \/ k = Transaction.hash tx).
  { intros k. unfold JSMap.keys. rewrite map_app, in_app_iff. simpl. split.
    - intros [H|[H|[]]]; [left; exact H | right; symmetry; exact H].
    - intros [H|H]; [left; exact H | right; left; symmetry; exact H]. }
  assert (Hev : forall e, evicted e p
            {| pendingTransactions := m' ++ [(Transaction.hash tx, tx)] |}
            <-> In e (firstn c s)).
  { intros e. unfold evicted. simpl. fold m. unfold JSMap.entries.
    rewrite mapHas_false_iff, Hkeys. split.
    - intros [Hm Hno]. apply Hgone; [exact Hm|].
      intros Hin. apply Hno. left. unfold JSMap.keys. now apply in_map.
    - intros Hf. assert (Hm : In e m).
      { apply (Permutation_in _ Hperm). now apply (in_firstn_in e c s). }
      split; [exact Hm|]. intros [Hk|Hk].
      + unfold JSMap.keys in Hk. apply in_map_iff in Hk.
        destruct Hk as (e' & E & He').
        assert (e' = e) by (apply (same_key_same_entry m); auto).
        subst e'. now apply (Hfirst e).
      + apply Hh. rewrite <- Hk. unfold JSMap.keys. now apply in_map. }
  eexists. split; [reflexivity|].
  fold m'. rewrite Hset.
  split; [|split; [|split; [|split]]].
  - unfold getTransaction. simpl. rewrite <- Hset.
    apply (jsmap_get_set_same String.eqb String.eqb_spec).
  - unfold getSize, JSMap.size. cbn [pendingTransactions]. fold m.
    rewrite length_app.
    change (List.length [(Transaction.hash tx, tx)]) with 1%nat.
    unfold c, removeCount in Hlen. lia.
  - unfold getSize, JSMap.size. cbn [pendingTransactions]. fold m.
    rewrite length_app.
    change (List.length [(Transaction.hash tx, tx)]) with 1%nat.
    unfold c, removeCount in Hlen. unfold MAX_POOL_SIZE. intros Hn.
    assert (Hm : List.length m = Z.to_nat 10000) by lia.
    rewrite Hm in Hlen.
    replace (Z.to_nat 10000 / 10)%nat with (Z.to_nat 1000) in Hlen
      by (vm_compute; reflexivity).
    lia.
  - intros e k He [Hkm Hkh]. apply Hev in He.
    assert (Hk : In k (skipn c s)).
    { simpl in Hkh. apply mapHas_true_iff in Hkh. apply Hkeys in Hkh.
      destruct Hkh as [Hk|Hk].
      - unfold JSMap.keys in Hk. apply in_map_iff in Hk.
        destruct Hk as (k' & E & Hk').
        assert (k' = k) by (apply (same_key_same_entry m); auto).
        subst k'. now apply Hkept.
      - exfalso. apply Hh. rewrite <- Hk. unfold JSMap.keys. now apply in_map. }
    apply (sorted_app_le (fun x y => feeCompare x y <= 0) (firstn c s) (skipn c s));
      [|exact He|exact Hk].
    rewrite firstn_skipn. apply sortBy_sorted.
    + apply feeCompare_flip.
    + apply feeCompare_trans.
  - intros e k Hbefore Hprice Hk. apply Hev in Hk. apply Hev.
    apply (before_firstn e k s c Hnds); [|exact Hk].
    apply sortBy_stable; [exact Hbefore|].
    unfold feeCompare. fold (entryPrice e). fold (entryPrice k).
    rewrite Hprice, subSign_refl. lia.
Qed.

(** ** Pools built by admission *)

Lemma addTransaction_nodup (tx : Transaction.t) (p : t) :
  NoDup (JSMap.keys (pendingTransactions p)) ->
  NoDup (JSMap.keys (pendingTransactions (fst (addTransaction tx p)))).
Proof.
  intros Hnd. unfold addTransaction.
  destruct (negb (Transaction.validate tx)); [exact Hnd|].
  destruct (mapHas (Transaction.hash tx) (pendingTransactions p)); [exact Hnd|].
  simpl. apply (jsmap_keys_set_nodup String.eqb String.eqb_spec).
  destruct (MAX_POOL_SIZE <=? Z.of_nat (JSMap.size (pendingTransactions p)));
    [|exact Hnd].
  apply (evict_spec p Hnd).
Qed.

Lemma admitAll_nodup (l : list Transaction.t) (p : t) :
  NoDup (JSMap.keys (pendingTransactions p)) ->
  NoDup (JSMap.keys (pendingTransactions (admitAll l p))).
Proof.
  revert p. induction l as [|tx l IH]; intros p Hnd; simpl; [exact Hnd|].
  apply IH. now apply addTransaction_nodup.
Qed.

Lemma length_set_le (k : string) (v : Transaction.t) (m : JSMap.t string Transaction.t) :
  (List.length (mapSet k v m) <= S (List.length m))%nat.
Proof.
  unfold mapSet. induction m as [|[k' v'] m IH]; simpl; [lia|].
  destruct (String.eqb k k'); simpl; lia.
Qed.

(** The pool never outgrows its maximum. *)
Lemma addTransaction_bounded (tx : Transaction.t) (p : t) :
  NoDup (JSMap.keys (pendingTransactions p)) ->
  Z.of_nat (getSize p) <= MAX_POOL_SIZE ->
  Z.of_nat (getSize (fst (addTransaction tx p))) <= MAX_POOL_SIZE.
Proof.
  intros Hnd Hle. unfold addTransaction.
  destruct (negb (Transaction.validate tx)); [exact Hle|].
  destruct (mapHas (Transaction.hash tx) (pendingTransactions p)); [exact Hle|].
  cbn [fst]. unfold getSize, JSMap.size in *. cbn [pendingTransactions].
  destruct (Z.leb_spec MAX_POOL_SIZE (Z.of_nat (List.length (pendingTransactions p))))
    as [Hfull|Hroom].
  - destruct (evict_spec p Hnd) as (_ & Hlen & _).
    pose proof (length_set_le (Transaction.hash tx) tx
                  (pendingTransactions (evictLowestFeeTransactions p))) as Hs.
    unfold removeCount, MAX_POOL_SIZE in *.
    assert (Hm : List.length (pendingTransactions p) = Z.to_nat 10000) by lia.
    rewrite Hm in Hlen.
    replace (Z.to_nat 10000 / 10)%nat with (Z.to_nat 1000) in Hlen
      by (vm_compute; reflexivity).
    lia.
  - pose proof (length_set_le (Transaction.hash tx) tx (pendingTransactions p)).
    lia.
Qed.

Lemma admitAll_bounded (l : list Transaction.t) :
  Z.of_nat (getSize (admitAll l create)) <= MAX_POOL_SIZE.
Proof.
  assert (G : forall p, NoDup (JSMap.keys (pendingTransactions p)) ->
              Z.of_nat (getSize p) <= MAX_POOL_SIZE ->
              Z.of_nat (getSize (admitAll l p)) <= MAX_POOL_SIZE).
  { induction l as [|tx l IH]; intros p Hnd Hle; simpl; [exact Hle|].
    apply IH; [now apply addTransaction_nodup | now apply addTransaction_bounded]. }
  apply G; [constructor | unfold MAX_POOL_SIZE; simpl; lia].
Qed.
(** Below capacity nothing is evicted: valid transactions with distinct
    fresh hashes are appended in the order of their admission. *)
Lemma admitAll_fresh (l : list Transaction.t) (m : JSMap.t string Transaction.t) :
  forallb Transaction.validate l = true ->
  NoDup (map Transaction.hash l) ->
  (forall tx, In tx l -> ~ In (Transaction.hash tx) (JSMap.keys m)) ->
  Z.of_nat (List.length m + List.length l) <= MAX_POOL_SIZE ->
  admitAll l {| pendingTransactions := m |}
  = {| pendingTransactions := m ++ map entryOf l |}.
Proof.
  revert m. induction l as [|tx l IH]; intros m Hval Hnd Hfresh Hlen; simpl.
  - now rewrite app_nil_r.
  - apply andb_true_iff in Hval. destruct Hval as [Hv Hval].
    inversion Hnd as [|? ? Hni Hnd']; subst.
    unfold addTransaction at 1. rewrite Hv. simpl negb. cbv iota.
    cbn [pendingTransactions].
    replace (mapHas (Transaction.hash tx) m) with false
      by (symmetry; apply mapHas_false_iff; apply Hfresh; now left).
    replace (MAX_POOL_SIZE <=? Z.of_nat (JSMap.size m)) with false
      by (symmetry; apply Z.leb_gt; unfold JSMap.size; simpl in Hlen; lia).
    cbn [fst pendingTransactions].
    assert (Hset : mapSet (Transaction.hash tx) tx m = m ++ [entryOf tx]).
    { apply (jsmap_set_absent String.eqb String.eqb_spec).
      apply (jsmap_get_none_notin String.eqb String.eqb_spec).
      apply Hfresh. now left. }
    rewrite Hset, IH.
    + now rewrite <- app_assoc.
    + exact Hval.
    + exact Hnd'.
    + intros t Ht Hin. unfold JSMap.keys in Hin. rewrite map_app in Hin.
      apply in_app_or in Hin. destruct Hin as [Hin|[Hin|[]]].
      * apply (Hfresh t); [now right | exact Hin].
      * apply Hni. simpl in Hin. rewrite Hin. now apply in_map.
    + rewrite length_app. simpl in *. lia.
Qed.

Lemma to_int_inj_string (a b : Z) :
  JS.bigintToString a = JS.bigintToString b -> a = b.
Proof.
  unfold JS.bigintToString. intros H.
  assert (Hnil : forall z, Z.to_int z <> Decimal.Pos Decimal.Nil
                           /\ Z.to_int z <> Decimal.Neg Decimal.Nil).
  { intros z. split; intros E.
    - assert (z = 0) by (rewrite <- (DecimalZ.of_to z), E; reflexivity).
      subst z. discriminate.
    - assert (z = 0) by (rewrite <- (DecimalZ.of_to z), E; reflexivity).
      subst z. discriminate. }
  apply DecimalZ.to_int_inj.
  assert (Some (Z.to_int a) = Some (Z.to_int b)) as [=]; [|assumption].
  rewrite <- (DecimalString.NilZero.isi (Z.to_int a)) by apply Hnil.
  rewrite <- (DecimalString.NilZero.isi (Z.to_int b)) by apply Hnil.
  now rewrite H.
Qed.

Lemma digestOf_inj (i j : Z) : Samples.digestOf i = Samples.digestOf j -> i = j.
Proof.
  unfold Samples.digestOf. simpl. intros [= H].
  now apply to_int_inj_string in H.
Qed.

Lemma range_bounds (start : Z) (count : nat) (x : Z) :
  In x (Samples.range start count) -> start <= x.
Proof.
  revert start. induction count as [|k IH]; intros start; simpl; [tauto|].
  intros [<-|H]; [lia|]. apply IH in H. lia.
Qed.

Lemma range_nodup (start : Z) (count : nat) : NoDup (Samples.range start count).
Proof.
  revert start. induction count as [|k IH]; intros start; simpl; constructor.
  - intros H. apply range_bounds in H. lia.
  - apply IH.
Qed.

Lemma nodup_digests (f : Z -> Transaction.t) (l : list Z) :
  (forall i, Transaction.hash (f i) = Samples.digestOf i) ->
  NoDup l -> NoDup (map Transaction.hash (map f l)).
Proof.
  intros Hf Hnd. rewrite map_map.
  induction Hnd as [|i l Hni Hnd IH]; simpl; constructor; [|exact IH].
  intros Hin. apply in_map_iff in Hin. destruct Hin as (j & E & Hj).
  rewrite !Hf in E. apply digestOf_inj in E. now subst j.
Qed.

(** A pool filled from empty, below or up to capacity. *)
Lemma admitAll_from_empty (l : list Transaction.t) :
  forallb Transaction.validate l = true ->
  NoDup (map Transaction.hash l) ->
  Z.of_nat (List.length l) <= MAX_POOL_SIZE ->
  admitAll l create = {| pendingTransactions := map entryOf l |}.
Proof.
  intros Hv Hnd Hlen. unfold create.
  rewrite (admitAll_fresh l [] Hv Hnd); [reflexivity | intros tx _ [] | exact Hlen].
Qed.

End PoolAdmission.

Section PoolSamples.
Import TransactionPool.

Lemma range_length (start : Z) (count : nat) :
  List.length (Samples.range start count) = count.
Proof.
  revert start. induction count as [|k IH]; intros start; simpl; [reflexivity|].
  now rewrite IH.
Qed.

Lemma range_snoc (start : Z) (count : nat) :
  Samples.range start (S count)
  = Samples.range start count ++ [start + Z.of_nat count].
Proof.
  revert start. induction count as [|k IH]; intros start.
  - simpl. now rewrite Z.add_0_r.
  - change (Samples.range start (S (S k)))
      with (start :: Samples.range (start + 1) (S k)).
    rewrite IH. simpl. do 3 f_equal. lia.
Qed.

Lemma rangeDown_rev (start : Z) (count : nat) :
  Samples.rangeDown (start + Z.of_nat count - 1) count
  = rev (Samples.range start count).
Proof.
  induction count as [|k IH].
  - reflexivity.
  - rewrite range_snoc, rev_app_distr. simpl. f_equal; [lia|].
    rewrite <- IH. f_equal. lia.
Qed.

Lemma rangeDown_is_rev :
  Samples.rangeDown 10000 Samples.capacity = rev (Samples.range 1 Samples.capacity).
Proof.
  rewrite <- rangeDown_rev. f_equal.
Qed.

Lemma priced_valid (i : Z) : 0 <= i -> Transaction.validate (Samples.priced i) = true.
Proof.
  intros Hi. unfold Transaction.validate. cbn [Samples.priced Samples.createTransfer
    Transaction.gasLimit Transaction.gasPrice Transaction.value Transaction.nonce
    Transaction.r Transaction.s Transaction.v Transaction.data Transaction.to].
  replace (i <? 0) with false by (symmetry; apply Z.ltb_ge; exact Hi).
  reflexivity.
Qed.

Lemma uniform_valid (i : Z) : 0 <= i -> Transaction.validate (Samples.uniform i) = true.
Proof.
  intros Hi. unfold Transaction.validate. cbn [Samples.uniform Samples.createTransfer
    Transaction.gasLimit Transaction.gasPrice Transaction.value Transaction.nonce
    Transaction.r Transaction.s Transaction.v Transaction.data Transaction.to].
  replace (i <? 0) with false by (symmetry; apply Z.ltb_ge; exact Hi).
  reflexivity.
Qed.

Lemma forallb_validate (f : Z -> Transaction.t) (l : list Z) :
  (forall i, 0 <= i -> Transaction.validate (f i) = true) ->
  (forall i, In i l -> 0 <= i) ->
  forallb Transaction.validate (map f l) = true.
Proof.
  intros Hf Hl. apply forallb_forall. intros tx Htx.
  apply in_map_iff in Htx. destruct Htx as (i & <- & Hi). apply Hf. now apply Hl.
Qed.

Lemma range_from_one (count : nat) (i : Z) : In i (Samples.range 1 count) -> 0 <= i.
Proof. intros H. apply range_bounds in H. lia. Qed.

Lemma capacity_length (f : Z -> Transaction.t) :
  Z.of_nat (List.length (map f (Samples.range 1 Samples.capacity))) <= MAX_POOL_SIZE.
Proof.
  rewrite length_map, range_length. unfold Samples.capacity, MAX_POOL_SIZE. lia.
Qed.

Lemma risingPool_entries :
  Samples.risingPool
  = {| pendingTransactions :=
         map entryOf (map Samples.priced (Samples.range 1 Samples.capacity)) |}.
Proof.
  apply admitAll_from_empty.
  - apply forallb_validate; [exact priced_valid | apply range_from_one].
  - apply nodup_digests; [reflexivity | apply range_nodup].
  - apply capacity_length.
Qed.

Lemma forwardPool_entries :
  Samples.forwardPool
  = {| pendingTransactions :=
         map entryOf (map Samples.uniform (Samples.range 1 Samples.capacity)) |}.
Proof.
  apply admitAll_from_empty.
  - apply forallb_validate; [exact uniform_valid | apply range_from_one].
  - apply nodup_digests; [reflexivity | apply range_nodup].
  - apply capacity_length.
Qed.

Lemma backwardPool_entries :
  Samples.backwardPool
  = {| pendingTransactions :=
         map entryOf (map Samples.uniform (Samples.rangeDown 10000 Samples.capacity)) |}.
Proof.
  apply admitAll_from_empty.
  - apply forallb_validate; [exact uniform_valid|].
    intros i Hi. rewrite rangeDown_is_rev in Hi. apply in_rev in Hi.
    now apply range_from_one in Hi.
  - apply nodup_digests; [reflexivity|].
    rewrite rangeDown_is_rev. apply NoDup_rev, range_nodup.
  - rewrite length_map, rangeDown_is_rev, length_rev, range_length.
    unfold Samples.capacity, MAX_POOL_SIZE. lia.
Qed.

(** The theorem for a pool at capacity whose entries offer the gas prices
    1, 2, ..., 10000 and a newcomer offering 10001: the thousand entries
    priced 1 to 1000 go, the newcomer is admitted, 9001 entries remain. *)
Lemma addTransaction_at_capacity_witness :
  Z.of_nat (getSize Samples.risingPool) = MAX_POOL_SIZE
  /\ map Transaction.gasPrice (JSMap.values (pendingTransactions Samples.risingPool))
     = Samples.range 1 Samples.capacity
  /\ Transaction.gasPrice Samples.newcomer = 10001
  /\ snd (addTransaction Samples.newcomer Samples.risingPool) = true
  /\ map Transaction.gasPrice
       (JSMap.values
          (pendingTransactions
             (fst (addTransaction Samples.newcomer Samples.risingPool))))
     = Samples.range 1001 (Z.to_nat 9001).
Proof.
  assert (Hsize : Z.of_nat (getSize Samples.risingPool) = MAX_POOL_SIZE)
    by (rewrite risingPool_entries; vm_compute; reflexivity).
  destruct (addTransaction_at_capacity Samples.newcomer Samples.risingPool)
    as (p' & Hadd & _).
  - apply admitAll_nodup. constructor.
  - vm_compute. reflexivity.
  - rewrite risingPool_entries. vm_compute. reflexivity.
  - rewrite Hsize. lia.
  - split; [exact Hsize|].
    split; [rewrite risingPool_entries; vm_compute; reflexivity|].
    split; [reflexivity|].
    split; [rewrite Hadd; reflexivity|].
    rewrite risingPool_entries. vm_compute. reflexivity.
Defined.

(** C6 as the specification states it, at two pools at capacity holding the same
    10000 transactions, all offering 5 Gwei, admitted in opposite orders.
    The same newcomer is admitted to each; the first pool loses the
    transaction with digest tx1 and keeps tx10000, the second loses tx10000
    and keeps tx1.  The outcome is thus not a function of the set of
    entries, and no tie-break by transaction hash yields both. *)
Lemma eviction_follows_admission_order :
  let tx := Samples.uniform 10001 in
  Permutation (JSMap.entries (pendingTransactions Samples.forwardPool))
              (JSMap.entries (pendingTransactions Samples.backwardPool))
  /\ Z.of_nat (getSize Samples.forwardPool) = MAX_POOL_SIZE
  /\ (let p' := fst (addTransaction tx Samples.forwardPool) in
      hasTransaction "tx1" p' = false /\ hasTransaction "tx10000" p' = true)
  /\ (let p' := fst (addTransaction tx Samples.backwardPool) in
      hasTransaction "tx1" p' = true /\ hasTransaction "tx10000" p' = false).
Proof.
  intros tx.
  rewrite forwardPool_entries, backwardPool_entries.
  split.
  - unfold JSMap.entries. cbn [pendingTransactions].
    rewrite rangeDown_is_rev, map_rev.
    apply Permutation_map. apply Permutation_rev.
  - vm_compute. repeat split; reflexivity.
Qed.

End PoolSamples.

(* ================================================================== *)
(** * More facts about [JSMap] *)
(* ================================================================== *)

Section JSMapDelete.
Context {K V : Type} (eqb : K -> K -> bool).
Hypothesis eqb_spec : forall a b, reflect (a = b) (eqb a b).

Lemma jsmap_get_delete_other (k k' : K) (m : JSMap.t K V) :
  k' <> k -> JSMap.get eqb k' (JSMap.delete eqb k m) = JSMap.get eqb k' m.
Proof.
  intros Hne. induction m as [|[k0 v0] m IH]; [reflexivity|]. simpl.
  destruct (eqb_spec k k0) as [->|Hk].
  - destruct (eqb_spec k' k0); [contradiction|reflexivity].
  - simpl. destruct (eqb_spec k' k0); [reflexivity|exact IH].
Qed.

Lemma jsmap_get_delete_same (k : K) (m : JSMap.t K V) :
  NoDup (JSMap.keys m) -> JSMap.get eqb k (JSMap.delete eqb k m) = None.
Proof.
  intros Hnd. apply (jsmap_get_none_notin eqb eqb_spec).
  intros Hin. apply (in_keys_delete eqb eqb_spec k k m Hnd) in Hin.
  now destruct Hin.
Qed.

Lemma jsmap_delete_last (k : K) (v : V) (m : JSMap.t K V) :
  ~ In k (JSMap.keys m) -> JSMap.delete eqb k (m ++ [(k, v)]) = m.
Proof.
  induction m as [|[k0 v0] m IH]; intros Hn; simpl.
  - destruct (eqb_spec k k); [reflexivity|contradiction].
  - destruct (eqb_spec k k0) as [->|Hk]; [exfalso; apply Hn; now left|].
    rewrite IH; [reflexivity|]. intros H. apply Hn. now right.
Qed.

Lemma jsmap_get_app (k : K) (m l : JSMap.t K V) :
  JSMap.get eqb k (m ++ l)
  = match JSMap.get eqb k m with
    | Some v => Some v
    | None => JSMap.get eqb k l
    end.
Proof.
  induction m as [|[k0 v0] m IH]; [reflexivity|]. simpl.
  destruct (eqb k k0); [reflexivity|exact IH].
Qed.

End JSMapDelete.

(* ================================================================== *)
(** * Account operations, supply and snapshots *)
(* ================================================================== *)

Section AccountOperations.
Import StateManager.

Lemma view_ref (st : t) (k : string) (q : Ref) :
  mapGet k (accounts st) = Some q -> view st k = Some (deref (heap st) q).
Proof. intros H. unfold view, viewHM. now rewrite H. Qed.

(** The stored accounts after [setBalance] and [incrementNonce]. *)
Lemma touch_view (k : string) (f : AccountState -> AccountState) (st : t) (k' : string) :
  wf st ->
  (let '(account, h0) := getOrFresh k (heap st) (accounts st) in
   viewHM (modify account f h0) (mapSet k account (accounts st)) k')
  = if String.eqb k' k then Some (f (orEmpty (view st k))) else view st k'.
Proof.
  intros Hwf.
  pose proof (getOrFresh_spec (heap st) (accounts st) k Hwf) as H.
  destruct (getOrFresh k (heap st) (accounts st)) as [q h0].
  cbv zeta in H. destruct H as (Hwf0 & Hq & Hview & _ & _).
  rewrite (viewHM_modify h0 _ k q f k' Hwf0 Hq).
  destruct (String.eqb_spec k' k) as [->|Hne].
  - f_equal. f_equal.
    specialize (Hview k). rewrite String.eqb_refl in Hview.
    assert (Hd : viewHM h0 (mapSet k q (accounts st)) k = Some (deref h0 q))
      by (unfold viewHM; now rewrite Hq).
    rewrite Hd in Hview. unfold view. congruence.
  - rewrite Hview. destruct (String.eqb_spec k' k); [contradiction|reflexivity].
Qed.

Lemma setBalance_view (address : string) (b : Z) (st : t) (k : string) :
  wf st ->
  view (setBalance address b st) k
  = if String.eqb k (JS.toLowerCase address)
    then Some (putBalance b (orEmpty (view st (JS.toLowerCase address))))
    else view st k.
Proof.
  intros Hwf. rewrite <- (touch_view _ (putBalance b) st k Hwf).
  unfold setBalance.
  destruct (getOrFresh (JS.toLowerCase address) (heap st) (accounts st)).
  rewrite view_updateStateRoot. reflexivity.
Qed.

Lemma incrementNonce_view (address : string) (st : t) (k : string) :
  wf st ->
  view (incrementNonce address st) k
  = if String.eqb k (JS.toLowerCase address)
    then Some (addNonce 1 (orEmpty (view st (JS.toLowerCase address))))
    else view st k.
Proof.
  intros Hwf. rewrite <- (touch_view _ (addNonce 1) st k Hwf).
  unfold incrementNonce.
  destruct (getOrFresh (JS.toLowerCase address) (heap st) (accounts st)).
  rewrite view_updateStateRoot. reflexivity.
Qed.

(** X1. [setBalance] writes the balance of one account: afterwards
    [getBalance] returns the new balance under every spelling of the
    address that agrees with it up to case, the nonce of the account is the
    one it had (0 for an account that did not exist), and every other
    account is as it was. *)
Theorem setBalance_then_getBalance (address : string) (b : Z) (st : t) :
  wf st ->
  (forall alias, JS.toLowerCase alias = JS.toLowerCase address ->
     getBalance alias (setBalance address b st) = b
     /\ getNonce alias (setBalance address b st) = getNonce address st)
  /\ (forall other, JS.toLowerCase other <> JS.toLowerCase address ->
        getAccount other (setBalance address b st) = getAccount other st).
Proof.
  intros Hwf. split.
  - intros alias Ha.
    rewrite getBalance_view, getNonce_view, (getNonce_view address), Ha.
    rewrite setBalance_view, String.eqb_refl by exact Hwf.
    split; reflexivity.
  - intros other Hne. rewrite !getAccount_view, setBalance_view by exact Hwf.
    destruct (String.eqb_spec (JS.toLowerCase other) (JS.toLowerCase address));
      [contradiction|reflexivity].
Qed.

Lemma setBalance_then_getBalance_witness :
  wf Samples.genesisState
  /\ getBalance "0X4567890123456789012345678901234567890123"
       (setBalance Samples.addr4 7 Samples.genesisState) = 7
  /\ getAccount Samples.addr1 (setBalance Samples.addr4 7 Samples.genesisState)
     = getAccount Samples.addr1 Samples.genesisState.
Proof.
  pose proof (setBalance_then_getBalance Samples.addr4 7 Samples.genesisState
                wf_genesisState) as [H1 H2].
  split; [exact wf_genesisState|]. split.
  - apply H1. reflexivity.
  - apply H2. discriminate.
Defined.

(** [incrementNonce] adds exactly one to the nonce of the account and
    creates the account when it is missing; its balance and every other
    account stay as they were. *)
Theorem incrementNonce_adds_one (address : string) (st : t) :
  wf st ->
  (forall alias, JS.toLowerCase alias = JS.toLowerCase address ->
     getNonce alias (incrementNonce address st) = getNonce address st + 1
     /\ getBalance alias (incrementNonce address st) = getBalance address st)
  /\ getAccount address (incrementNonce address st) <> None
  /\ (forall other, JS.toLowerCase other <> JS.toLowerCase address ->
        getAccount other (incrementNonce address st) = getAccount other st).
Proof.
  intros Hwf. split; [|split].
  - intros alias Ha.
    rewrite getBalance_view, getNonce_view, (getNonce_view address),
      (getBalance_view address), Ha.
    rewrite incrementNonce_view, String.eqb_refl by exact Hwf.
    split; reflexivity.
  - rewrite getAccount_view, incrementNonce_view, String.eqb_refl by exact Hwf.
    discriminate.
  - intros other Hne. rewrite !getAccount_view, incrementNonce_view by exact Hwf.
    destruct (String.eqb_spec (JS.toLowerCase other) (JS.toLowerCase address));
      [contradiction|reflexivity].
Qed.

Lemma incrementNonce_adds_one_witness :
  wf Samples.genesisState
  /\ getNonce Samples.addr4 (incrementNonce Samples.addr4 Samples.genesisState) = 1
  /\ getNonce Samples.addr1 (incrementNonce Samples.addr1 Samples.genesisState) = 1.
Proof.
  split; [exact wf_genesisState|]. split.
  - apply (incrementNonce_adds_one Samples.addr4 Samples.genesisState wf_genesisState).
    reflexivity.
  - apply (incrementNonce_adds_one Samples.addr1 Samples.genesisState wf_genesisState).
    reflexivity.
Defined.


(** X2. [transfer] succeeds exactly when the sender's account exists and
    holds at least the amount.  It then debits the sender and credits the
    recipient by the amount (a transfer to oneself leaves the balance as it
    was), creates the recipient's account when it is missing, and changes
    no nonce and no other account.  When it fails, the state is returned as
    it was.  Nothing is required of the sign of the amount. *)
Theorem transfer_moves_funds (from to : string) (amount : Z) (st : t) :
  wf st ->
  let st' := fst (transfer from to amount st) in
  if snd (transfer from to amount st)
  then amount <= getBalance from st
       /\ getAccount from st <> None
       /\ getAccount to st' <> None
       /\ (if String.eqb (JS.toLowerCase to) (JS.toLowerCase from)
           then getBalance from st' = getBalance from st
           else getBalance from st' = getBalance from st - amount
                /\ getBalance to st' = getBalance to st + amount)
       /\ (forall other,
             JS.toLowerCase other <> JS.toLowerCase from ->
             JS.toLowerCase other <> JS.toLowerCase to ->
             getAccount other st' = getAccount other st)
       /\ (forall a, getNonce a st' = getNonce a st)
  else st' = st
       /\ (getAccount from st = None \/ getBalance from st < amount).
Proof.
  intros Hwf st'. subst st'.
  destruct (mapGet (JS.toLowerCase from) (accounts st)) as [p|] eqn:Hp.
  - destruct (Z.ltb_spec (balance (deref (heap st) p)) amount) as [Hlt|Hge].
    + assert (transfer from to amount st = (st, false)) as ->.
      { unfold transfer. rewrite Hp. apply Z.ltb_lt in Hlt. now rewrite Hlt. }
      simpl. split; [reflexivity|]. right.
      unfold getBalance, getAccount. rewrite Hp. exact Hlt.
    + destruct (transfer_success from to amount st p Hwf Hp Hge)
        as (st1 & Heq & Hwf1 & Hp1 & _ & Hview).
      rewrite Heq. simpl.
      assert (Hfrom : view st (JS.toLowerCase from) = Some (deref (heap st) p))
        by (apply view_ref; exact Hp).
      split; [rewrite getBalance_view, Hfrom; exact Hge|].
      split; [rewrite getAccount_view, Hfrom; discriminate|].
      split; [rewrite getAccount_view, Hview, String.eqb_refl; discriminate|].
      split; [|split].
      * rewrite !getBalance_view, !Hview, Hfrom, String.eqb_refl.
        rewrite (String.eqb_sym (JS.toLowerCase from) (JS.toLowerCase to)).
        destruct (String.eqb_spec (JS.toLowerCase to) (JS.toLowerCase from)) as [e|ne].
        -- simpl. lia.
        -- rewrite String.eqb_refl. simpl. split; reflexivity.
      * intros other H1 H2. rewrite !getAccount_view, Hview.
        destruct (String.eqb_spec (JS.toLowerCase other) (JS.toLowerCase to));
          [contradiction|].
        destruct (String.eqb_spec (JS.toLowerCase other) (JS.toLowerCase from));
          [contradiction|reflexivity].
      * intros a. rewrite !getNonce_view, Hview.
        destruct (String.eqb_spec (JS.toLowerCase a) (JS.toLowerCase to)) as [e|ne].
        -- rewrite e.
           destruct (String.eqb_spec (JS.toLowerCase to) (JS.toLowerCase from)) as [e'|ne'].
           ++ rewrite e', Hfrom. reflexivity.
           ++ reflexivity.
        -- destruct (String.eqb_spec (JS.toLowerCase a) (JS.toLowerCase from)) as [e'|ne'].
           ++ rewrite e', Hfrom. reflexivity.
           ++ reflexivity.
  - assert (transfer from to amount st = (st, false)) as ->
      by (unfold transfer; now rewrite Hp).
    simpl. split; [reflexivity|]. left. unfold getAccount. now rewrite Hp.
Qed.

Lemma transfer_moves_funds_witness :
  wf Samples.genesisState
  /\ getBalance Samples.addr1
       (fst (transfer Samples.addr1 Samples.addr4 5 Samples.genesisState))
     = 1000000000000000000000000000 - 5
  /\ getBalance Samples.addr4
       (fst (transfer Samples.addr1 Samples.addr4 5 Samples.genesisState))
     = 5.
Proof.
  split; [exact wf_genesisState|].
  pose proof (transfer_moves_funds Samples.addr1 Samples.addr4 5 Samples.genesisState
                wf_genesisState) as H.
  cbv zeta in H.
  change (snd (transfer Samples.addr1 Samples.addr4 5 Samples.genesisState))
    with true in H.
  cbv iota in H.
  destruct H as (_ & _ & _ & H & _).
  change (String.eqb (JS.toLowerCase Samples.addr4) (JS.toLowerCase Samples.addr1))
    with false in H.
  exact H.
Defined.

End AccountOperations.

Section Supply.
Import StateManager.

Lemma sumBalances_from (h : list AccountState) (refs : list Ref) (z : Z) :
  fold_left (fun total p => total + balance (deref h p)) refs z
  = z + sumBalances h refs.
Proof.
  unfold sumBalances. revert z.
  induction refs as [|p refs IH]; intros z; simpl; [lia|].
  rewrite IH, (IH (balance (deref h p))). lia.
Qed.

Lemma sumBalances_cons (h : list AccountState) (p : Ref) (refs : list Ref) :
  sumBalances h (p :: refs) = balance (deref h p) + sumBalances h refs.
Proof. unfold sumBalances at 1. simpl. now rewrite sumBalances_from. Qed.

Lemma sumBalances_app (h : list AccountState) (l1 l2 : list Ref) :
  sumBalances h (l1 ++ l2) = sumBalances h l1 + sumBalances h l2.
Proof.
  induction l1 as [|p l1 IH]; simpl; [reflexivity|].
  rewrite !sumBalances_cons, IH. lia.
Qed.

Lemma getTotalSupply_sum (st : t) :
  getTotalSupply st = sumBalances (heap st) (JSMap.values (accounts st)).
Proof. reflexivity. Qed.

Lemma sumBalances_modify_out (h : list AccountState) (p : Ref) f (refs : list Ref) :
  ~ In p refs -> sumBalances (modify p f h) refs = sumBalances h refs.
Proof.
  induction refs as [|q refs IH]; intros Hn; [reflexivity|].
  rewrite !sumBalances_cons, IH by (intros H; apply Hn; now right).
  rewrite deref_modify_other; [reflexivity|].
  intros ->. apply Hn. now left.
Qed.

Lemma sumBalances_modify_in (h : list AccountState) (p : Ref) f (refs : list Ref) :
  NoDup refs -> In p refs -> (p < List.length h)%nat ->
  sumBalances (modify p f h) refs
  = sumBalances h refs + balance (f (deref h p)) - balance (deref h p).
Proof.
  intros Hnd Hin Hlt. induction refs as [|q refs IH]; [contradiction|].
  inversion Hnd as [|? ? Hq Hnd']; subst.
  rewrite !sumBalances_cons. destruct Hin as [->|Hin].
  - rewrite deref_modify_same by exact Hlt.
    rewrite sumBalances_modify_out by exact Hq. lia.
  - rewrite IH by assumption.
    rewrite deref_modify_other; [lia|].
    intros ->. contradiction.
Qed.

Lemma sumBalances_alloc (h : list AccountState) (a : AccountState) (refs : list Ref) :
  Forall (fun p => (p < List.length h)%nat) refs ->
  sumBalances (h ++ [a]) refs = sumBalances h refs.
Proof.
  induction 1 as [|p refs Hp _ IH]; [reflexivity|].
  rewrite !sumBalances_cons, IH, deref_alloc_old by exact Hp. reflexivity.
Qed.

Lemma in_values (m : JSMap.t string Ref) (k : string) (p : Ref) :
  mapGet k m = Some p -> In p (JSMap.values m).
Proof.
  intros H. apply (jsmap_get_some_in String.eqb String.eqb_spec) in H.
  change p with (snd (k, p)). now apply in_map.
Qed.

(** Changing one stored account changes the supply by the difference of
    its balances. *)
Lemma supply_modify h m k p f :
  wfHM h m -> mapGet k m = Some p ->
  sumBalances (modify p f h) (JSMap.values m)
  = sumBalances h (JSMap.values m) + balance (f (deref h p)) - balance (deref h p).
Proof.
  intros Hwf Hp. apply sumBalances_modify_in.
  - apply Hwf.
  - eapply in_values; eauto.
  - eapply wfHM_ref_bound; eauto.
Qed.

(** Binding the account of an address, stored or fresh, adds nothing. *)
Lemma supply_getOrFresh h m k :
  wfHM h m ->
  let '(q, h0) := getOrFresh k h m in
  sumBalances h0 (JSMap.values (mapSet k q m)) = sumBalances h (JSMap.values m).
Proof.
  intros Hwf. unfold getOrFresh.
  destruct (mapGet k m) as [q|] eqn:Hq.
  - unfold mapSet, mapGet in *.
    now rewrite (jsmap_set_same_value String.eqb String.eqb_spec k q m Hq).
  - unfold alloc. cbv beta iota zeta.
    assert (Hset : mapSet k (List.length h) m = m ++ [(k, List.length h)])
      by (apply (jsmap_set_absent String.eqb String.eqb_spec); exact Hq).
    rewrite Hset. unfold JSMap.values. rewrite map_app, sumBalances_app. simpl.
    rewrite sumBalances_cons, deref_alloc_new.
    rewrite sumBalances_alloc by apply Hwf.
    unfold sumBalances at 2. simpl. lia.
Qed.

Lemma transfer_supply (from to : string) (amount : Z) (st : t) :
  wf st ->
  getTotalSupply (fst (transfer from to amount st)) = getTotalSupply st.
Proof.
  intros Hwf. unfold transfer.
  destruct (mapGet (JS.toLowerCase from) (accounts st)) as [p|] eqn:Hp;
    [|reflexivity].
  destruct (balance (deref (heap st) p) <? amount); [reflexivity|].
  pose proof (getOrFresh_spec (heap st) (accounts st) (JS.toLowerCase to) Hwf) as Hspec.
  pose proof (supply_getOrFresh (heap st) (accounts st) (JS.toLowerCase to) Hwf) as Hsum.
  destruct (getOrFresh (JS.toLowerCase to) (heap st) (accounts st)) as [q h0].
  cbv zeta in Hspec. destruct Hspec as (Hwf0 & Hq & _ & Hkeep & _).
  assert (Hself : mapSet (JS.toLowerCase from) p (accounts st) = accounts st)
    by (apply (jsmap_set_same_value String.eqb String.eqb_spec); exact Hp).
  rewrite Hself. cbn [fst]. rewrite getTotalSupply_sum. cbn [heap accounts updateStateRoot].
  set (m0 := mapSet (JS.toLowerCase to) q (accounts st)) in *.
  assert (Hp0 : mapGet (JS.toLowerCase from) m0 = Some p) by (apply Hkeep; exact Hp).
  rewrite (supply_modify _ m0 (JS.toLowerCase to) q) by (try apply wfHM_modify; assumption).
  rewrite (supply_modify h0 m0 (JS.toLowerCase from) p) by assumption.
  rewrite Hsum, getTotalSupply_sum. simpl. lia.
Qed.


Lemma setBalance_supply (address : string) (b : Z) (st : t) :
  wf st ->
  getTotalSupply (setBalance address b st)
  = getTotalSupply st + (b - getBalance address st).
Proof.
  intros Hwf. unfold setBalance.
  pose proof (getOrFresh_spec (heap st) (accounts st) (JS.toLowerCase address) Hwf) as Hspec.
  pose proof (supply_getOrFresh (heap st) (accounts st) (JS.toLowerCase address) Hwf) as Hsum.
  destruct (getOrFresh (JS.toLowerCase address) (heap st) (accounts st)) as [q h0].
  cbv zeta in Hspec. destruct Hspec as (Hwf0 & Hq & Hview & _ & _).
  rewrite getTotalSupply_sum. cbn [heap accounts updateStateRoot].
  rewrite (supply_modify h0 _ (JS.toLowerCase address) q) by assumption.
  rewrite Hsum, <- getTotalSupply_sum, getBalance_view.
  specialize (Hview (JS.toLowerCase address)). rewrite String.eqb_refl in Hview.
  assert (Hd : viewHM h0 (mapSet (JS.toLowerCase address) q (accounts st))
                 (JS.toLowerCase address) = Some (deref h0 q))
    by (unfold viewHM; now rewrite Hq).
  rewrite Hd in Hview. inversion Hview as [Hd']. unfold view. rewrite <- Hd'.
  simpl. lia.
Qed.

Lemma incrementNonce_supply (address : string) (st : t) :
  wf st -> getTotalSupply (incrementNonce address st) = getTotalSupply st.
Proof.
  intros Hwf. unfold incrementNonce.
  pose proof (getOrFresh_spec (heap st) (accounts st) (JS.toLowerCase address) Hwf) as Hspec.
  pose proof (supply_getOrFresh (heap st) (accounts st) (JS.toLowerCase address) Hwf) as Hsum.
  destruct (getOrFresh (JS.toLowerCase address) (heap st) (accounts st)) as [q h0].
  cbv zeta in Hspec. destruct Hspec as (Hwf0 & Hq & _ & _ & _).
  rewrite getTotalSupply_sum. cbn [heap accounts updateStateRoot].
  rewrite (supply_modify h0 _ (JS.toLowerCase address) q) by assumption.
  rewrite Hsum, <- getTotalSupply_sum. simpl. lia.
Qed.

(** X3. The total supply changes only through [setBalance], by the
    difference to the old balance, and through a successful
    [processTransaction], which burns the gas cost gasPrice * gasLimit;
    [incrementNonce], [transfer] and a rejected [processTransaction]
    conserve it.  (Every call of [processTransaction] is rejected, so that
    case never burns anything.) *)
Theorem supply_accounting (m : Mutation) (st : t) :
  wf st ->
  getTotalSupply (apply m st)
  = getTotalSupply st
    + match m with
      | SetBalance address b => b - getBalance address st
      | IncrementNonce _ => 0
      | Transfer _ _ _ => 0
      | ProcessTransaction tx =>
          if snd (processTransaction tx st)
          then - (Transaction.gasPrice tx * Transaction.gasLimit tx)
          else 0
      end.
Proof.
  intros Hwf. destruct m as [a b|a|f d amount|tx]; simpl apply.
  - apply setBalance_supply; exact Hwf.
  - rewrite incrementNonce_supply by exact Hwf. lia.
  - rewrite transfer_supply by exact Hwf. lia.
  - rewrite processTransaction_rejects. cbn [fst snd]. lia.
Qed.

(** The theorem at the state after [initialize]: the payment is rejected
    and burns nothing; setting the balance of [addr2] to 7 takes what it
    held out of the supply. *)
Lemma supply_accounting_witness :
  wf Samples.genesisState
  /\ getTotalSupply Samples.genesisState = 1600000000000000000000000000
  /\ getTotalSupply (apply (ProcessTransaction Samples.payment) Samples.genesisState)
     = 1600000000000000000000000000
  /\ getTotalSupply (apply (SetBalance Samples.addr2 7) Samples.genesisState)
     = 1600000000000000000000000000 + (7 - 500000000000000000000000000).
Proof.
  split; [exact wf_genesisState|]. split; [reflexivity|]. split.
  - rewrite (supply_accounting (ProcessTransaction Samples.payment)
               Samples.genesisState wf_genesisState).
    reflexivity.
  - rewrite (supply_accounting (SetBalance Samples.addr2 7) Samples.genesisState
               wf_genesisState).
    reflexivity.
Defined.

End Supply.

Section Solvency.
Import StateManager.

Lemma solvent_orEmpty (st : t) (k : string) :
  solvent st -> 0 <= balance (orEmpty (view st k)).
Proof.
  intros Hs. destruct (view st k) as [a|] eqn:E; simpl; [|lia].
  eapply Hs; eauto.
Qed.

Lemma transfer_solvent (from to : string) (amount : Z) (st : t) :
  wf st -> solvent st -> 0 <= amount ->
  solvent (fst (transfer from to amount st)).
Proof.
  intros Hwf Hs Ha.
  destruct (transfer from to amount st) as [st1 ok] eqn:Heq.
  destruct ok; [|now rewrite (transfer_refused _ _ _ _ _ Heq)].
  cbn [fst].
  assert (exists p, mapGet (JS.toLowerCase from) (accounts st) = Some p
                    /\ amount <= balance (deref (heap st) p)) as (p & Hp & Hb).
  { unfold transfer in Heq.
    destruct (mapGet (JS.toLowerCase from) (accounts st)) as [p|]; [|discriminate].
    destruct (balance (deref (heap st) p) <? amount) eqn:E; [discriminate|].
    exists p. split; [reflexivity|]. now apply Z.ltb_ge in E. }
  destruct (transfer_success from to amount st p Hwf Hp Hb)
    as (st1' & Heq' & _ & _ & _ & Hview).
  rewrite Heq in Heq'. inversion Heq'; subst st1'.
  intros k a Hk. rewrite Hview in Hk.
  pose proof (solvent_orEmpty st (JS.toLowerCase to) Hs) as Hto.
  destruct (String.eqb k (JS.toLowerCase to)).
  - inversion Hk; subst a.
    destruct (String.eqb (JS.toLowerCase to) (JS.toLowerCase from)); simpl; lia.
  - destruct (String.eqb k (JS.toLowerCase from)).
    + inversion Hk; subst a. simpl. lia.
    + eapply Hs; eauto.
Qed.

Lemma apply_solvent (m : Mutation) (st : t) :
  wf st -> solvent st -> nonneg m -> solvent (apply m st).
Proof.
  intros Hwf Hs Hm. destruct m as [a b|a|f d amount|tx]; simpl in *.
  - intros k x Hk. rewrite setBalance_view in Hk by exact Hwf.
    destruct (String.eqb k (JS.toLowerCase a)).
    + inversion Hk; subst x. simpl. exact Hm.
    + eapply Hs; eauto.
  - intros k x Hk. rewrite incrementNonce_view in Hk by exact Hwf.
    destruct (String.eqb k (JS.toLowerCase a)).
    + inversion Hk; subst x. simpl. now apply solvent_orEmpty.
    + eapply Hs; eauto.
  - now apply transfer_solvent.
  - exact Hs.
Qed.

Lemma solvent_genesisState : solvent Samples.genesisState.
Proof.
  intros k a Hk. unfold view, viewHM in Hk. simpl in Hk.
  repeat (match type of Hk with
          | context [String.eqb ?x ?y] => destruct (String.eqb x y)
          end; [inversion Hk; subst a; simpl; lia|]).
  discriminate.
Qed.

(** X4. When no account holds a negative balance, no sequence of mutations
    that name no negative amount (value of a transaction, amount of a
    transfer, balance that is set) makes a balance negative. *)
Theorem balances_stay_nonnegative (ms : list Mutation) (st : t) :
  wf st -> solvent st -> Forall nonneg ms ->
  solvent (run ms st)
  /\ forall address, 0 <= getBalance address (run ms st).
Proof.
  intros Hwf Hs Hms.
  assert (H : wf (run ms st) /\ solvent (run ms st)).
  { revert st Hwf Hs. induction Hms as [|m ms Hm _ IH]; intros st Hwf Hs.
    - split; assumption.
    - simpl. apply IH.
      + now apply apply_preserves.
      + now apply apply_solvent. }
  split; [apply H|].
  intros address. rewrite getBalance_view. apply solvent_orEmpty. apply H.
Qed.

Lemma balances_stay_nonnegative_witness :
  wf Samples.genesisState
  /\ solvent Samples.genesisState
  /\ Forall nonneg [ProcessTransaction Samples.payment; Transfer Samples.addr2 Samples.addr4 9]
  /\ 0 <= getBalance Samples.addr4
            (run [ProcessTransaction Samples.payment; Transfer Samples.addr2 Samples.addr4 9]
               Samples.genesisState).
Proof.
  assert (Hn : Forall nonneg [ProcessTransaction Samples.payment;
                              Transfer Samples.addr2 Samples.addr4 9]).
  { repeat constructor; simpl; lia. }
  split; [exact wf_genesisState|]. split; [exact solvent_genesisState|].
  split; [exact Hn|].
  apply (balances_stay_nonnegative _ Samples.genesisState wf_genesisState
           solvent_genesisState Hn).
Defined.

End Solvency.

Section Snapshots.
Import StateManager.

Lemma length_set_ge {V : Type} (k : string) (v : V) (m : JSMap.t string V) :
  (List.length m <= List.length (JSMap.set String.eqb k v m))%nat.
Proof.
  induction m as [|[k' v'] m IH]; simpl; [lia|].
  destruct (String.eqb k k'); simpl; lia.
Qed.

Lemma getOrFresh_grows k h m :
  (List.length h <= List.length (snd (getOrFresh k h m)))%nat.
Proof.
  unfold getOrFresh. destruct (mapGet k m); simpl; [lia|].
  rewrite length_app. simpl. lia.
Qed.

(** A successful transfer keeps every reference of the map and no object
    of the heap goes away. *)
Lemma transfer_keeps (from to : string) (amount : Z) (st st1 : t) :
  wf st -> transfer from to amount st = (st1, true) ->
  (forall k p, mapGet k (accounts st) = Some p -> mapGet k (accounts st1) = Some p)
  /\ (List.length (heap st) <= List.length (heap st1))%nat
  /\ (List.length (accounts st) <= List.length (accounts st1))%nat.
Proof.
  intros Hwf Heq. unfold transfer in Heq.
  destruct (mapGet (JS.toLowerCase from) (accounts st)) as [p|] eqn:Hp; [|discriminate].
  destruct (balance (deref (heap st) p) <? amount); [discriminate|].
  pose proof (getOrFresh_spec (heap st) (accounts st) (JS.toLowerCase to) Hwf) as Hspec.
  pose proof (getOrFresh_grows (JS.toLowerCase to) (heap st) (accounts st)) as Hg.
  destruct (getOrFresh (JS.toLowerCase to) (heap st) (accounts st)) as [q h0].
  cbv zeta in Hspec. destruct Hspec as (_ & _ & _ & Hkeep & _).
  assert (Hself : mapSet (JS.toLowerCase from) p (accounts st) = accounts st)
    by (apply (jsmap_set_same_value String.eqb String.eqb_spec); exact Hp).
  rewrite Hself in Heq. inversion Heq; subst st1. cbn [heap accounts updateStateRoot].
  split; [exact Hkeep|]. split.
  - rewrite !length_modify. exact Hg.
  - apply length_set_ge.
Qed.

Lemma apply_keeps (m : Mutation) (st : t) :
  wf st ->
  (forall k p, mapGet k (accounts st) = Some p ->
               mapGet k (accounts (apply m st)) = Some p)
  /\ (List.length (heap st) <= List.length (heap (apply m st)))%nat
  /\ (List.length (accounts st) <= List.length (accounts (apply m st)))%nat.
Proof.
  intros Hwf. destruct m as [a b|a|f d amount|tx]; simpl apply.
  - unfold setBalance.
    pose proof (getOrFresh_spec (heap st) (accounts st) (JS.toLowerCase a) Hwf) as Hspec.
    pose proof (getOrFresh_grows (JS.toLowerCase a) (heap st) (accounts st)) as Hg.
    destruct (getOrFresh (JS.toLowerCase a) (heap st) (accounts st)) as [q h0].
    cbv zeta in Hspec. destruct Hspec as (_ & _ & _ & Hkeep & _).
    cbn [heap accounts updateStateRoot]. split; [exact Hkeep|]. split.
    + rewrite length_modify. exact Hg.
    + apply length_set_ge.
  - unfold incrementNonce.
    pose proof (getOrFresh_spec (heap st) (accounts st) (JS.toLowerCase a) Hwf) as Hspec.
    pose proof (getOrFresh_grows (JS.toLowerCase a) (heap st) (accounts st)) as Hg.
    destruct (getOrFresh (JS.toLowerCase a) (heap st) (accounts st)) as [q h0].
    cbv zeta in Hspec. destruct Hspec as (_ & _ & _ & Hkeep & _).
    cbn [heap accounts updateStateRoot]. split; [exact Hkeep|]. split.
    + rewrite length_modify. exact Hg.
    + apply length_set_ge.
  - destruct (transfer f d amount st) as [st1 ok] eqn:Heq. destruct ok.
    + cbn [fst]. eapply transfer_keeps; eauto.
    + rewrite (transfer_refused _ _ _ _ _ Heq). cbn [fst]. auto.
  - simpl. auto.
Qed.

Lemma run_keeps (ms : list Mutation) (st : t) :
  wf st ->
  (forall k p, mapGet k (accounts st) = Some p ->
               mapGet k (accounts (run ms st)) = Some p)
  /\ (List.length (heap st) <= List.length (heap (run ms st)))%nat
  /\ (List.length (accounts st) <= List.length (accounts (run ms st)))%nat.
Proof.
  revert st. induction ms as [|m ms IH]; intros st Hwf; [simpl; auto|].
  simpl. destruct (apply_keeps m st Hwf) as (Hk & Hh & Ha).
  destruct (IH (apply m st)) as (Hk' & Hh' & Ha'); [now apply apply_preserves|].
  split; [|split]; [auto|lia|lia].
Qed.

Lemma wfHM_grow h h' m :
  wfHM h m -> (List.length h <= List.length h')%nat -> wfHM h' m.
Proof.
  intros (Hk & Hv & Hb) Hle. repeat split; try assumption.
  eapply Forall_impl; [|exact Hb]. intros p Hp. simpl in Hp. lia.
Qed.

Lemma run_wf (ms : list Mutation) (st : t) : wf st -> wf (run ms st).
Proof.
  revert st. induction ms as [|m ms IH]; intros st Hwf; [exact Hwf|].
  simpl. apply IH. now apply apply_preserves.
Qed.

(** X5. No mutation removes an account: an account that exists still
    exists after any sequence of mutations, and [getAccountCount] never
    decreases. *)
Theorem accounts_are_never_removed (ms : list Mutation) (st : t) :
  wf st ->
  (forall address, getAccount address st <> None ->
                   getAccount address (run ms st) <> None)
  /\ (getAccountCount st <= getAccountCount (run ms st))%nat.
Proof.
  intros Hwf. destruct (run_keeps ms st Hwf) as (Hk & _ & Ha).
  split; [|exact Ha].
  intros address H. unfold getAccount in *.
  destruct (mapGet (JS.toLowerCase address) (accounts st)) as [p|] eqn:Hp;
    [|contradiction].
  rewrite (Hk _ _ Hp). discriminate.
Qed.

Lemma accounts_are_never_removed_witness :
  wf Samples.genesisState
  /\ getAccount Samples.addr2
       (run [Transfer Samples.addr2 Samples.addr4 500000000000000000000000000]
          Samples.genesisState) <> None
  /\ (3 <= getAccountCount
             (run [Transfer Samples.addr2 Samples.addr4 500000000000000000000000000]
                Samples.genesisState))%nat.
Proof.
  split; [exact wf_genesisState|].
  destruct (accounts_are_never_removed
              [Transfer Samples.addr2 Samples.addr4 500000000000000000000000000]
              Samples.genesisState wf_genesisState) as [H1 H2].
  split; [apply H1; discriminate|exact H2].
Defined.

(** X6. A snapshot shares the account objects with the live state.  After
    any mutations, [restoreSnapshot] brings back the state root of the
    snapshot and its set of accounts (accounts created since are gone), but
    every account that existed at the snapshot keeps the balance and the
    nonce it had just before the restore, not those of the snapshot. *)
Theorem restoreSnapshot_keeps_later_writes
  (ms : list Mutation) (now : Z) (st : t) (kept : list Snapshot.t) :
  wf st ->
  let snapshot := fst (createSnapshot now st kept) in
  let st1 := run ms st in
  let st2 := restoreSnapshot snapshot st1 in
  getStateRoot st2 = getStateRoot st
  /\ wf st2
  /\ forall address,
       match getAccount address st with
       | None => getAccount address st2 = None
       | Some _ => getAccount address st2 = getAccount address st1
       end.
Proof.
  intros Hwf snapshot st1 st2. subst snapshot st1 st2.
  destruct (run_keeps ms st Hwf) as (Hk & Hh & _).
  split; [reflexivity|]. split.
  - unfold wf, restoreSnapshot. simpl. eapply wfHM_grow; eauto.
  - intros address. unfold getAccount, restoreSnapshot. simpl.
    destruct (mapGet (JS.toLowerCase address) (accounts st)) as [p|] eqn:Hp;
      [|reflexivity].
    now rewrite (Hk _ _ Hp).
Qed.

Lemma restoreSnapshot_keeps_later_writes_witness :
  let ms := [SetBalance Samples.addr1 7; SetBalance Samples.addr4 9] in
  let snapshot := fst (createSnapshot 1700000000000 Samples.genesisState []) in
  let st2 := restoreSnapshot snapshot (run ms Samples.genesisState) in
  wf Samples.genesisState
  /\ getBalance Samples.addr1 Samples.genesisState = 1000000000000000000000000000
  /\ getBalance Samples.addr1 st2 = 7
  /\ getAccount Samples.addr4 st2 = None
  /\ getStateRoot st2 = getStateRoot Samples.genesisState
  /\ String.eqb (getStateRoot st2) (stateRootOf (heap st2) (accounts st2)) = false.
Proof.
  intros ms snapshot st2.
  destruct (restoreSnapshot_keeps_later_writes ms 1700000000000 Samples.genesisState []
              wf_genesisState) as (Hroot & _ & Hacc).
  split; [exact wf_genesisState|]. split; [reflexivity|].
  split; [|split; [|split]].
  - pose proof (Hacc Samples.addr1) as H. cbv beta iota zeta in H.
    change (getAccount Samples.addr1 Samples.genesisState)
      with (Some {| balance := 1000000000000000000000000000; nonce := 0 |}) in H.
    cbv iota in H. unfold getBalance. fold ms in H. fold snapshot in H. fold st2 in H.
    rewrite H. reflexivity.
  - exact (Hacc Samples.addr4).
  - exact Hroot.
  - vm_compute. reflexivity.
Defined.

Lemma pushSnapshot_in (x s : Snapshot.t) (l : list Snapshot.t) :
  In x (pushSnapshot s l) -> x = s \/ In x l.
Proof.
  unfold pushSnapshot. intros H.
  assert (Hin : In x (l ++ [s])).
  { destruct (100 <? List.length (l ++ [s]))%nat; [|exact H].
    destruct (l ++ [s]); [contradiction|now right]. }
  apply in_app_or in Hin. destruct Hin as [Hin|[->|[]]]; auto.
Qed.

Lemma pushSnapshot_length (s : Snapshot.t) (l : list Snapshot.t) :
  (List.length l <= 100)%nat -> (List.length (pushSnapshot s l) <= 100)%nat.
Proof.
  intros H. unfold pushSnapshot.
  destruct (Nat.ltb_spec 100 (List.length (l ++ [s]))) as [Hlt|Hge]; [|exact Hge].
  rewrite length_app in Hlt. simpl in Hlt.
  destruct l as [|x l]; simpl in *; [lia|].
  rewrite length_app. simpl. lia.
Qed.

Lemma exec_anchored (c : Command) (s : Store) :
  anchored s /\ (List.length (snapshots s) <= 100)%nat ->
  anchored (exec c s) /\ (List.length (snapshots (exec c s)) <= 100)%nat.
Proof.
  intros [[Hwf Hsn] Hlen]. destruct c as [m|now|i]; simpl.
  - split; [|exact Hlen]. split; simpl.
    + now apply apply_preserves.
    + eapply Forall_impl; [|exact Hsn]. intros snap H. simpl in H.
      eapply wfHM_grow; [exact H|]. now apply apply_keeps.
  - split; [|now apply pushSnapshot_length]. split; simpl; [exact Hwf|].
    apply Forall_forall. intros x Hx. apply pushSnapshot_in in Hx.
    destruct Hx as [->|Hx]; [exact Hwf|].
    rewrite Forall_forall in Hsn. now apply Hsn.
  - destruct (nth_error (snapshots s) i) as [snap|] eqn:E;
      [|split; [split; assumption|assumption]].
    split; [|exact Hlen]. split; simpl; [|exact Hsn].
    rewrite Forall_forall in Hsn. apply Hsn. eapply nth_error_In; eauto.
Qed.

(** X7. Along any sequence of mutations, snapshots and restores, at most
    100 snapshots are kept, and the accounts stay well formed, also after
    restoring any snapshot that is kept: every address names an account
    object that exists, and no object is filed under two addresses. *)
Theorem snapshots_stay_restorable (cs : list Command) (st : t) :
  wf st ->
  let s := execAll cs {| live := st; snapshots := [] |} in
  wf (live s)
  /\ (List.length (snapshots s) <= 100)%nat
  /\ forall i snapshot,
       nth_error (snapshots s) i = Some snapshot ->
       wf (restoreSnapshot snapshot (live s)).
Proof.
  intros Hwf s.
  assert (H : anchored s /\ (List.length (snapshots s) <= 100)%nat).
  { subst s.
    assert (H0 : anchored {| live := st; snapshots := [] |}
                 /\ (List.length (snapshots {| live := st; snapshots := [] |}) <= 100)%nat)
      by (split; [split; simpl; [exact Hwf|constructor]|simpl; lia]).
    revert H0. generalize {| live := st; snapshots := [] |}.
    induction cs as [|c cs IH]; intros s0 H0; [exact H0|].
    simpl. apply IH. now apply exec_anchored. }
  destruct H as [[Hl Hs] Hn]. split; [exact Hl|]. split; [exact Hn|].
  intros i snapshot Hi. unfold wf, restoreSnapshot. simpl.
  rewrite Forall_forall in Hs. apply Hs. eapply nth_error_In; eauto.
Qed.

Lemma snapshots_stay_restorable_witness :
  let s := execAll [TakeSnapshot 1; Mutate (SetBalance Samples.addr4 9); Restore 0]
             {| live := Samples.genesisState; snapshots := [] |} in
  wf Samples.genesisState
  /\ wf (live s)
  /\ getAccount Samples.addr4 (live s) = None.
Proof.
  intros s. split; [exact wf_genesisState|]. split; [|reflexivity].
  destruct (snapshots_stay_restorable
              [TakeSnapshot 1; Mutate (SetBalance Samples.addr4 9); Restore 0]
              Samples.genesisState wf_genesisState) as (H & _).
  exact H.
Defined.

End Snapshots.

(* ================================================================== *)
(** * Pool operations *)
(* ================================================================== *)

Section PoolOperations.
Import TransactionPool.

(** X8. [addTransaction] admits a transaction exactly when it is valid
    and no transaction with its hash is pending; a refused call leaves the
    pool as it was, and an admitted transaction is found under its hash. *)
Theorem addTransaction_accepts_iff (tx : Transaction.t) (p : t) :
  (snd (addTransaction tx p) = true
   <-> Transaction.validate tx = true
       /\ hasTransaction (Transaction.hash tx) p = false)
  /\ (snd (addTransaction tx p) = false -> fst (addTransaction tx p) = p)
  /\ (snd (addTransaction tx p) = true ->
      getTransaction (Transaction.hash tx) (fst (addTransaction tx p)) = Some tx).
Proof.
  unfold addTransaction, hasTransaction, getTransaction.
  destruct (Transaction.validate tx); simpl.
  - destruct (mapHas (Transaction.hash tx) (pendingTransactions p)); simpl.
    + repeat split; try discriminate; intros H; destruct H; discriminate.
    + repeat split; try discriminate.
      intros _. apply (jsmap_get_set_same String.eqb String.eqb_spec).
  - repeat split; try discriminate; intros H; destruct H; discriminate.
Qed.

(** X9. Below MAX_POOL_SIZE an admitted transaction becomes the newest
    entry: the size grows by one and every transaction that was pending is
    still found (nothing is evicted). *)
Theorem addTransaction_below_capacity (tx : Transaction.t) (p : t) :
  Transaction.validate tx = true ->
  hasTransaction (Transaction.hash tx) p = false ->
  Z.of_nat (getSize p) < MAX_POOL_SIZE ->
  addTransaction tx p
  = ({| pendingTransactions := pendingTransactions p ++ [entryOf tx] |}, true)
  /\ getSize (fst (addTransaction tx p)) = S (getSize p)
  /\ (forall h, hasTransaction h p = true ->
        getTransaction h (fst (addTransaction tx p)) = getTransaction h p).
Proof.
  intros Hv Hh Hs.
  assert (Heq : addTransaction tx p
                = ({| pendingTransactions := pendingTransactions p ++ [entryOf tx] |}, true)).
  { unfold addTransaction. rewrite Hv. simpl negb. cbv iota.
    unfold hasTransaction in Hh. rewrite Hh.
    replace (MAX_POOL_SIZE <=? Z.of_nat (JSMap.size (pendingTransactions p)))
      with false by (symmetry; apply Z.leb_gt; exact Hs).
    f_equal. f_equal. unfold mapSet.
    apply (jsmap_set_absent String.eqb String.eqb_spec).
    unfold mapHas, JSMap.has in Hh.
    destruct (JSMap.get String.eqb (Transaction.hash tx) (pendingTransactions p));
      [discriminate|reflexivity]. }
  rewrite Heq. split; [reflexivity|]. split.
  - unfold getSize, JSMap.size. simpl. rewrite length_app. simpl. lia.
  - intros h Hin. unfold getTransaction, hasTransaction, mapHas, JSMap.has, mapGet in *.
    simpl. rewrite jsmap_get_app.
    destruct (JSMap.get String.eqb h (pendingTransactions p));
      [reflexivity|discriminate].
Qed.


Lemma addTransaction_below_capacity_witness :
  Transaction.validate Samples.payment = true
  /\ hasTransaction (Transaction.hash Samples.payment) create = false
  /\ Z.of_nat (getSize create) < MAX_POOL_SIZE
  /\ getSize (fst (addTransaction Samples.payment create)) = 1%nat.
Proof.
  assert (H1 : Transaction.validate Samples.payment = true) by reflexivity.
  assert (H2 : hasTransaction (Transaction.hash Samples.payment) create = false)
    by reflexivity.
  assert (H3 : Z.of_nat (getSize create) < MAX_POOL_SIZE) by reflexivity.
  split; [exact H1|]. split; [exact H2|]. split; [exact H3|].
  apply (addTransaction_below_capacity Samples.payment create H1 H2 H3).
Defined.

(** X10. [removeTransaction] reports whether the hash was pending;
    afterwards it is not, every other hash is found as before, and the size
    has dropped by one exactly when the hash was pending. *)
Theorem removeTransaction_spec (hash : string) (p : t) :
  NoDup (JSMap.keys (pendingTransactions p)) ->
  let p' := fst (removeTransaction hash p) in
  snd (removeTransaction hash p) = hasTransaction hash p
  /\ hasTransaction hash p' = false
  /\ (forall h, h <> hash -> getTransaction h p' = getTransaction h p)
  /\ getSize p' = (getSize p - (if hasTransaction hash p then 1 else 0))%nat.
Proof.
  intros Hnd p'. subst p'. unfold removeTransaction, hasTransaction, getTransaction,
    getSize, JSMap.size. cbn [fst snd pendingTransactions].
  split; [reflexivity|]. split; [|split].
  - unfold mapHas, JSMap.has, mapDelete.
    now rewrite (jsmap_get_delete_same String.eqb String.eqb_spec).
  - intros h Hne. unfold mapGet, mapDelete.
    now apply (jsmap_get_delete_other String.eqb String.eqb_spec).
  - destruct (mapHas hash (pendingTransactions p)) eqn:E.
    + apply mapHas_true_iff in E.
      pose proof (jsmap_length_delete_present String.eqb String.eqb_spec hash
                    (pendingTransactions p) E) as H.
      unfold mapDelete. lia.
    + apply mapHas_false_iff in E. unfold mapDelete.
      rewrite (jsmap_delete_absent String.eqb String.eqb_spec) by exact E. lia.
Qed.

Lemma removeTransaction_spec_witness :
  NoDup (JSMap.keys (pendingTransactions Samples.poolOfTwo))
  /\ snd (removeTransaction "a1" Samples.poolOfTwo) = true
  /\ hasTransaction "a1" (fst (removeTransaction "a1" Samples.poolOfTwo)) = false
  /\ getSize (fst (removeTransaction "a1" Samples.poolOfTwo)) = 1%nat.
Proof.
  assert (Hnd : NoDup (JSMap.keys (pendingTransactions Samples.poolOfTwo))).
  { repeat constructor; simpl; intuition discriminate. }
  destruct (removeTransaction_spec "a1" Samples.poolOfTwo Hnd) as (H1 & H2 & _ & H4).
  split; [exact Hnd|]. split; [exact H1|]. split; [exact H2|exact H4].
Defined.

(** X11. Below capacity, removing an admitted transaction again gives back
    the pool as it was before the transaction was admitted. *)
Theorem add_then_remove (tx : Transaction.t) (p : t) :
  Transaction.validate tx = true ->
  hasTransaction (Transaction.hash tx) p = false ->
  Z.of_nat (getSize p) < MAX_POOL_SIZE ->
  removeTransaction (Transaction.hash tx) (fst (addTransaction tx p)) = (p, true).
Proof.
  intros Hv Hh Hs.
  assert (Heq : addTransaction tx p
                = ({| pendingTransactions := pendingTransactions p ++ [entryOf tx] |}, true)).
  { unfold addTransaction. rewrite Hv. simpl negb. cbv iota.
    unfold hasTransaction in Hh. rewrite Hh.
    replace (MAX_POOL_SIZE <=? Z.of_nat (JSMap.size (pendingTransactions p)))
      with false by (symmetry; apply Z.leb_gt; exact Hs).
    f_equal. f_equal. unfold mapSet.
    apply (jsmap_set_absent String.eqb String.eqb_spec).
    unfold mapHas, JSMap.has in Hh.
    destruct (JSMap.get String.eqb (Transaction.hash tx) (pendingTransactions p));
      [discriminate|reflexivity]. }
  rewrite Heq. unfold removeTransaction. cbn [fst pendingTransactions].
  apply mapHas_false_iff in Hh. unfold entryOf, mapDelete. f_equal.
  - rewrite (jsmap_delete_last String.eqb String.eqb_spec) by exact Hh.
    now destruct p.
  - apply mapHas_true_iff. unfold JSMap.keys. rewrite map_app. apply in_or_app.
    right. now left.
Qed.

Lemma add_then_remove_witness :
  Transaction.validate Samples.received = true
  /\ hasTransaction "a2" (fst (addTransaction Samples.payment create)) = false
  /\ removeTransaction "a2" Samples.poolOfTwo
     = (fst (addTransaction Samples.payment create), true).
Proof.
  assert (H1 : Transaction.validate Samples.received = true) by reflexivity.
  assert (H2 : hasTransaction (Transaction.hash Samples.received)
                 (fst (addTransaction Samples.payment create)) = false) by reflexivity.
  assert (H3 : Z.of_nat (getSize (fst (addTransaction Samples.payment create)))
               < MAX_POOL_SIZE) by reflexivity.
  split; [exact H1|]. split; [exact H2|].
  apply (add_then_remove Samples.received _ H1 H2 H3).
Defined.

End PoolOperations.

(* ================================================================== *)
(** * The order of pending transactions *)
(* ================================================================== *)

Section PendingOrder.
Import TransactionPool.

Ltac split_eqb :=
  repeat match goal with
         | |- context [?a =? ?b] => destruct (Z.eqb_spec a b)
         end.

Lemma pendingCompare_flip (a b : Transaction.t) :
  0 < pendingCompare a b -> pendingCompare b a <= 0.
Proof.
  unfold pendingCompare, JS.toNumber.
  generalize (JS.parseFloat (Transaction.gasPrice a)) as pa.
  generalize (JS.parseFloat (Transaction.gasPrice b)) as pb.
  generalize (JS.parseFloat (Transaction.nonce a)) as na.
  generalize (JS.parseFloat (Transaction.nonce b)) as nb.
  intros nb na pb pa. cbv zeta.
  destruct pa, pb; simpl; try lia; split_eqb; simpl; try lia;
    destruct na, nb; simpl; lia.
Qed.

Lemma pendingCompare_trans (a b c : Transaction.t) :
  pendingCompare a b <= 0 -> pendingCompare b c <= 0 -> pendingCompare a c <= 0.
Proof.
  unfold pendingCompare, JS.toNumber.
  generalize (JS.parseFloat (Transaction.gasPrice a)) as pa.
  generalize (JS.parseFloat (Transaction.gasPrice b)) as pb.
  generalize (JS.parseFloat (Transaction.gasPrice c)) as pc.
  generalize (JS.parseFloat (Transaction.nonce a)) as na.
  generalize (JS.parseFloat (Transaction.nonce b)) as nb.
  generalize (JS.parseFloat (Transaction.nonce c)) as nc.
  intros nc nb na pc pb pa. cbv zeta.
  destruct pa, pb, pc; simpl; try lia; split_eqb; simpl; try lia;
    destruct na, nb, nc; simpl; lia.
Qed.

Lemma pendingCompare_mayPrecede (a b : Transaction.t) :
  pendingCompare a b <= 0 -> mayPrecede a b.
Proof.
  unfold pendingCompare, mayPrecede, priceOf, JS.leNumber, JS.toNumber.
  generalize (JS.parseFloat (Transaction.gasPrice a)) as pa.
  generalize (JS.parseFloat (Transaction.gasPrice b)) as pb.
  generalize (JS.parseFloat (Transaction.nonce a)) as na.
  generalize (JS.parseFloat (Transaction.nonce b)) as nb.
  intros nb na pb pa. cbv zeta. intros H. split.
  - destruct pa, pb; simpl in *; try lia; revert H; split_eqb; simpl; lia.
  - intros x -> ->. simpl in H. revert H.
    replace (x - x) with 0 by lia. simpl. trivial.
Qed.

Lemma sorted_weaken {A : Type} (R S : A -> A -> Prop) (l : list A) :
  (forall a b, R a b -> S a b) -> StronglySorted R l -> StronglySorted S l.
Proof.
  intros HRS. induction 1 as [|x l _ IH Hx]; constructor; [exact IH|].
  eapply Forall_impl; [|exact Hx]. intros b. apply HRS.
Qed.

Lemma sorted_firstn {A : Type} (R : A -> A -> Prop) (n : nat) (l : list A) :
  StronglySorted R l -> StronglySorted R (firstn n l).
Proof.
  intros H. revert n. induction H as [|x l _ IH Hx]; intros [|n]; simpl;
    try constructor.
  - apply IH.
  - apply Forall_forall. intros b Hb. rewrite Forall_forall in Hx. apply Hx.
    eapply in_firstn_in; eauto.
Qed.

(** Integers below 2^53 are doubles. *)
Lemma parseFloat_exact (z : Z) : 0 <= z < 2 ^ 53 -> JS.parseFloat z = JS.Finite z.
Proof.
  intros [H0 H1]. unfold JS.parseFloat, JS.roundToDouble.
  rewrite Z.abs_eq by exact H0.
  assert (Hlog : Z.log2 z < 53).
  { destruct (Z.eq_dec z 0) as [->|Hz]; [reflexivity|].
    apply Z.log2_lt_pow2; lia. }
  replace (Z.log2 z + 1 <=? 53) with true by (symmetry; apply Z.leb_le; lia).
  replace (1024 <=? Z.log2 z) with false by (symmetry; apply Z.leb_gt; lia).
  f_equal. destruct z; simpl; lia.
Qed.

(** X12. For a limit of 0 or more, [getPendingTransactions] returns
    min(limit, size) pending transactions in the order of non-increasing
    gas price and, at the same finite gas price, of non-decreasing nonce
    (both read as doubles); no transaction that is left out offers more
    than one that is returned.  With gas prices below 2^53 the order is
    that of the integers. *)
Theorem getPendingTransactions_best_first (limit : Z) (p : t) :
  0 <= limit ->
  let txs := getPendingTransactions limit p in
  Z.of_nat (List.length txs) = Z.min limit (Z.of_nat (getSize p))
  /\ StronglySorted mayPrecede txs
  /\ (exists rest,
        Permutation (txs ++ rest) (JSMap.values (pendingTransactions p))
        /\ forall a b, In a txs -> In b rest -> mayPrecede a b)
  /\ ((forall tx, In tx (JSMap.values (pendingTransactions p)) ->
                  0 <= Transaction.gasPrice tx < 2 ^ 53) ->
      StronglySorted (fun a b => Transaction.gasPrice b <= Transaction.gasPrice a) txs).
Proof.
  intros Hl txs. subst txs. unfold getPendingTransactions, JS.sliceTo.
  replace (limit <? 0) with false by (symmetry; apply Z.ltb_ge; exact Hl).
  set (l := JSMap.values (pendingTransactions p)).
  set (s := JS.sortBy pendingCompare l).
  assert (Hs : StronglySorted (fun x y => pendingCompare x y <= 0) s)
    by (apply sortBy_sorted; [apply pendingCompare_flip|apply pendingCompare_trans]).
  assert (Hm : StronglySorted mayPrecede s)
    by (eapply sorted_weaken; [apply pendingCompare_mayPrecede|exact Hs]).
  split; [|split; [|split]].
  - rewrite length_firstn. unfold s. rewrite sortBy_length.
    unfold l, getSize, JSMap.size, JSMap.values. rewrite length_map. lia.
  - apply sorted_firstn. exact Hm.
  - exists (skipn (Z.to_nat limit) s). split.
    + rewrite firstn_skipn. apply sortBy_perm.
    + apply sorted_app_le. rewrite firstn_skipn. exact Hm.
  - intros Hb. apply sorted_firstn.
    assert (Hin : forall tx, In tx s -> 0 <= Transaction.gasPrice tx < 2 ^ 53)
      by (intros tx Htx; apply Hb; apply (sortBy_in pendingCompare); exact Htx).
    clearbody s. clear Hs. induction Hm as [|x s' Hs' IH Hx]; constructor.
    + apply IH. intros tx Htx. apply Hin. now right.
    + apply Forall_forall. intros b Hbin. rewrite Forall_forall in Hx.
      destruct (Hx b Hbin) as [Hle _]. unfold priceOf, JS.leNumber in Hle.
      rewrite !parseFloat_exact in Hle by (apply Hin; simpl; auto).
      exact (proj1 (subSign_le_finite _ _) Hle).
Qed.

Lemma getPendingTransactions_best_first_witness :
  0 <= 1
  /\ map Transaction.hash (JSMap.values (pendingTransactions Samples.auction))
     = ["tx3"; "tx7"; "tx5"]%string
  /\ StronglySorted mayPrecede (getPendingTransactions 1 Samples.auction)
  /\ map Transaction.hash (getPendingTransactions 1 Samples.auction) = ["tx7"]%string.
Proof.
  assert (H0 : 0 <= 1) by lia.
  split; [exact H0|]. split; [reflexivity|]. split; [|reflexivity].
  apply (getPendingTransactions_best_first 1 Samples.auction H0).
Defined.

End PendingOrder.

(* ================================================================== *)
(** * Histories of a pool *)
(* ================================================================== *)

Section PoolHistory.
Import TransactionPool.

(** X13. [getTransactionsByAddress] and [getPendingNonce] of the pool
    return, the empty list and 0, on the empty pool only: as soon as one
    transaction is pending, both throw a TypeError, whatever the address. *)
Theorem getPendingNonce_empty_or_throws (address : string) (p : t) :
  match JSMap.values (pendingTransactions p) with
  | [] =>
      getTransactionsByAddress address p = JS.Returns []
      /\ getPendingNonce address p = JS.Returns 0
  | _ :: _ =>
      getTransactionsByAddress address p = JS.Throws JS.TypeError
      /\ getPendingNonce address p = JS.Throws JS.TypeError
  end.
Proof.
  unfold getPendingNonce, getTransactionsByAddress.
  destruct (JSMap.values (pendingTransactions p)) as [|tx rest];
    split; reflexivity.
Qed.

Lemma jsmap_in_set (k : string) (v : Transaction.t) (m : JSMap.t string Transaction.t)
  (e : string * Transaction.t) :
  In e (mapSet k v m) -> e = (k, v) \/ In e m.
Proof.
  unfold mapSet. induction m as [|[k' v'] m IH]; simpl.
  - intros [H|[]]; auto.
  - destruct (String.eqb k k'); simpl.
    + intros [H|H]; auto.
    + intros [H|H]; auto. destruct (IH H); auto.
Qed.

Lemma evict_subset (p : t) (e : string * Transaction.t) :
  NoDup (JSMap.keys (pendingTransactions p)) ->
  In e (pendingTransactions (evictLowestFeeTransactions p)) ->
  In e (pendingTransactions p).
Proof.
  intros Hnd Hin.
  destruct (evict_spec p Hnd) as (_ & _ & Hiff & _).
  apply Hiff in Hin.
  apply (sortBy_in feeCompare).
  rewrite <- (firstn_skipn (removeCount (List.length (pendingTransactions p)))).
  apply in_or_app. now right.
Qed.

Lemma step_orderly (o : Op) (p : t) :
  orderly p /\ Z.of_nat (getSize p) <= MAX_POOL_SIZE ->
  orderly (step o p) /\ Z.of_nat (getSize (step o p)) <= MAX_POOL_SIZE.
Proof.
  intros [[Hnd Hall] Hsz]. destruct o as [tx|hash|]; simpl step.
  - split; [|now apply addTransaction_bounded]. split;
      [now apply addTransaction_nodup|].
    unfold addTransaction.
    destruct (Transaction.validate tx) eqn:Hv; [|exact Hall]. simpl negb. cbv iota.
    destruct (mapHas (Transaction.hash tx) (pendingTransactions p)); [exact Hall|].
    cbn [fst pendingTransactions Transaction.hash].
    apply Forall_forall. intros e He. apply jsmap_in_set in He.
    destruct He as [->|He]; [split; [reflexivity|exact Hv]|].
    rewrite Forall_forall in Hall. apply Hall.
    destruct (MAX_POOL_SIZE <=? Z.of_nat (JSMap.size (pendingTransactions p)));
      [now apply evict_subset|exact He].
  - unfold removeTransaction. cbn [fst].
    split; [split|]; cbn [pendingTransactions].
    + apply (jsmap_keys_delete_nodup String.eqb String.eqb_spec). exact Hnd.
    + apply Forall_forall. intros e He.
      apply (jsmap_in_delete String.eqb String.eqb_spec hash e _ Hnd) in He.
      rewrite Forall_forall in Hall. apply Hall. apply He.
    + unfold getSize, JSMap.size in *. cbn [pendingTransactions].
      destruct (in_dec string_dec hash (JSMap.keys (pendingTransactions p))) as [Hin|Hn].
      * pose proof (jsmap_length_delete_present String.eqb String.eqb_spec hash _ Hin).
        unfold mapDelete. lia.
      * unfold mapDelete.
        rewrite (jsmap_delete_absent String.eqb String.eqb_spec) by exact Hn. lia.
  - split; [split|]; simpl; [constructor|constructor|].
    unfold MAX_POOL_SIZE. lia.
Qed.

Lemma steps_orderly (l : list Op) (p : t) :
  orderly p /\ Z.of_nat (getSize p) <= MAX_POOL_SIZE ->
  orderly (steps l p) /\ Z.of_nat (getSize (steps l p)) <= MAX_POOL_SIZE.
Proof.
  revert p. induction l as [|o l IH]; intros p H; [exact H|].
  simpl. apply IH. now apply step_orderly.
Qed.

Lemma create_orderly : orderly create /\ Z.of_nat (getSize create) <= MAX_POOL_SIZE.
Proof. split; [split; simpl; constructor|]. unfold MAX_POOL_SIZE. simpl. lia. Qed.

(** X14. Whatever sequence of [addTransaction], [removeTransaction] and
    [clear] a pool goes through from its creation: no hash is filed twice,
    every pending transaction is valid and filed under its own hash, and
    the size never exceeds MAX_POOL_SIZE. *)
Theorem pool_stays_orderly (l : list Op) :
  let p := steps l create in
  orderly p
  /\ Z.of_nat (getSize p) <= MAX_POOL_SIZE
  /\ forall h tx, getTransaction h p = Some tx ->
       Transaction.hash tx = h /\ Transaction.validate tx = true.
Proof.
  intros p.
  assert (H : orderly p /\ Z.of_nat (getSize p) <= MAX_POOL_SIZE)
    by (apply steps_orderly, create_orderly).
  destruct H as [Ho Hs]. split; [exact Ho|]. split; [exact Hs|].
  intros h tx Hg. destruct Ho as [_ Hall]. rewrite Forall_forall in Hall.
  unfold getTransaction, mapGet in Hg.
  apply (jsmap_get_some_in String.eqb String.eqb_spec) in Hg.
  destruct (Hall _ Hg) as [H1 H2]. simpl in *. split; [now symmetry|exact H2].
Qed.

End PoolHistory.

(* ================================================================== *)
(** * Growth of the chain *)
(* ================================================================== *)

Section ChainGrowth.
Import Chain.

Lemma has_get {V : Type} (k : string) (m : JSMap.t string V) :
  JSMap.has String.eqb k m = false <-> JSMap.get String.eqb k m = None.
Proof.
  unfold JSMap.has. destruct (JSMap.get String.eqb k m); split; congruence.
Qed.

(** The four checks of [addBlock], and the chain it builds when they pass. *)
Lemma addBlock_cases (calculateHash : Block.Digest) (block : Block.t) (c : t) :
  (Block.validate calculateHash block = true
   /\ getBlock (Block.hash block) c = None
   /\ getBlock (Block.parentHash (Block.header block)) c <> None
   /\ Block.number (Block.header block) = Z.of_nat (S (currentHeight c))
   /\ addBlock calculateHash block c
      = ({| blocks := JSMap.set String.eqb (Block.hash block) block (blocks c);
            blocksByNumber :=
              JSMap.set Nat.eqb (S (currentHeight c)) block (blocksByNumber c);
            currentHeight := S (currentHeight c);
            genesisBlock := genesisBlock c;
            stateManager :=
              fst (applyBlockTransactions (Block.transactions block)
                     (stateManager c) (transactionPool c));
            transactionPool :=
              snd (applyBlockTransactions (Block.transactions block)
                     (stateManager c) (transactionPool c)) |},
         true))
  \/ ((Block.validate calculateHash block = false
       \/ getBlock (Block.hash block) c <> None
       \/ getBlock (Block.parentHash (Block.header block)) c = None
       \/ Block.number (Block.header block) <> Z.of_nat (S (currentHeight c)))
      /\ addBlock calculateHash block c = (c, false)).
Proof.
  unfold addBlock, getBlock. cbv zeta.
  destruct (Block.validate calculateHash block); cbn [negb]; [|right; auto].
  destruct (JSMap.has String.eqb (Block.hash block) (blocks c)) eqn:Hh.
  { right. split; [|reflexivity]. right. left. intros H. apply has_get in H. congruence. }
  apply has_get in Hh.
  destruct (Z.eqb_spec (Block.number (Block.header block)) (Z.of_nat (S (currentHeight c))))
    as [Hn|Hn]; cbn [negb].
  - destruct (JSMap.has String.eqb (Block.parentHash (Block.header block)) (blocks c)) eqn:Hp;
      cbn [negb andb].
    + left.
      destruct (applyBlockTransactions _ _ _) as [sm pool].
      repeat split; try assumption.
      intros H. apply has_get in H. congruence.
    + apply has_get in Hp. right. split; [auto|].
      replace (0 <? Block.number (Block.header block)) with true
        by (symmetry; apply Z.ltb_lt; lia).
      reflexivity.
  - right. split; [auto|].
    destruct (negb _ && _); reflexivity.
Qed.

(** X15. [addBlock] accepts a block exactly when the block is valid, its
    hash is new, its parent hash is the hash of some block of the chain
    (not necessarily of the latest one) and its number is the current
    height plus one; a rejected block leaves the chain, the accounts and
    the pool as they were.  A valid block stores the digest of its header
    as it is now: a block whose header was written to after the constructor
    hashed it is rejected. *)
Theorem addBlock_accepts_iff (calculateHash : Block.Digest) (block : Block.t)
  (c : t) :
  (snd (addBlock calculateHash block c) = true
   <-> Block.validate calculateHash block = true
       /\ getBlock (Block.hash block) c = None
       /\ getBlock (Block.parentHash (Block.header block)) c <> None
       /\ Block.number (Block.header block) = Z.of_nat (getHeight c) + 1)
  /\ (snd (addBlock calculateHash block c) = false ->
      fst (addBlock calculateHash block c) = c)
  /\ (Block.validate calculateHash block = true
      <-> 0 <= Block.number (Block.header block)
          /\ 0 < Block.timestamp (Block.header block)
          /\ 0 < Block.gasLimit (Block.header block)
          /\ Block.gasUsed (Block.header block) <= Block.gasLimit (Block.header block)
          /\ Forall (fun tx => Transaction.validate tx = true)
               (Block.transactions block)
          /\ calculateHash (Block.header block) = Block.hash block).
Proof.
  unfold getHeight. split; [|split].
  - destruct (addBlock_cases calculateHash block c)
      as [(Hv & Hh & Hp & Hn & ->)|[Hbad ->]]; simpl.
    + split; [|reflexivity].
      intros _. repeat split; try assumption. lia.
    + split; [discriminate|].
      intros (Hv & Hh & Hp & Hn).
      destruct Hbad as [H|[H|[H|H]]]; try congruence.
      exfalso. apply H. lia.
  - destruct (addBlock_cases calculateHash block c)
      as [(Hv & Hh & Hp & Hn & ->)|[Hbad ->]]; simpl; [discriminate|reflexivity].
  - unfold Block.validate.
    destruct (Z.ltb_spec (Block.number (Block.header block)) 0);
      [split; [discriminate|lia]|].
    destruct (Z.leb_spec (Block.timestamp (Block.header block)) 0);
      [split; [discriminate|lia]|].
    destruct (Z.leb_spec (Block.gasLimit (Block.header block)) 0);
      cbn [orb]; [split; [discriminate|lia]|].
    destruct (Z.ltb_spec (Block.gasLimit (Block.header block))
                (Block.gasUsed (Block.header block)));
      [split; [discriminate|lia]|].
    destruct (forallb Transaction.validate (Block.transactions block)) eqn:Hall;
      cbn [negb].
    + assert (HF : Forall (fun tx => Transaction.validate tx = true)
                     (Block.transactions block))
        by (apply Forall_forall; exact (proj1 (forallb_forall _ _) Hall)).
      destruct (String.eqb_spec (calculateHash (Block.header block)) (Block.hash block))
        as [E|E]; cbn [negb].
      * split; [intros _; repeat split; assumption || lia | reflexivity].
      * split; [discriminate|]. intros (_ & _ & _ & _ & _ & E'). contradiction.
    + split; [discriminate|]. intros (_ & _ & _ & _ & HF & _).
      rewrite Forall_forall in HF.
      pose proof (proj2 (forallb_forall _ _) HF). congruence.
Qed.

(** The theorem on [paidBlock], as the constructor built it and after its
    [gasUsed] was overwritten. *)
Lemma addBlock_accepts_iff_witness :
  snd (addBlock Samples.calculateHash Samples.paidBlock Samples.genesisChain) = true
  /\ Block.transactions Samples.alteredBlock = Block.transactions Samples.paidBlock
  /\ Block.hash Samples.alteredBlock = Block.hash Samples.paidBlock
  /\ Block.validate Samples.calculateHash Samples.alteredBlock = false
  /\ snd (addBlock Samples.calculateHash Samples.alteredBlock Samples.genesisChain)
     = false.
Proof.
  destruct (addBlock_accepts_iff Samples.calculateHash Samples.alteredBlock
              Samples.genesisChain) as (Hiff & _ & _).
  assert (Hv : Block.validate Samples.calculateHash Samples.alteredBlock = false)
    by (vm_compute; reflexivity).
  split; [vm_compute; reflexivity|]. split; [reflexivity|]. split; [reflexivity|].
  split; [exact Hv|].
  destruct (snd (addBlock Samples.calculateHash Samples.alteredBlock
                   Samples.genesisChain)) eqn:E; [|reflexivity].
  destruct (proj1 Hiff eq_refl) as (Hv' & _). congruence.
Defined.

(** The state after the loop of [addBlock] is the one that
    [processTransaction] yields over the transactions in order. *)
Lemma applyBlockTransactions_state (txs : list Transaction.t)
  (sm : StateManager.t) (pool : TransactionPool.t) :
  fst (applyBlockTransactions txs sm pool)
  = StateManager.run (map StateManager.ProcessTransaction txs) sm.
Proof.
  unfold applyBlockTransactions, StateManager.run.
  revert sm pool. induction txs as [|tx txs IH]; intros sm pool; [reflexivity|].
  simpl. apply IH.
Qed.

Lemma applyBlockTransactions_pool (txs : list Transaction.t)
  (sm : StateManager.t) (pool : TransactionPool.t) :
  snd (applyBlockTransactions txs sm pool)
  = TransactionPool.steps
      (map (fun tx => TransactionPool.Remove (Transaction.hash tx)) txs) pool.
Proof.
  unfold applyBlockTransactions, TransactionPool.steps.
  revert sm pool. induction txs as [|tx txs IH]; intros sm pool; [reflexivity|].
  simpl. apply IH.
Qed.

Lemma removals_spec (txs : list Transaction.t) (pool : TransactionPool.t) :
  NoDup (JSMap.keys (TransactionPool.pendingTransactions pool)) ->
  let pool' :=
    TransactionPool.steps
      (map (fun tx => TransactionPool.Remove (Transaction.hash tx)) txs) pool in
  NoDup (JSMap.keys (TransactionPool.pendingTransactions pool'))
  /\ forall h,
       TransactionPool.getTransaction h pool'
       = if existsb (fun tx => String.eqb (Transaction.hash tx) h) txs
         then None
         else TransactionPool.getTransaction h pool.
Proof.
  revert pool. induction txs as [|tx txs IH]; intros pool Hnd; simpl.
  - split; [exact Hnd|reflexivity].
  - set (pool1 := fst (TransactionPool.removeTransaction (Transaction.hash tx) pool)).
    assert (Hnd1 : NoDup (JSMap.keys (TransactionPool.pendingTransactions pool1)))
      by (apply (jsmap_keys_delete_nodup String.eqb String.eqb_spec); exact Hnd).
    destruct (IH pool1 Hnd1) as [Hnd' Hget]. split; [exact Hnd'|].
    intros h. rewrite Hget.
    destruct (existsb (fun tx0 => String.eqb (Transaction.hash tx0) h) txs);
      [now rewrite orb_true_r|].
    rewrite orb_false_r.
    unfold pool1, TransactionPool.getTransaction, TransactionPool.removeTransaction,
      TransactionPool.mapGet, TransactionPool.mapDelete.
    cbn [fst TransactionPool.pendingTransactions].
    destruct (String.eqb_spec (Transaction.hash tx) h) as [->|Hne].
    + now apply (jsmap_get_delete_same String.eqb String.eqb_spec).
    + apply (jsmap_get_delete_other String.eqb String.eqb_spec). congruence.
Qed.


(** X16. An accepted block raises the height by one, is the latest block
    and the block at the new height, and is found under its hash; earlier
    lookups by hash or by number answer as before; the accounts are those
    that [processTransaction] yields over its transactions in order,
    rejected ones being skipped; none of its transactions is pending
    afterwards. *)
Theorem addBlock_extends (calculateHash : Block.Digest) (block : Block.t) (c : t) :
  snd (addBlock calculateHash block c) = true ->
  let c' := fst (addBlock calculateHash block c) in
  getHeight c' = S (getHeight c)
  /\ getLatestBlock c' = block
  /\ getBlockByNumber (S (getHeight c)) c' = Some block
  /\ getBlock (Block.hash block) c' = Some block
  /\ (forall h, h <> Block.hash block -> getBlock h c' = getBlock h c)
  /\ (forall n, n <> S (getHeight c) ->
        getBlockByNumber n c' = getBlockByNumber n c)
  /\ stateManager c'
     = StateManager.run
         (map StateManager.ProcessTransaction (Block.transactions block))
         (stateManager c)
  /\ (NoDup (JSMap.keys (TransactionPool.pendingTransactions (transactionPool c))) ->
      forall tx, In tx (Block.transactions block) ->
        TransactionPool.hasTransaction (Transaction.hash tx) (transactionPool c') = false).
Proof.
  intros Hok c'. subst c'.
  destruct (addBlock_cases calculateHash block c) as [(_ & _ & _ & _ & Heq)|[_ Heq]];
    rewrite Heq in *; [|discriminate].
  unfold getHeight, getLatestBlock, getBlockByNumber, getBlock, byNumber.
  cbn [fst blocks blocksByNumber currentHeight stateManager transactionPool].
  rewrite (jsmap_get_set_same Nat.eqb Nat.eqb_spec).
  rewrite (jsmap_get_set_same String.eqb String.eqb_spec).
  repeat split.
  - intros h Hne. now apply (jsmap_get_set_other String.eqb String.eqb_spec).
  - intros n Hne. now apply (jsmap_get_set_other Nat.eqb Nat.eqb_spec).
  - apply applyBlockTransactions_state.
  - intros Hnd tx Hin. rewrite applyBlockTransactions_pool.
    destruct (removals_spec (Block.transactions block) (transactionPool c) Hnd)
      as [_ Hget].
    specialize (Hget (Transaction.hash tx)).
    replace (existsb (fun tx0 => String.eqb (Transaction.hash tx0) (Transaction.hash tx))
               (Block.transactions block)) with true in Hget.
    + unfold TransactionPool.hasTransaction, TransactionPool.mapHas, JSMap.has.
      unfold TransactionPool.getTransaction, TransactionPool.mapGet in Hget.
      now rewrite Hget.
    + symmetry. apply existsb_exists. exists tx. split; [exact Hin|].
      apply String.eqb_refl.
Qed.

Lemma addBlock_extends_witness :
  snd (addBlock Samples.calculateHash Samples.blockOne Samples.genesisChain) = true
  /\ getHeight Samples.chainOfOne = 1%nat
  /\ getLatestBlock Samples.chainOfOne = Samples.blockOne.
Proof.
  assert (H : snd (addBlock Samples.calculateHash Samples.blockOne
                     Samples.genesisChain) = true)
    by reflexivity.
  split; [exact H|].
  destruct (addBlock_extends Samples.calculateHash Samples.blockOne
              Samples.genesisChain H)
    as (H1 & H2 & _).
  split; [exact H1|exact H2].
Defined.

Lemma create_consistent (calculateHash : Block.Digest) (now : Z) :
  consistent (create calculateHash now).
Proof.
  unfold consistent, create, byNumber. cbn [blocks blocksByNumber currentHeight].
  split; [|split].
  - intros n Hn. assert (n = 0%nat) as -> by lia.
    eexists. split; [reflexivity|]. split; [reflexivity|].
    simpl. now rewrite String.eqb_refl.
  - intros n Hn. simpl. destruct n; [lia|reflexivity].
  - intros h block. cbn [JSMap.get].
    destruct (String.eqb_spec h (Block.hash (Block.createGenesis calculateHash now)))
      as [->|]; [|discriminate].
    intros H. now inversion H.
Qed.

Lemma addBlock_consistent (calculateHash : Block.Digest) (block : Block.t) (c : t) :
  consistent c -> consistent (fst (addBlock calculateHash block c)).
Proof.
  intros (H1 & H2 & H3).
  destruct (addBlock_cases calculateHash block c) as [(_ & Hh & _ & Hn & ->)|[_ ->]];
    [|now repeat split].
  unfold consistent, byNumber, getBlock in *.
  cbn [fst blocks blocksByNumber currentHeight].
  split; [|split].
  - intros n Hle. destruct (Nat.eq_dec n (S (currentHeight c))) as [->|Hne].
    + exists block.
      rewrite (jsmap_get_set_same Nat.eqb Nat.eqb_spec).
      rewrite (jsmap_get_set_same String.eqb String.eqb_spec). auto.
    + destruct (H1 n) as (b & Hb & Hnum & Hget); [lia|].
      exists b.
      rewrite (jsmap_get_set_other Nat.eqb Nat.eqb_spec) by exact Hne.
      rewrite (jsmap_get_set_other String.eqb String.eqb_spec) by congruence.
      auto.
  - intros n Hlt.
    rewrite (jsmap_get_set_other Nat.eqb Nat.eqb_spec) by lia.
    apply H2. lia.
  - intros h b. destruct (String.eqb_spec h (Block.hash block)) as [->|Hne].
    + rewrite (jsmap_get_set_same String.eqb String.eqb_spec).
      intros H. now inversion H.
    + rewrite (jsmap_get_set_other String.eqb String.eqb_spec) by exact Hne.
      apply H3.
Qed.

Lemma step_consistent (calculateHash : Block.Digest) (o : Op) (c : t) :
  consistent c -> consistent (step calculateHash o c).
Proof.
  intros H. destruct o as [block|tx]; simpl.
  - now apply addBlock_consistent.
  - unfold addTransaction.
    destruct (TransactionPool.addTransaction tx (transactionPool c)). exact H.
Qed.

Lemma steps_consistent (calculateHash : Block.Digest) (l : list Op) (c : t) :
  consistent c -> consistent (steps calculateHash l c).
Proof.
  revert c. induction l as [|o l IH]; intros c H; [exact H|].
  simpl. apply IH. now apply step_consistent.
Qed.

Lemma step_pool (calculateHash : Block.Digest) (o : Op) (c : t) :
  exists ops,
    transactionPool (step calculateHash o c)
    = TransactionPool.steps ops (transactionPool c).
Proof.
  destruct o as [block|tx]; simpl.
  - destruct (addBlock_cases calculateHash block c) as [(_ & _ & _ & _ & ->)|[_ ->]].
    + cbn [fst transactionPool]. rewrite applyBlockTransactions_pool. eauto.
    + exists []. reflexivity.
  - exists [TransactionPool.Add tx]. unfold addTransaction.
    destruct (TransactionPool.addTransaction tx (transactionPool c)) eqn:E.
    simpl. now rewrite E.
Qed.

Lemma steps_pool (calculateHash : Block.Digest) (l : list Op) (c : t) :
  exists ops,
    transactionPool (steps calculateHash l c)
    = TransactionPool.steps ops (transactionPool c).
Proof.
  revert c. induction l as [|o l IH]; intros c; [exists []; reflexivity|].
  simpl. destruct (IH (step calculateHash o c)) as (ops2 & H2).
  destruct (step_pool calculateHash o c) as (ops1 & H1).
  exists (ops1 ++ ops2). rewrite H2, H1.
  unfold TransactionPool.steps. now rewrite fold_left_app.
Qed.

(** X17. In every chain built from [new Chain()] by [addBlock] and
    [addTransaction], each height up to the current one holds a block of
    that number, which is also found under its hash; nothing is filed above
    the current height; the latest block carries the current height; and
    height 0 holds the genesis block. *)
Theorem chain_stays_consistent (calculateHash : Block.Digest) (l : list Op) (now : Z) :
  let c := steps calculateHash l (create calculateHash now) in
  (forall n, (n <= getHeight c)%nat ->
     exists block,
       getBlockByNumber n c = Some block
       /\ Block.number (Block.header block) = Z.of_nat n
       /\ getBlock (Block.hash block) c = Some block)
  /\ (forall n, (getHeight c < n)%nat -> getBlockByNumber n c = None)
  /\ Block.number (Block.header (getLatestBlock c)) = Z.of_nat (getHeight c)
  /\ getBlockByNumber 0 c = Some (genesisBlock c).
Proof.
  intros c.
  assert (Hc : consistent c) by (apply steps_consistent, create_consistent).
  destruct Hc as (H1 & H2 & _). split; [exact H1|]. split; [exact H2|]. split.
  - unfold getLatestBlock, getHeight.
    destruct (H1 (currentHeight c)) as (b & Hb & Hn & _); [lia|].
    now rewrite Hb.
  - subst c. clear H1 H2. unfold getBlockByNumber.
    assert (H0 : byNumber 0 (blocksByNumber (create calculateHash now))
                 = Some (genesisBlock (create calculateHash now))) by reflexivity.
    revert H0. generalize (create calculateHash now).
    induction l as [|o l IH]; intros c0 H0; [exact H0|].
    change (steps calculateHash (o :: l) c0)
      with (steps calculateHash l (step calculateHash o c0)).
    apply IH. destruct o as [block|tx]; cbn [step].
    + destruct (addBlock_cases calculateHash block c0) as [(_ & _ & _ & _ & ->)|[_ ->]];
        [|exact H0].
      cbn [fst blocksByNumber genesisBlock]. unfold byNumber.
      rewrite (jsmap_get_set_other Nat.eqb Nat.eqb_spec) by lia. exact H0.
    + unfold addTransaction.
      destruct (TransactionPool.addTransaction tx (transactionPool c0)). exact H0.
Qed.

End ChainGrowth.

(* ================================================================== *)
(** * The accounts of a chain *)
(* ================================================================== *)

Section ChainState.
Import Chain.

Lemma create_wf : StateManager.wf StateManager.create.
Proof.
  unfold StateManager.wf, StateManager.wfHM. simpl.
  repeat split; repeat (constructor; [simpl; intuition (try discriminate; try lia)|]);
    try constructor.
Qed.

Lemma create_solvent : StateManager.solvent StateManager.create.
Proof.
  intros k a Hk. unfold StateManager.view, StateManager.viewHM in Hk. simpl in Hk.
  repeat (match type of Hk with
          | context [String.eqb ?x ?y] => destruct (String.eqb x y)
          end; [inversion Hk; subst a; simpl; lia|]).
  discriminate.
Qed.

(** The loop of [addBlock] over the transactions of a block leaves the
    accounts as they were: every call of [processTransaction] is rejected. *)
Lemma run_transactions (txs : list Transaction.t) (sm : StateManager.t) :
  StateManager.run (map StateManager.ProcessTransaction txs) sm = sm.
Proof.
  induction txs as [|tx txs IH]; [reflexivity|exact IH].
Qed.

Lemma step_state (calculateHash : Block.Digest) (o : Op) (c : t) :
  StateManager.wf (stateManager c) /\ StateManager.solvent (stateManager c) ->
  StateManager.wf (stateManager (step calculateHash o c))
  /\ StateManager.solvent (stateManager (step calculateHash o c))
  /\ StateManager.getTotalSupply (stateManager (step calculateHash o c))
     <= StateManager.getTotalSupply (stateManager c).
Proof.
  intros [Hwf Hs]. destruct o as [block|tx]; cbn [step].
  - destruct (addBlock_cases calculateHash block c) as [(_ & _ & _ & _ & ->)|[_ ->]].
    + cbn [fst stateManager].
      rewrite applyBlockTransactions_state, run_transactions.
      split; [exact Hwf|]. split; [exact Hs|]. apply Z.le_refl.
    + cbn [fst]. split; [exact Hwf|]. split; [exact Hs|]. apply Z.le_refl.
  - unfold addTransaction.
    destruct (TransactionPool.addTransaction tx (transactionPool c)).
    cbn [fst stateManager]. split; [exact Hwf|]. split; [exact Hs|]. apply Z.le_refl.
Qed.

(** No step writes to the accounts: a block has its transactions handed
    to [processTransaction], which rejects each of them, and
    [addTransaction] goes to the pool. *)
Lemma step_stateManager (calculateHash : Block.Digest) (o : Op) (c : t) :
  stateManager (step calculateHash o c) = stateManager c.
Proof.
  destruct o as [block|tx]; cbn [step].
  - destruct (addBlock_cases calculateHash block c) as [(_ & _ & _ & _ & ->)|[_ ->]];
      [|reflexivity].
    cbn [fst stateManager].
    now rewrite applyBlockTransactions_state, run_transactions.
  - unfold addTransaction.
    now destruct (TransactionPool.addTransaction tx (transactionPool c)).
Qed.

Lemma steps_stateManager (calculateHash : Block.Digest) (l : list Op) (c : t) :
  stateManager (steps calculateHash l c) = stateManager c.
Proof.
  revert c. induction l as [|o l IH]; intros c; [reflexivity|].
  change (steps calculateHash (o :: l) c)
    with (steps calculateHash l (step calculateHash o c)).
  now rewrite IH, step_stateManager.
Qed.

(** X18. In such a chain no step raises the total supply, which never
    exceeds the supply of the genesis accounts, and no balance is
    negative.  The accounts are in fact those of the constructor: no
    transaction of a block is ever applied to them. *)
Theorem blocks_mint_nothing (calculateHash : Block.Digest) (l : list Op) (o : Op)
  (now : Z) :
  let c := steps calculateHash l (create calculateHash now) in
  StateManager.getTotalSupply (stateManager (step calculateHash o c))
  <= StateManager.getTotalSupply (stateManager c)
  /\ StateManager.getTotalSupply (stateManager c) <= 1600000000000000000000000000
  /\ (forall address, 0 <= StateManager.getBalance address (stateManager c))
  /\ stateManager c = StateManager.create.
Proof.
  intros c.
  assert (Hc : stateManager c = StateManager.create)
    by (subst c; apply steps_stateManager).
  destruct (step_state calculateHash o c) as (_ & _ & Hstep).
  { rewrite Hc. split; [exact create_wf|exact create_solvent]. }
  split; [exact Hstep|]. split; [rewrite Hc; apply Z.le_refl|].
  split; [|exact Hc].
  intros address. rewrite Hc, getBalance_view.
  apply solvent_orEmpty. exact create_solvent.
Qed.

End ChainState.

(* ================================================================== *)
(** * Queries on a chain *)
(* ================================================================== *)

Section ChainQueries.
Import Chain.

Lemma blockRange_numbers (c : t) (count : nat) (start : Z) :
  consistent c ->
  0 <= start ->
  (count <> 0%nat -> start + Z.of_nat count - 1 <= Z.of_nat (currentHeight c)) ->
  map (fun b => Block.number (Block.header b))
    (flat_map
       (fun i =>
          match byNumber (Z.to_nat i) (blocksByNumber c) with
          | Some block => [block]
          | None => []
          end)
       (countFrom start count))
  = countFrom start count.
Proof.
  intros (H1 & _ & _). revert start.
  induction count as [|count IH]; intros start H0 Hle; [reflexivity|].
  cbn [countFrom flat_map].
  assert (Hs : start + Z.of_nat (S count) - 1 <= Z.of_nat (currentHeight c))
    by (apply Hle; discriminate).
  destruct (H1 (Z.to_nat start)) as (b & Hb & Hn & _); [lia|].
  rewrite Hb. cbn [app map]. rewrite IH by lia.
  f_equal. rewrite Hn. lia.
Qed.

(** X19. In such a chain [getBlockRange(from, to)] returns the blocks
    numbered max(0, from), ..., min(height, to), each once and in this
    order, and none when the range is empty. *)
Theorem getBlockRange_contiguous (calculateHash : Block.Digest) (l : list Op) (now : Z)
  (fromBlock toBlock : Z) :
  let c := steps calculateHash l (create calculateHash now) in
  map (fun b => Block.number (Block.header b)) (getBlockRange fromBlock toBlock c)
  = countFrom (Z.max 0 fromBlock)
      (Z.to_nat (Z.min (Z.of_nat (getHeight c)) toBlock - Z.max 0 fromBlock + 1)).
Proof.
  intros c.
  assert (Hc : consistent c) by (apply steps_consistent, create_consistent).
  clearbody c. unfold getBlockRange, getHeight.
  apply blockRange_numbers; [exact Hc|lia|lia].
Qed.

(** The scan of a block gets no further than its first transaction. *)
Lemma scanBlock_throws (address : string) (limit : Z) (tx : Transaction.t)
  (rest found : list Transaction.t) :
  scanBlock address limit (tx :: rest) found = JS.Throws JS.TypeError.
Proof. reflexivity. Qed.

Lemma scanChain_cases (c : t) (address : string) (limit : Z) (i : nat) :
  scanChain c address limit i []
  = if (0 <? limit) && holdsTransaction c i
    then JS.Throws JS.TypeError
    else JS.Returns [].
Proof.
  induction i as [|i IH]; cbn [scanChain holdsTransaction];
    change (Z.of_nat (List.length (@nil Transaction.t))) with 0;
    destruct (0 <? limit) eqn:Hl; cbn [andb]; try reflexivity.
  - destruct (byNumber 0 (blocksByNumber c)) as [block|]; [|reflexivity].
    destruct (Block.transactions block) as [|tx rest]; reflexivity.
  - destruct (byNumber (S i) (blocksByNumber c)) as [block|]; [|exact IH].
    destruct (Block.transactions block) as [|tx rest]; [exact IH|reflexivity].
Qed.

(** X20. [Chain.getTransactionsByAddress] returns, the empty list, only
    when the limit is not positive or no block up to the current height
    holds a transaction; otherwise it throws a TypeError, whatever the
    address asked for. *)
Theorem getTransactionsByAddress_empty_or_throws
  (address : string) (limit : Z) (c : t) :
  getTransactionsByAddress address limit c
  = if (0 <? limit) && holdsTransaction c (currentHeight c)
    then JS.Throws JS.TypeError
    else JS.Returns [].
Proof. apply scanChain_cases. Qed.

(** The theorem at the genesis chain, and at the chain whose block 1 holds
    the payment. *)
Lemma getTransactionsByAddress_empty_or_throws_witness :
  getTransactionsByAddress Samples.addr2 defaultLimit Samples.genesisChain
  = JS.Returns []
  /\ getTransactionsByAddress Samples.addr2 defaultLimit Samples.chainOfPayment
     = JS.Throws JS.TypeError.
Proof.
  split.
  - now rewrite (getTransactionsByAddress_empty_or_throws Samples.addr2 defaultLimit
                   Samples.genesisChain).
  - now rewrite (getTransactionsByAddress_empty_or_throws Samples.addr2 defaultLimit
                   Samples.chainOfPayment).
Defined.

Lemma searchBlocks_app (h : string) (l1 l2 : list Block.t) :
  searchBlocks h (l1 ++ l2)
  = match searchBlocks h l1 with
    | Some tx => Some tx
    | None => searchBlocks h l2
    end.
Proof.
  induction l1 as [|b l1 IH]; [reflexivity|]. simpl.
  destruct (findInBlock h b); [reflexivity|exact IH].
Qed.

Lemma searchBlocks_hash (h : string) (l : list Block.t) (tx : Transaction.t) :
  searchBlocks h l = Some tx -> Transaction.hash tx = h.
Proof.
  induction l as [|b l IH]; [discriminate|]. simpl.
  destruct (findInBlock h b) as [tx'|] eqn:E; [|exact IH].
  intros H. inversion H; subst tx'. unfold findInBlock in E.
  apply find_some in E. now apply String.eqb_eq.
Qed.

(** X21. After a block is accepted, [getTransaction] finds a transaction
    of that hash for each transaction of the block. *)
Theorem block_transactions_retrievable (calculateHash : Block.Digest)
  (block : Block.t) (c : t) (tx : Transaction.t) :
  snd (addBlock calculateHash block c) = true ->
  In tx (Block.transactions block) ->
  exists tx',
    getTransaction (Transaction.hash tx) (fst (addBlock calculateHash block c)) = Some tx'
    /\ Transaction.hash tx' = Transaction.hash tx.
Proof.
  intros Hok Hin.
  destruct (addBlock_cases calculateHash block c) as [(_ & Hh & _ & _ & Heq)|[_ Heq]];
    rewrite Heq in *; [|discriminate].
  unfold getTransaction. cbn [fst blocks transactionPool].
  unfold getBlock in Hh.
  rewrite (jsmap_set_absent String.eqb String.eqb_spec _ _ _ Hh).
  unfold JSMap.values. rewrite map_app, searchBlocks_app.
  destruct (searchBlocks (Transaction.hash tx) (map snd (blocks c))) as [tx'|] eqn:E.
  - exists tx'. split; [reflexivity|]. eapply searchBlocks_hash; eauto.
  - simpl. unfold findInBlock.
    destruct (find (fun t0 => String.eqb (Transaction.hash t0) (Transaction.hash tx))
                (Block.transactions block)) as [tx'|] eqn:F.
    + exists tx'. split; [reflexivity|]. apply find_some in F.
      now apply String.eqb_eq.
    + exfalso. apply (find_none _ _ F) in Hin. now rewrite String.eqb_refl in Hin.
Qed.

Lemma block_transactions_retrievable_witness :
  snd (addBlock Samples.calculateHash Samples.paidBlock Samples.genesisChain) = true
  /\ In Samples.payment (Block.transactions Samples.paidBlock)
  /\ exists tx',
       getTransaction "a1" Samples.chainOfPayment = Some tx'
       /\ Transaction.hash tx' = "a1"%string.
Proof.
  assert (H1 : snd (addBlock Samples.calculateHash Samples.paidBlock
                      Samples.genesisChain) = true)
    by reflexivity.
  assert (H2 : In Samples.payment (Block.transactions Samples.paidBlock))
    by (now left).
  split; [exact H1|]. split; [exact H2|].
  apply (block_transactions_retrievable Samples.calculateHash Samples.paidBlock
           Samples.genesisChain
           Samples.payment H1 H2).
Defined.

(** X22. In a chain built from [new Chain()], the transaction that
    [getTransaction] returns for a hash carries that hash, whether it comes
    from a block or from the pool. *)
Theorem getTransaction_by_hash (calculateHash : Block.Digest) (l : list Op)
  (now : Z) (h : string) (tx : Transaction.t) :
  getTransaction h (steps calculateHash l (create calculateHash now)) = Some tx ->
  Transaction.hash tx = h.
Proof.
  unfold getTransaction.
  destruct (searchBlocks h
              (JSMap.values (blocks (steps calculateHash l (create calculateHash now)))))
    as [tx'|] eqn:E.
  - intros H. inversion H; subst tx'. eapply searchBlocks_hash; eauto.
  - destruct (steps_pool calculateHash l (create calculateHash now)) as (ops & ->).
    intros Hg.
    destruct (steps_orderly ops TransactionPool.create create_orderly) as [[_ Hall] _].
    rewrite Forall_forall in Hall.
    unfold TransactionPool.getTransaction, TransactionPool.mapGet in Hg.
    apply (jsmap_get_some_in String.eqb String.eqb_spec) in Hg.
    destruct (Hall _ Hg) as [H1 _]. simpl in H1. now symmetry.
Qed.

Lemma getTransaction_by_hash_witness :
  getTransaction "a1"
    (steps Samples.calculateHash [AddTransaction Samples.payment]
       (create Samples.calculateHash 1700000000000))
  = Some Samples.payment
  /\ Transaction.hash Samples.payment = "a1"%string.
Proof.
  assert (H : getTransaction "a1"
                (steps Samples.calculateHash [AddTransaction Samples.payment]
                   (create Samples.calculateHash 1700000000000))
              = Some Samples.payment) by reflexivity.
  split; [exact H|].
  apply (getTransaction_by_hash Samples.calculateHash
           [AddTransaction Samples.payment] 1700000000000 "a1" Samples.payment H).
Defined.

End ChainQueries.

(* ================================================================== *)
(** * The transactions root *)
(* ================================================================== *)

Section TransactionsRoot.
Import Chain.

Lemma append_assoc (a b c : string) : append (append a b) c = append a (append b c).
Proof. induction a as [|x a IH]; simpl; [reflexivity|now rewrite IH]. Qed.

Lemma length_append (a b : string) :
  String.length (append a b) = (String.length a + String.length b)%nat.
Proof. induction a as [|x a IH]; simpl; [reflexivity|now rewrite IH]. Qed.

Lemma bufferFrom_app (a b : string) :
  JS.bufferFrom (append a b) = JS.bufferFrom a ++ JS.bufferFrom b.
Proof.
  induction a as [|x a IH]; simpl; [reflexivity|]. now rewrite IH, app_assoc.
Qed.

Lemma toHex_app (x y : list N) : JS.toHex (x ++ y) = append (JS.toHex x) (JS.toHex y).
Proof. induction x as [|b x IH]; simpl; [reflexivity|now rewrite IH]. Qed.

Lemma length_toHex (x : list N) : String.length (JS.toHex x) = (2 * List.length x)%nat.
Proof. induction x as [|b x IH]; simpl; [reflexivity|]. rewrite IH. lia. Qed.

Lemma length_bufferFrom (s : string) :
  (String.length s <= List.length (JS.bufferFrom s))%nat.
Proof.
  induction s as [|c s IH]; simpl; [lia|].
  rewrite length_app. unfold JS.utf8Char.
  destruct (N_of_ascii c <? 128)%N; simpl; lia.
Qed.

Lemma substring_prefix (n : nat) (a b : string) :
  (n <= String.length a)%nat ->
  String.substring 0 n (append a b) = String.substring 0 n a.
Proof.
  revert a. induction n as [|n IH]; intros a Hle.
  - destruct a; simpl; destruct b; reflexivity.
  - destruct a as [|c a]; simpl in *; [lia|]. f_equal. apply IH. lia.
Qed.

Lemma length_substring (n : nat) (a : string) :
  (n <= String.length a)%nat -> String.length (String.substring 0 n a) = n.
Proof.
  revert a. induction n as [|n IH]; intros a Hle.
  - destruct a; reflexivity.
  - destruct a as [|c a]; simpl in *; [lia|]. f_equal. apply IH. lia.
Qed.

(** With a left hash of 32 code units or more, the node is made of the
    left hash alone. *)
Lemma merkleNode_left (l r : string) :
  (32 <= String.length l)%nat -> merkleNode l r = merkleNode l l.
Proof.
  intros H. unfold merkleNode, JS.sliceString. f_equal.
  rewrite !bufferFrom_app, !toHex_app.
  assert (64 <= String.length (JS.toHex (JS.bufferFrom l)))%nat.
  { rewrite length_toHex. pose proof (length_bufferFrom l). lia. }
  now rewrite !substring_prefix.
Qed.

Lemma length_merkleNode (l r : string) :
  (32 <= String.length l)%nat -> String.length (merkleNode l r) = 66%nat.
Proof.
  intros H. unfold merkleNode, JS.sliceString. simpl. do 2 f_equal.
  apply length_substring.
  rewrite bufferFrom_app, toHex_app, length_append, length_toHex.
  pose proof (length_bufferFrom l). lia.
Qed.

Lemma length_nextLevel (n : nat) (l : list string) :
  (List.length l <= n)%nat ->
  List.length (nextLevel l) = Nat.div2 (S (List.length l)).
Proof.
  revert l. induction n as [|n IH]; intros l Hle.
  - destruct l; [reflexivity|simpl in Hle; lia].
  - destruct l as [|a [|b l]]; try reflexivity.
    cbn [nextLevel List.length]. rewrite IH by (simpl in Hle; lia).
    reflexivity.
Qed.

Lemma div2_succ_le (n : nat) : (Nat.div2 (S n) <= n)%nat.
Proof.
  assert (H : (Nat.div2 (S n) <= n /\ Nat.div2 (S (S n)) <= S n)%nat).
  { induction n as [|n [IH1 IH2]]; [simpl; lia|]. split; [exact IH2|].
    change (Nat.div2 (S (S (S n)))) with (S (Nat.div2 (S n))). lia. }
  apply H.
Qed.

Lemma buildMerkleTreeWithin_returns (depth : nat) (l : list string) :
  l <> [] -> (List.length l <= depth)%nat ->
  exists root, buildMerkleTreeWithin depth l = Some root.
Proof.
  revert l. induction depth as [|depth IH]; intros l Hne Hle.
  - destruct l; [contradiction|simpl in Hle; lia].
  - destruct l as [|a [|b l]]; [contradiction|eexists; reflexivity|].
    cbn [buildMerkleTreeWithin]. apply IH.
    + simpl. discriminate.
    + rewrite (length_nextLevel (List.length (a :: b :: l))) by lia.
      simpl List.length in *.
      change (Nat.div2 (S (S (S (List.length l)))))
        with (S (Nat.div2 (S (List.length l)))).
      pose proof (div2_succ_le (List.length l)). lia.
Qed.

Lemma buildMerkleTreeWithin_first (depth : nat) (h : string) (r1 r2 : list string) :
  (32 <= String.length h)%nat -> List.length r1 = List.length r2 ->
  buildMerkleTreeWithin depth (h :: r1) = buildMerkleTreeWithin depth (h :: r2).
Proof.
  revert h r1 r2. induction depth as [|depth IH]; intros h r1 r2 Hh Hlen;
    [reflexivity|].
  destruct r1 as [|a r1], r2 as [|b r2]; try discriminate; [reflexivity|].
  cbn [buildMerkleTreeWithin nextLevel].
  rewrite (merkleNode_left h (if JS.truthy a then a else h)) by exact Hh.
  rewrite (merkleNode_left h (if JS.truthy b then b else h)) by exact Hh.
  apply IH.
  - rewrite length_merkleNode by exact Hh. lia.
  - simpl in Hlen.
    rewrite (length_nextLevel (List.length r1)), (length_nextLevel (List.length r2)) by lia.
    congruence.
Qed.

(** X23. [calculateTransactionsRoot] returns a root for every list of
    transactions, the empty one included.  For a list whose first hash has
    32 code units or more, the root depends on that hash and on the number
    of transactions only: two lists of the same length that begin with the
    same hash get the same root. *)
Theorem transactionsRoot_reads_first_hash :
  (forall transactions : list Transaction.t,
      exists root, calculateTransactionsRoot transactions = Some root)
  /\ (forall (first1 first2 : Transaction.t) (rest1 rest2 : list Transaction.t),
        Transaction.hash first1 = Transaction.hash first2 ->
        (32 <= String.length (Transaction.hash first1))%nat ->
        List.length rest1 = List.length rest2 ->
        calculateTransactionsRoot (first1 :: rest1)
        = calculateTransactionsRoot (first2 :: rest2)).
Proof.
  split.
  - intros [|tx rest]; [eexists; reflexivity|].
    unfold calculateTransactionsRoot, buildMerkleTree.
    apply buildMerkleTreeWithin_returns; [discriminate|lia].
  - intros first1 first2 rest1 rest2 Hh H32 Hlen.
    unfold calculateTransactionsRoot, buildMerkleTree.
    cbn [map List.length]. rewrite !length_map, <- Hh, Hlen.
    apply buildMerkleTreeWithin_first; [exact H32|].
    now rewrite !length_map.
Qed.

(** The theorem on two lists of two transactions that share their first
    one, and on the empty list. *)
Lemma transactionsRoot_reads_first_hash_witness :
  (32 <= String.length (Transaction.hash Samples.anchor))%nat
  /\ calculateTransactionsRoot [Samples.anchor; Samples.payment]
     = calculateTransactionsRoot [Samples.anchor; Samples.received]
  /\ Transaction.hash Samples.payment <> Transaction.hash Samples.received
  /\ exists root, calculateTransactionsRoot [] = Some root.
Proof.
  assert (H32 : (32 <= String.length (Transaction.hash Samples.anchor))%nat)
    by (simpl; lia).
  destruct transactionsRoot_reads_first_hash as (Hall & Hfirst).
  split; [exact H32|]. split; [|split; [discriminate|exact (Hall [])]].
  exact (Hfirst Samples.anchor Samples.anchor [Samples.payment] [Samples.received]
           eq_refl H32 eq_refl).
Defined.

End TransactionsRoot.

(* ================================================================== *)
(** * Validator signatures of a block *)
(* ================================================================== *)

Section BlockSignatures.
Import Block.

Lemma alreadySigned_false (s : Signature.t) (l : list Signature.t) :
  alreadySigned s l = false -> ~ In (Signature.validator s) (map Signature.validator l).
Proof.
  unfold alreadySigned. induction l as [|x l IH]; simpl; [tauto|].
  intros H. apply orb_false_iff in H. destruct H as [H1 H2].
  intros [Hx|Hin]; [|now apply IH].
  rewrite Hx, String.eqb_refl in H1. discriminate.
Qed.

(** Each signature is announced once, and the consensus event once for
    every signature from the fourth on. *)
Lemma signOrKeep_inv (s : Signature.t) (st : list Signature.t * list Event) :
  NoDup (map Signature.validator (fst st))
  /\ List.length (filter isConsensus (snd st)) = (List.length (fst st) - 3)%nat
  /\ List.length (filter (fun e => negb (isConsensus e)) (snd st))
     = List.length (fst st) ->
  NoDup (map Signature.validator (fst (signOrKeep s st)))
  /\ List.length (filter isConsensus (snd (signOrKeep s st)))
     = (List.length (fst (signOrKeep s st)) - 3)%nat
  /\ List.length (filter (fun e => negb (isConsensus e)) (snd (signOrKeep s st)))
     = List.length (fst (signOrKeep s st)).
Proof.
  destruct st as [sigs ev]. cbn [fst snd]. intros (Hnd & Hc & Hs).
  unfold signOrKeep, addValidatorSignature. cbn [fst snd].
  destruct (alreadySigned s sigs) eqn:E; [cbn [fst snd]; auto|].
  apply alreadySigned_false in E. cbn [fst snd].
  split; [|split].
  - rewrite map_app. simpl. apply nodup_snoc; assumption.
  - unfold hasConsensus, defaultRequiredValidators.
    rewrite length_app. simpl List.length.
    destruct (Z.leb_spec 4 (Z.of_nat (List.length sigs + 1))) as [H|H];
      rewrite ?filter_app, ?length_app; simpl; rewrite ?length_app; simpl; lia.
  - destruct (hasConsensus defaultRequiredValidators (sigs ++ [s]));
      rewrite ?filter_app, ?length_app; simpl; rewrite ?length_app; simpl; lia.
Qed.

(** X24. Whatever signatures are offered to a block that was built
    without signatures, the accepted ones come from validators that differ
    from one another: a second signature of a validator throws and is not
    recorded, any other is appended.  The event [consensus] has been
    emitted once for each accepted signature from the fourth on. *)
Theorem signatures_stay_distinct (l : list Signature.t) :
  let signatures := fst (signAll l ([], [])) in
  let emitted := snd (signAll l ([], [])) in
  NoDup (map Signature.validator signatures)
  /\ List.length (filter isConsensus emitted) = (List.length signatures - 3)%nat
  /\ (forall s, alreadySigned s signatures = true ->
        exists e, addValidatorSignature s signatures emitted = JS.Throws e)
  /\ (forall s, alreadySigned s signatures = false ->
        exists emitted',
          addValidatorSignature s signatures emitted
          = JS.Returns (signatures ++ [s], emitted')).
Proof.
  intros signatures emitted.
  assert (H : NoDup (map Signature.validator signatures)
              /\ List.length (filter isConsensus emitted)
                 = (List.length signatures - 3)%nat
              /\ List.length (filter (fun e => negb (isConsensus e)) emitted)
                 = List.length signatures).
  { subst signatures emitted. unfold signAll.
    assert (H0 : NoDup (map Signature.validator (fst (@nil Signature.t, @nil Event)))
                 /\ List.length (filter isConsensus (snd (@nil Signature.t, @nil Event)))
                    = (List.length (fst (@nil Signature.t, @nil Event)) - 3)%nat
                 /\ List.length (filter (fun e => negb (isConsensus e))
                                   (snd (@nil Signature.t, @nil Event)))
                    = List.length (fst (@nil Signature.t, @nil Event)))
      by (simpl; repeat split; constructor).
    revert H0. generalize (@nil Signature.t, @nil Event).
    induction l as [|s l IH]; intros st H0; [exact H0|].
    simpl. apply IH. now apply signOrKeep_inv. }
  destruct H as (H1 & H2 & _). split; [exact H1|]. split; [exact H2|]. split.
  - intros s Hs. unfold addValidatorSignature. rewrite Hs. eauto.
  - intros s Hs. unfold addValidatorSignature. rewrite Hs. eauto.
Qed.

End BlockSignatures.

(* ================================================================== *)
(** * Histories of a coordinator *)
(* ================================================================== *)

Section CoordinatorHistory.
Import PoSAConsensus.

Lemma pushHistory_in (x r : Round.t) (h : list Round.t) :
  In x (pushHistory r h) -> x = r \/ In x h.
Proof.
  unfold pushHistory. intros H.
  assert (Hin : In x (h ++ [r])).
  { destruct (100 <? List.length (h ++ [r]))%nat; [|exact H].
    destruct (h ++ [r]); [contradiction|now right]. }
  apply in_app_or in Hin. destruct Hin as [Hin|[->|[]]]; auto.
Qed.

Lemma pushHistory_length (r : Round.t) (h : list Round.t) :
  (List.length h <= 100)%nat -> (List.length (pushHistory r h) <= 100)%nat.
Proof.
  intros H. unfold pushHistory.
  destruct (Nat.ltb_spec 100 (List.length (h ++ [r]))) as [Hlt|Hge]; [|exact Hge].
  rewrite length_app in Hlt. simpl in Hlt.
  destruct h as [|x h]; simpl in *; [lia|].
  rewrite length_app. simpl. lia.
Qed.

Lemma orderly_ext (c c' : t) :
  currentRound c' = currentRound c ->
  consensusHistory c' = consensusHistory c ->
  config c' = config c ->
  orderly c -> orderly c'.
Proof. unfold orderly. intros -> -> ->. trivial. Qed.

Lemma finalizeRound_config (st : Status) (now : Z) (c : t) :
  config (finalizeRound st now c) = config c.
Proof. unfold finalizeRound. now destruct (currentRound c). Qed.

(** Closing the open round keeps the coordinator orderly, provided an
    approval is backed by the votes. *)
Lemma finalizeRound_orderly (st : Status) (now : Z) (c : t) :
  st = approved \/ st = rejected ->
  (forall r, currentRound c = Some r -> justified (config c) (settle st now r)) ->
  orderly c -> orderly (finalizeRound st now c).
Proof.
  intros Hst Hj Ho. unfold finalizeRound.
  destruct (currentRound c) as [r|] eqn:Hr; [|exact Ho].
  destruct Ho as (Hcur & Hhist & Hlen).
  destruct (Hcur r Hr) as (_ & _ & Hsound).
  unfold orderly. cbn [currentRound consensusHistory config].
  split; [discriminate|]. split; [|now apply pushHistory_length].
  apply Forall_forall. intros x Hx. apply pushHistory_in in Hx.
  destruct Hx as [->|Hx]; [|rewrite Forall_forall in Hhist; now apply Hhist].
  split; [exact Hst|]. split; [exact Hsound|]. split; [discriminate|].
  now apply Hj.
Qed.

Lemma checkConsensusStatus_orderly (now : Z) (c : t) :
  orderly c -> orderly (checkConsensusStatus now c).
Proof.
  intros Ho. unfold checkConsensusStatus.
  destruct (currentRound c) as [r|] eqn:Hr; [|exact Ho].
  destruct (Z.leb_spec (requiredVotes (config c)) (approvalVotes (Round.votes r))).
  { apply finalizeRound_orderly; [now left| |exact Ho].
    intros r' Hr'. rewrite Hr in Hr'. inversion Hr'; subst r'.
    intros _. left. assumption. }
  destruct (requiredVotes (config c) <=? rejectionVotes (Round.votes r)).
  { apply finalizeRound_orderly; [now right| |exact Ho].
    intros r' _ Hs. discriminate. }
  destruct (Z.leb_spec (validatorCount (config c)) (totalVotes (Round.votes r)));
    [|exact Ho].
  destruct (Z.ltb_spec (rejectionVotes (Round.votes r)) (approvalVotes (Round.votes r))).
  - apply finalizeRound_orderly; [now left| |exact Ho].
    intros r' Hr'. rewrite Hr in Hr'. inversion Hr'; subst r'.
    intros _. right. split; assumption.
  - apply finalizeRound_orderly; [now right| |exact Ho].
    intros r' _ Hs. discriminate.
Qed.

Lemma alreadyVoted_false (v : Vote.t) (r : Round.t) :
  alreadyVoted v r = false ->
  ~ In (Vote.validator v) (map Vote.validator (Round.votes r)).
Proof.
  unfold alreadyVoted. induction (Round.votes r) as [|x l IH]; simpl; [tauto|].
  intros H. apply orb_false_iff in H. destruct H as [H1 H2].
  intros [Hx|Hin]; [|now apply IH].
  rewrite Hx, String.eqb_refl in H1. discriminate.
Qed.

Lemma handleValidatorVote_orderly (v : Vote.t) (now : Z) (c : t) :
  orderly c -> orderly (handleValidatorVote v now c).
Proof.
  intros Ho. unfold handleValidatorVote.
  destruct (currentRound c) as [r|] eqn:Hr; [|exact Ho].
  destruct (String.eqb_spec (Vote.blockHash v) (Round.blockHash r)) as [Hh|Hh];
    cbn [negb]; [|exact Ho].
  destruct (alreadyVoted v r) eqn:Hv; [exact Ho|].
  destruct (validateVoteSignature v) eqn:Hs; cbn [negb]; [|exact Ho].
  apply checkConsensusStatus_orderly.
  destruct Ho as (Hcur & Hhist & Hlen).
  destruct (Hcur r Hr) as (Hp & Hf & Hnd & Hall).
  unfold orderly, emit, withRound. cbn [currentRound consensusHistory config].
  split; [|split; assumption].
  intros r' Hr'. inversion Hr'; subst r'. unfold pushVote, sound.
  cbn [Round.status Round.finalizedAt Round.votes Round.blockHash].
  split; [exact Hp|]. split; [exact Hf|]. split.
  - rewrite map_app. simpl. apply nodup_snoc; [exact Hnd|].
    now apply alreadyVoted_false.
  - apply Forall_app. split; [exact Hall|]. constructor; [|constructor]. auto.
Qed.

Lemma handleRoundTimeout_orderly (now : Z) (c : t) :
  orderly c -> orderly (handleRoundTimeout now c).
Proof.
  intros Ho. unfold handleRoundTimeout.
  destruct (currentRound c) as [r|]; [|exact Ho].
  destruct (statusEqb (Round.status r) pending); cbn [negb]; [|exact Ho].
  apply finalizeRound_orderly; [now right| |exact Ho].
  intros r' _ Hs. discriminate.
Qed.

Lemma votes_orderly (incoming : list (Vote.t * Z)) (c : t) :
  orderly c ->
  orderly (fold_left (fun acc vt => handleValidatorVote (fst vt) (snd vt) acc)
             incoming c).
Proof.
  revert c. induction incoming as [|vt l IH]; intros c Ho; [exact Ho|].
  simpl. apply IH. now apply handleValidatorVote_orderly.
Qed.

Lemma act_orderly (a : Action) (c : t) : orderly c -> orderly (act a c).
Proof.
  intros Ho. destruct a as [block proposer now incoming|v now|i now|now]; cbn [act].
  - unfold proposeBlock.
    destruct (isActive c); cbn [negb fst]; [|exact Ho].
    destruct (currentRound c) eqn:Hr; [exact Ho|]. cbn [fst].
    eapply orderly_ext; [reflexivity|reflexivity|reflexivity|].
    eapply orderly_ext; [reflexivity|reflexivity|reflexivity|].
    apply votes_orderly.
    destruct Ho as (_ & Hhist & Hlen).
    unfold orderly, withRound. cbn [currentRound consensusHistory config].
    split; [|split; assumption].
    intros r Hr'. inversion Hr'; subst r. unfold sound. simpl.
    repeat split; constructor.
  - now apply handleValidatorVote_orderly.
  - unfold fireTimer. destruct (nth_error (timers c) i); [|exact Ho].
    apply handleRoundTimeout_orderly.
    eapply orderly_ext; [reflexivity|reflexivity|reflexivity|exact Ho].
  - unfold stop. cbn [currentRound].
    destruct (currentRound c) eqn:Hr.
    + apply handleRoundTimeout_orderly.
      eapply orderly_ext;
        [cbn [currentRound]; symmetry; exact Hr|reflexivity|reflexivity|exact Ho].
    + eapply orderly_ext;
        [cbn [currentRound]; symmetry; exact Hr|reflexivity|reflexivity|exact Ho].
Qed.

Lemma runActions_orderly (l : list Action) (c : t) :
  orderly c -> orderly (runActions l c).
Proof.
  revert c. induction l as [|a l IH]; intros c Ho; [exact Ho|].
  simpl. apply IH. now apply act_orderly.
Qed.

Lemma initialize_orderly (cfg : PoSAConfig) : orderly (initialize (create cfg)).
Proof.
  unfold orderly. simpl. split; [discriminate|]. split; [constructor|lia].
Qed.

Lemma handleValidatorVote_config (v : Vote.t) (now : Z) (c : t) :
  config (handleValidatorVote v now c) = config c.
Proof.
  unfold handleValidatorVote.
  destruct (currentRound c) as [r|]; [|reflexivity].
  destruct (negb _); [reflexivity|]. destruct (alreadyVoted v r); [reflexivity|].
  destruct (negb _); [reflexivity|].
  unfold checkConsensusStatus. cbn [currentRound emit withRound config].
  repeat match goal with
         | |- context [if ?b then _ else _] => destruct b
         end; rewrite ?finalizeRound_config; reflexivity.
Qed.

Lemma handleRoundTimeout_config (now : Z) (c : t) :
  config (handleRoundTimeout now c) = config c.
Proof.
  unfold handleRoundTimeout.
  destruct (currentRound c) as [r|]; [|reflexivity].
  destruct (negb _); [reflexivity|apply finalizeRound_config].
Qed.

Lemma votes_config (incoming : list (Vote.t * Z)) (c : t) :
  config (fold_left (fun acc vt => handleValidatorVote (fst vt) (snd vt) acc)
            incoming c) = config c.
Proof.
  revert c. induction incoming as [|vt l IH]; intros c; [reflexivity|].
  simpl. now rewrite IH, handleValidatorVote_config.
Qed.

Lemma act_config (a : Action) (c : t) : config (act a c) = config c.
Proof.
  destruct a as [block proposer now incoming|v now|i now|now]; cbn [act].
  - unfold proposeBlock. destruct (negb (isActive c)); [reflexivity|].
    destruct (currentRound c); [reflexivity|]. cbn [fst emit config].
    now rewrite votes_config.
  - apply handleValidatorVote_config.
  - unfold fireTimer. destruct (nth_error (timers c) i); [|reflexivity].
    now rewrite handleRoundTimeout_config.
  - unfold stop. cbn [currentRound].
    destruct (currentRound c); [now rewrite handleRoundTimeout_config|reflexivity].
Qed.

Lemma runActions_config (l : list Action) (c : t) : config (runActions l c) = config c.
Proof.
  revert c. induction l as [|a l IH]; intros c; [reflexivity|].
  simpl. now rewrite IH, act_config.
Qed.


Lemma runActions_reachable (l : list Action) (cfg : PoSAConfig) :
  orderly (runActions l (initialize (create cfg)))
  /\ config (runActions l (initialize (create cfg))) = cfg.
Proof.
  split; [apply runActions_orderly, initialize_orderly|].
  now rewrite runActions_config.
Qed.

(** X25. In every state that an initialized coordinator reaches, each
    round, open or archived, holds at most one vote per validator, all of
    them signed votes on the block of the round; a round is open exactly
    when [isRoundActive] holds; the archived rounds are approved or
    rejected and carry [finalizedAt]; the history keeps at most 100 rounds,
    none of which counts as timed out. *)
Theorem rounds_hold_one_vote_per_validator (l : list Action) (cfg : PoSAConfig) :
  let c := runActions l (initialize (create cfg)) in
  (forall r, currentRound c = Some r \/ In r (consensusHistory c) ->
     NoDup (map Vote.validator (Round.votes r))
     /\ forall v, In v (Round.votes r) ->
          Vote.blockHash v = Round.blockHash r
          /\ validateVoteSignature v = true)
  /\ (isRoundActive c = true <-> currentRound c <> None)
  /\ (forall r, In r (consensusHistory c) ->
        (Round.status r = approved \/ Round.status r = rejected)
        /\ Round.finalizedAt r <> None)
  /\ (List.length (consensusHistory c) <= 100)%nat
  /\ timeoutRounds c = 0%nat.
Proof.
  intros c. destruct (runActions_reachable l cfg) as [(Hcur & Hhist & Hlen) _].
  fold c in Hcur, Hhist, Hlen. rewrite Forall_forall in Hhist.
  split; [|split; [|split; [|split]]].
  - intros r [Hr|Hr].
    + destruct (Hcur r Hr) as (_ & _ & Hnd & Hall). split; [exact Hnd|].
      now rewrite Forall_forall in Hall.
    + destruct (Hhist r Hr) as (_ & (Hnd & Hall) & _). split; [exact Hnd|].
      now rewrite Forall_forall in Hall.
  - unfold isRoundActive. destruct (currentRound c) as [r|] eqn:Hr.
    + destruct (Hcur r eq_refl) as (Hp & _). rewrite Hp. simpl.
      split; [discriminate|reflexivity].
    + split; [discriminate|intros H; now contradiction H].
  - intros r Hr. destruct (Hhist r Hr) as (Hd & _ & Hf & _). split; assumption.
  - exact Hlen.
  - unfold timeoutRounds.
    assert (Hnone : forall h, (forall r, In r h -> decided r) ->
              List.length (filter (fun r => statusEqb (Round.status r) timeout) h)
              = 0%nat).
    { induction h as [|r h IH]; intros Hd; [reflexivity|]. simpl.
      destruct (Hd r (or_introl eq_refl)) as [E|E]; rewrite E; simpl;
        apply IH; intros x Hx; apply Hd; now right. }
    apply Hnone. intros r Hr. apply Hhist.
    rewrite <- (firstn_skipn (List.length (consensusHistory c) - 50)).
    apply in_or_app. now right.
Qed.

(** X26. No round is archived as approved without the votes for it: an
    approved round holds the quorum of approvals, or the votes of all
    validators with more approvals than rejections.  In particular
    neither a timer nor [stop] approves a round. *)
Theorem approval_needs_votes (l : list Action) (cfg : PoSAConfig) :
  Forall
    (fun r =>
       Round.status r = approved ->
       requiredVotes cfg <= approvalVotes (Round.votes r)
       \/ (validatorCount cfg <= totalVotes (Round.votes r)
           /\ rejectionVotes (Round.votes r) < approvalVotes (Round.votes r)))
    (consensusHistory (runActions l (initialize (create cfg)))).
Proof.
  destruct (runActions_reachable l cfg) as [(_ & Hhist & _) Hcfg].
  rewrite Hcfg in Hhist.
  eapply Forall_impl; [|exact Hhist].
  intros r (_ & _ & _ & Hj). exact Hj.
Qed.

Lemma finalizeRound_emits (st : Status) (now : Z) (c : t) :
  (List.length (emitted c) <= List.length (emitted (finalizeRound st now c)))%nat.
Proof.
  unfold finalizeRound. destruct (currentRound c); simpl; [|lia].
  rewrite length_app. simpl. lia.
Qed.

Lemma checkConsensusStatus_emits (now : Z) (c : t) :
  (List.length (emitted c) <= List.length (emitted (checkConsensusStatus now c)))%nat.
Proof.
  unfold checkConsensusStatus. destruct (currentRound c); [|lia].
  repeat match goal with
         | |- context [if ?b then _ else _] => destruct b
         end; try apply finalizeRound_emits; lia.
Qed.

(** X27. [handleValidatorVote] leaves the coordinator as it was exactly
    when no round is open, the vote names another block than the round, its
    validator has voted in the round already, or its signature or its
    validator is empty. *)
Theorem vote_is_ignored_iff (v : Vote.t) (now : Z) (c : t) :
  handleValidatorVote v now c = c <-> ignores v c.
Proof.
  unfold handleValidatorVote, ignores.
  destruct (currentRound c) as [r|] eqn:Hr; [|tauto].
  destruct (String.eqb_spec (Vote.blockHash v) (Round.blockHash r)) as [Hh|Hh];
    cbn [negb]; [|tauto].
  destruct (alreadyVoted v r) eqn:Hv; [tauto|].
  destruct (validateVoteSignature v) eqn:Hs; cbn [negb]; [|tauto].
  split.
  - intros H. exfalso.
    pose proof (checkConsensusStatus_emits now
                  (emit (voteReceived v) (withRound (Some (pushVote v r)) c))) as Hle.
    rewrite H in Hle. unfold emit, withRound in Hle. cbn [emitted] in Hle.
    rewrite length_app in Hle. simpl in Hle. lia.
  - intros [H|[H|H]]; [contradiction|discriminate|discriminate].
Qed.

(** X28. [proposeBlock] succeeds exactly when the coordinator is active
    and no round is open, and otherwise changes nothing.  After a proposal
    that no vote has answered yet, the round is pending on the block and
    holds no vote, one timer has been registered, and any further proposal
    is refused. *)
Theorem proposeBlock_accepts_iff
  (block : Block.t) (proposer : string) (now : Z) (incoming : list (Vote.t * Z))
  (c : t) :
  (snd (proposeBlock block proposer now incoming c) = true
   <-> isActive c = true /\ currentRound c = None)
  /\ (snd (proposeBlock block proposer now incoming c) = false ->
      fst (proposeBlock block proposer now incoming c) = c)
  /\ (snd (proposeBlock block proposer now [] c) = true ->
      let c' := fst (proposeBlock block proposer now [] c) in
      isRoundActive c' = true
      /\ option_map Round.blockHash (currentRound c') = Some (Block.hash block)
      /\ option_map Round.votes (currentRound c') = Some []
      /\ timers c'
         = timers c ++ [ {| armedFor := Block.hash block;
                            delay := roundTimeout (config c) |} ]
      /\ forall block2 proposer2 now2 incoming2,
           proposeBlock block2 proposer2 now2 incoming2 c' = (c', false)).
Proof.
  unfold proposeBlock.
  destruct (isActive c) eqn:Ha; cbn [negb].
  - destruct (currentRound c) as [r|] eqn:Hr; cbn [fst snd].
    + split; [split; [discriminate|intros [_ H]; discriminate]|].
      split; [reflexivity|discriminate].
    + split; [split; [auto|reflexivity]|]. split; [discriminate|].
      intros _. cbn [fold_left]. unfold isRoundActive, emit, withRound.
      cbn [currentRound timers config isActive Round.status Round.blockHash
           Round.votes option_map statusEqb].
      repeat split. intros block2 proposer2 now2 incoming2.
      rewrite Ha. reflexivity.
  - cbn [fst snd]. split; [split; [discriminate|intros [H _]; discriminate]|].
    split; [reflexivity|discriminate].
Qed.

Lemma idle_act (a : Action) (c : t) :
  isActive c = false -> currentRound c = None ->
  isActive (act a c) = false /\ currentRound (act a c) = None
  /\ consensusHistory (act a c) = consensusHistory c.
Proof.
  intros Ha Hr.
  destruct a as [block proposer now incoming|v now|i now|now]; cbn [act].
  - unfold proposeBlock. rewrite Ha. cbn [negb fst]. auto.
  - unfold handleValidatorVote. rewrite Hr. auto.
  - unfold fireTimer. destruct (nth_error (timers c) i); [|auto].
    unfold handleRoundTimeout. cbn [currentRound]. rewrite Hr.
    cbn [isActive currentRound consensusHistory]. auto.
  - unfold stop. cbn [currentRound]. rewrite Hr.
    cbn [isActive currentRound consensusHistory]. auto.
Qed.

(** X29. [stop] closes the open round, if any, and deactivates the
    coordinator; whatever is proposed, voted or fired afterwards, no round
    opens and the history stays as it is. *)
Theorem stopped_coordinator_stays_idle
  (l later : list Action) (cfg : PoSAConfig) (now : Z) :
  let c := stop now (runActions l (initialize (create cfg))) in
  isActive c = false
  /\ currentRound c = None
  /\ currentRound (runActions later c) = None
  /\ consensusHistory (runActions later c) = consensusHistory c.
Proof.
  intros c.
  assert (H : isActive c = false /\ currentRound c = None).
  { subst c. destruct (runActions_reachable l cfg) as [(Hcur & _) _].
    generalize dependent (runActions l (initialize (create cfg))). intros c0 Hcur.
    unfold stop. cbn [currentRound].
    destruct (currentRound c0) as [r|] eqn:Hr; [|auto].
    destruct (Hcur r eq_refl) as (Hp & _).
    unfold handleRoundTimeout. cbn [currentRound]. rewrite Hp. cbn [statusEqb negb].
    unfold finalizeRound. cbn [currentRound isActive]. auto. }
  destruct H as [Ha Hr]. split; [exact Ha|]. split; [exact Hr|].
  clearbody c. revert c Ha Hr.
  induction later as [|a later IH]; intros c Ha Hr; [auto|].
  change (runActions (a :: later) c) with (runActions later (act a c)).
  destruct (idle_act a c Ha Hr) as (Ha' & Hr' & Hh').
  destruct (IH (act a c) Ha' Hr') as [H1 H2].
  split; [exact H1|]. now rewrite H2.
Qed.

Lemma handleRoundTimeout_keeps_timers (now : Z) (c : t) :
  timers (handleRoundTimeout now c) = timers c.
Proof.
  unfold handleRoundTimeout. destruct (currentRound c); [|reflexivity].
  destruct (negb _); [reflexivity|apply finalizeRound_keeps_timers].
Qed.

Lemma votes_keep_timers (incoming : list (Vote.t * Z)) (c : t) :
  timers (fold_left (fun acc vt => handleValidatorVote (fst vt) (snd vt) acc)
            incoming c) = timers c.
Proof.
  revert c. induction incoming as [|vt l IH]; intros c; [reflexivity|].
  simpl. now rewrite IH, handleValidatorVote_keeps_timers.
Qed.

(** X30. Nothing but its own firing removes a registered timer: a
    proposal, a vote and [stop] keep every timer, and they add one at
    most. *)
Theorem timers_are_never_cancelled (a : Action) (c : t) :
  isFire a = false ->
  exists armed, timers (act a c) = timers c ++ armed
                /\ (List.length armed <= 1)%nat.
Proof.
  intros Hf. destruct a as [block proposer now incoming|v now|i now|now];
    cbn [act]; try discriminate.
  - unfold proposeBlock. destruct (negb (isActive c));
      [exists []; cbn [fst]; rewrite app_nil_r; auto|].
    destruct (currentRound c); [exists []; cbn [fst]; rewrite app_nil_r; auto|].
    cbn [fst emit timers]. rewrite votes_keep_timers.
    eexists. split; [reflexivity|simpl; lia].
  - exists []. rewrite handleValidatorVote_keeps_timers, app_nil_r. auto.
  - exists []. unfold stop. cbn [currentRound].
    destruct (currentRound c); rewrite ?handleRoundTimeout_keeps_timers;
      cbn [timers]; rewrite app_nil_r; auto.
Qed.

Lemma timers_are_never_cancelled_witness :
  isFire (Cast (Samples.ballot "b1" "stable" approve 400) 400) = false
  /\ exists armed,
       timers (act (Cast (Samples.ballot "b1" "stable" approve 400) 400)
                 Samples.threeApprovals)
       = timers Samples.threeApprovals ++ armed
       /\ (List.length armed <= 1)%nat.
Proof.
  split; [reflexivity|].
  apply (timers_are_never_cancelled
           (Cast (Samples.ballot "b1" "stable" approve 400) 400)
           Samples.threeApprovals eq_refl).
Defined.

End CoordinatorHistory.
